(** * A shallow embedding of [app.py]: the Messari asset paginator and the
      CSV upsert pipeline.

    The development follows the source file top to bottom:
    - Python values: exceptions, insertion-ordered dictionaries, cells and
      row labels;
    - the remote side: responses, the page fetcher, [asyncio.gather] and the
      pagination loop of [get_assets_from_messari];
    - the pandas side: data frames, [to_dict], [from_dict], [sort_values],
      [drop], and the functions [upsert_cryptocurrencies] and
      [sort_cryptocurrencies];
    - the script body ([main]) over a file store and a disk.
    Theorems come after all definitions. *)

From Stdlib Require Import String ZArith Lia Bool Arith List Permutation Sorted.
Import ListNotations.
Local Open Scope string_scope.
Local Open Scope list_scope.

Set Implicit Arguments.

(** ** Python values *)

(** The exceptions the script can raise: a missing dictionary key or column,
    the plain [Exception] of the page fetcher, a failure of the transport
    underneath [session.get], and a failure of the disk underneath
    [to_csv]. *)
Inductive exn : Type :=
| KeyError (key : string)
| Exception (msg : string)
| ClientError (msg : string)
| OSError (msg : string).

Inductive result (A : Type) : Type :=
| Ok (a : A)
| Raise (e : exn).

Arguments Ok {A} a.
Arguments Raise {A} e.

Definition bind {A B : Type} (r : result A) (k : A -> result B) : result B :=
  match r with
  | Ok a => k a
  | Raise e => Raise e
  end.

Notation "x <- r ;; k" := (bind r (fun x => k))
  (at level 61, r at next level, right associativity).

(** A scalar as it sits in a JSON document or in a frame cell.  [Null] stands
    for JSON [null], Python [None] and the missing value (NaN) of pandas;
    a non-integral number is carried as its literal.  [Flt z] is the float
    that the conversion of the integer [z] gives, [float(z)]: the float64
    nearest to [z], carried as the integer it was converted from. *)
Inductive cell : Type :=
| Null
| Int (z : Z)
| Flt (z : Z)
| Real (literal : string)
| Str (s : string).

(** The label of a row of a frame: a string, as the identifiers of the API
    are, or an integer, as pandas reads the labels of a file in which every
    label is a numeral.  The string ['123'] and the integer [123] are two
    labels. *)
Inductive label : Type :=
| LStr (s : string)
| LInt (z : Z).

Coercion LStr : string >-> label.


Definition label_eqb (a b : label) : bool :=
  match a, b with
  | LStr s, LStr t => String.eqb s t
  | LInt x, LInt y => Z.eqb x y
  | _, _ => false
  end.

(** The keys of a Python [dict] are compared with [==]. *)
Class Key (K : Type) : Type := key_eqb : K -> K -> bool.

#[export] Instance string_key : Key string := String.eqb.
#[export] Instance label_key : Key label := label_eqb.

(** [key_eqb] decides equality. *)
Class KeySpec (K : Type) `{Key K} : Type :=
  key_eqb_spec : forall a b : K, reflect (a = b) (key_eqb a b).

Arguments KeySpec K {_}.

(** A Python [dict]: insertion ordered, keys unique. *)
Definition dict (K V : Type) : Type := list (K * V).

Fixpoint dict_get {K : Type} `{Key K} {V : Type} (k : K) (d : dict K V)
    : option V :=
  match d with
  | [] => None
  | (k', v) :: d' => if key_eqb k k' then Some v else dict_get k d'
  end.

(** [d[k] = v]: an existing key keeps its position, a new key goes last. *)
Fixpoint dict_set {K : Type} `{Key K} {V : Type} (k : K) (v : V)
    (d : dict K V) : dict K V :=
  match d with
  | [] => [(k, v)]
  | (k', v') :: d' =>
      if key_eqb k k' then (k, v) :: d' else (k', v') :: dict_set k v d'
  end.

Definition dict_keys {K V : Type} (d : dict K V) : list K := map fst d.

(** [dict(items)]: later items overwrite earlier ones with the same key. *)
Definition dict_of_items {K : Type} `{Key K} {V : Type}
    (items : list (K * V)) : dict K V :=
  fold_left (fun d kv => dict_set (fst kv) (snd kv) d) items [].

(** [enumerate(l)] *)
Definition enumerate {A : Type} (l : list A) : list (nat * A) :=
  combine (seq 0 (length l)) l.

(** ** Constants of the script *)

Definition NUM_OF_CONCURRENT_SESSIONS : nat := 7.
(** The [limit=500] of [MESSARI_ASSETS_API_GET_ALL_V2]. *)
Definition MESSARI_PAGE_LIMIT : nat := 500.
Definition CSV_DEFAULT_FILENAME : string := "cryptocurrencies.csv".
Definition CSV_COLUMNS : list string :=
  ["ID"; "Symbol"; "Name"; "Slug"; "Price in USD"; "Rank"].
Definition CSV_INDEX_COLUMN : string := "ID".

(** ** The remote side *)

Record MarketData : Type := { price_usd : cell }.
Record Marketcap : Type := { rank : cell }.
Record Metrics : Type := { market_data : MarketData; marketcap : Marketcap }.

(** One element of a response's [data]; the key of
    [MESSARI_ASSETS_INDEX_ATTRIBUTE] is [id]. *)
Record Asset : Type := {
  id : string;
  symbol : cell;
  name : cell;
  slug : cell;
  metrics : Metrics
}.

(** The decoded JSON body of a response.  A key the body may lack is an
    [option]; reading a lacking key raises [KeyError]. *)
Record Status : Type := {
  error_code : option Z;
  error_message : option string
}.

Record Response : Type := {
  status : option Status;
  data : option (list Asset)
}.

(** The session answers the request for a page (the endpoint is the URL
    template filled with the page number) with a body, or the transport
    fails. *)
Definition Session : Type := nat -> result Response.

Definition get_one_page_asset_data_from_messari
    (session : Session) (page : nat) : result (list Asset) :=
  resp <- session page ;;
  match status resp with
  | None => Raise (KeyError "status")
  | Some st =>
      match error_code st with
      | Some code =>
          if Z.eqb code 404 then Ok []
          else match error_message st with
               | Some msg => Raise (Exception msg)
               | None => Raise (KeyError "error_message")
               end
      | None =>
          match data resp with
          | Some d => Ok d
          | None => Raise (KeyError "data")
          end
      end
  end.

(** [asyncio.gather] over the tasks of a batch.  [completions] lists the
    positions of the tasks
    in the order in which they complete.  The first exception to be raised in
    that order is propagated; when there is none the values are returned in
    the order of the tasks. *)
Fixpoint first_raised {A : Type} (tasks : list (result A))
    (completions : list nat) : option exn :=
  match completions with
  | [] => None
  | p :: rest =>
      match nth_error tasks p with
      | Some (Raise e) => Some e
      | _ => first_raised tasks rest
      end
  end.

Fixpoint collect {A : Type} (tasks : list (result A)) : result (list A) :=
  match tasks with
  | [] => Ok []
  | t :: rest => v <- t ;; vs <- collect rest ;; Ok (v :: vs)
  end.

Definition gather {A : Type} (tasks : list (result A))
    (completions : list nat) : result (list A) :=
  match first_raised tasks completions with
  | Some e => Raise e
  | None => collect tasks
  end.

(** What a run of the paginator leaves behind: the pages it requested, in the
    order the tasks were created, and how it ended; [None] when the loop is
    still running after the given number of batches. *)
Record Pagination : Type := {
  requested : list nat;
  outcome : option (result (list Asset))
}.

(** The [for i in itertools.count(start=1, step=step)] loop.  The loop has
    no bound of its own: [fuel] counts the batches the model follows.
    [sched i] is the completion order of the batch that starts at page [i]. *)
Fixpoint pagination_loop (fuel : nat) (session : Session)
    (sched : nat -> list nat) (i : nat) (all_asset_data : list Asset)
    (issued : list nat) : Pagination :=
  match fuel with
  | O => {| requested := issued; outcome := None |}
  | S fuel' =>
      let step := NUM_OF_CONCURRENT_SESSIONS in
      let pages := seq i step in
      let tasks := map (get_one_page_asset_data_from_messari session) pages in
      match gather tasks (sched i) with
      | Raise e =>
          {| requested := issued ++ pages; outcome := Some (Raise e) |}
      | Ok asset_data_gathered =>
          let all_asset_data :=
            fold_left (fun acc item => acc ++ item)
                      asset_data_gathered all_asset_data in
          if existsb (fun item => Nat.eqb (length item) 0) asset_data_gathered
          then {| requested := issued ++ pages;
                  outcome := Some (Ok all_asset_data) |}
          else pagination_loop fuel' session sched (i + step)
                               all_asset_data (issued ++ pages)
      end
  end.

Definition get_assets_from_messari (fuel : nat) (session : Session)
    (sched : nat -> list nat) : Pagination :=
  pagination_loop fuel session sched 1 [] [].

(** ** The pandas side *)

(** A frame: the row labels and the named columns, each column holding one
    cell per label. *)
Record DataFrame : Type := {
  df_index : list label;
  df_columns : list (string * list cell)
}.

(** [df.to_dict()]: column name -> (label -> cell). *)
Definition to_dict (df : DataFrame) : dict string (dict label cell) :=
  dict_of_items
    (map (fun c => (fst c, dict_of_items (combine (df_index df) (snd c))))
         (df_columns df)).

(** Labels in order of first appearance. *)
Fixpoint unique {K : Type} `{Key K} (l : list K) : list K :=
  match l with
  | [] => []
  | x :: rest => x :: filter (fun y => negb (key_eqb y x)) (unique rest)
  end.

Definition cell_of (o : option cell) : cell :=
  match o with
  | Some v => v
  | None => Null
  end.

(** The first step of [pd.DataFrame.from_dict(d)] for a dictionary of
    dictionaries: the index is the union of the inner keys in order of first
    appearance (the union pandas takes for dictionaries is unsorted), and a
    label a column does not have gets the missing value.  The values are
    still the Python objects of the dictionary. *)
Definition frame_of_dict (d : dict string (dict label cell)) : DataFrame :=
  let index := unique (concat (map (fun c => dict_keys (snd c)) d)) in
  {| df_index := index;
     df_columns :=
       map (fun c => (fst c, map (fun k => cell_of (dict_get k (snd c))) index))
           d |}.

(** [float(v)] for an integer; a float and the missing value are floats
    already. *)
Definition as_float (c : cell) : cell :=
  match c with
  | Int z => Flt z
  | _ => c
  end.

Definition is_str (c : cell) : bool :=
  match c with
  | Str _ => true
  | _ => false
  end.

Definition is_int (c : cell) : bool :=
  match c with
  | Int _ => true
  | _ => false
  end.

(** The dtype pandas infers for the values of a column is float64 when the
    values are numbers or missing, some of them integers and some of them
    not; integers only make an int64 column, and a string makes the column
    an object column, which keeps its values as they are.  Integers are
    taken to be in the range of int64, as positions and ranks are. *)
Definition infers_float64 (col : list cell) : bool :=
  negb (existsb is_str col)
  && existsb is_int col
  && existsb (fun c => negb (is_int c)) col.

(** The values of a column as the column stores them
    ([lib.maybe_convert_objects]): in a float64 column every integer is
    converted to a float. *)
Definition maybe_convert_objects (col : list cell) : list cell :=
  if infers_float64 col then map as_float col else col.

(** Every column under the dtype pandas infers for it. *)
Definition with_dtypes (df : DataFrame) : DataFrame :=
  {| df_index := df_index df;
     df_columns :=
       map (fun c => (fst c, maybe_convert_objects (snd c))) (df_columns df) |}.

(** A value and the cell a column stores for it: the value itself, or the
    float of it in a float64 column. *)
Definition stored_as (v stored : cell) : Prop :=
  stored = v \/ stored = as_float v.

(** [pd.DataFrame.from_dict(d)] *)
Definition from_dict (d : dict string (dict label cell)) : DataFrame :=
  with_dtypes (frame_of_dict d).

(** The cells that the merge leaves in the [Order] column: a position, as
    an integer or, in a float64 column, as a float, or the missing value for
    a label the fetched list does not have. *)
Definition is_order_cell (c : cell) : bool :=
  match c with
  | Null | Int _ | Flt _ => true
  | _ => false
  end.

(** The sort key of a cell of the [Order] column: the position it holds;
    the missing value has no key.  The float of a position has the key of
    the position: the conversion is exact below 2^53, and no list in memory
    has that many elements. *)
Definition order_key (c : cell) : option Z :=
  match c with
  | Int z | Flt z => Some z
  | _ => None
  end.

(** Ascending, missing values last ([na_position="last"]). *)
Definition key_le (a b : option Z) : bool :=
  match a, b with
  | _, None => true
  | None, Some _ => false
  | Some x, Some y => Z.leb x y
  end.

Section Sorting.
Variable A : Type.
Variable le : A -> A -> bool.

Fixpoint insert_sorted (x : A) (l : list A) : list A :=
  match l with
  | [] => [x]
  | y :: l' => if le x y then x :: l else y :: insert_sorted x l'
  end.

Definition stable_sort (l : list A) : list A :=
  fold_right insert_sorted [] l.
End Sorting.

(** The indexer of [sort_values]: the positions ordered by key, rows
    without key last and in the order they had.  Rows with the same key keep
    their order too; in a merged frame no two rows have the same key. *)
Definition nargsort (keys : list (option Z)) : list nat :=
  map snd
      (stable_sort (fun p q : option Z * nat => key_le (fst p) (fst q))
                   (combine keys (seq 0 (length keys)))).

Definition take {A : Type} (indexer : list nat) (l : list A) (d : A) : list A :=
  map (fun i => nth i l d) indexer.

(** [df.sort_values(by=[by])] *)
Definition sort_values (by_ : string) (df : DataFrame) : result DataFrame :=
  match dict_get by_ (df_columns df) with
  | None => Raise (KeyError by_)
  | Some vs =>
      let indexer := nargsort (map order_key vs) in
      Ok {| df_index := take indexer (df_index df) (LStr "");
            df_columns :=
              map (fun c => (fst c, take indexer (snd c) Null))
                  (df_columns df) |}
  end.

(** [df.drop(columns=[col])] *)
Definition drop_column (col : string) (df : DataFrame) : result DataFrame :=
  if existsb (String.eqb col) (map fst (df_columns df))
  then Ok {| df_index := df_index df;
             df_columns :=
               filter (fun c => negb (String.eqb (fst c) col))
                      (df_columns df) |}
  else Raise (KeyError col).

(** [crypto_dict[col][index] = v] *)
Definition setitem2 (col : string) (index : label) (v : cell)
    (crypto_dict : dict string (dict label cell))
    : result (dict string (dict label cell)) :=
  match dict_get col crypto_dict with
  | None => Raise (KeyError col)
  | Some inner => Ok (dict_set col (dict_set index v inner) crypto_dict)
  end.

(** The label under which the merge puts an asset: its identifier,
    [asset[MESSARI_ASSETS_INDEX_ATTRIBUTE]]. *)
Definition asset_label (asset : Asset) : label := LStr (id asset).

Definition update_crypto_dict_with_messari_asset
    (crypto_dict : dict string (dict label cell)) (order : nat)
    (asset : Asset) : result (dict string (dict label cell)) :=
  let index := asset_label asset in
  d <- setitem2 "Order" index (Int (Z.of_nat order)) crypto_dict ;;
  d <- setitem2 "Symbol" index (symbol asset) d ;;
  d <- setitem2 "Name" index (name asset) d ;;
  d <- setitem2 "Slug" index (slug asset) d ;;
  d <- setitem2 "Price in USD" index (price_usd (market_data (metrics asset))) d ;;
  setitem2 "Rank" index (rank (marketcap (metrics asset))) d.

Fixpoint update_all (items : list (nat * Asset))
    (crypto_dict : dict string (dict label cell))
    : result (dict string (dict label cell)) :=
  match items with
  | [] => Ok crypto_dict
  | (order, asset) :: rest =>
      d <- update_crypto_dict_with_messari_asset crypto_dict order asset ;;
      update_all rest d
  end.

Definition upsert_cryptocurrencies (crypto_df : DataFrame)
    (updated_assets : list Asset) : result DataFrame :=
  let crypto_dict := to_dict crypto_df in
  let crypto_dict := dict_set "Order" [] crypto_dict in
  d <- update_all (enumerate updated_assets) crypto_dict ;;
  Ok (from_dict d).

(** The function sorts and drops in place; here it returns the frame. *)
Definition sort_cryptocurrencies (crypto_df : DataFrame) : result DataFrame :=
  df <- sort_values "Order" crypto_df ;;
  drop_column "Order" df.

(** ** The record store and the script body *)

(** The store keeps, under a file name, the table whose rows [to_csv] has
    written into the file, with [CSV_INDEX_COLUMN] as the label of the
    index; a name without a file gives [None]. *)
Definition FileSystem : Type := string -> option DataFrame.

(** What the script does not decide about its file.  [reload written] is the
    table that [pd.read_csv] and [set_index] give for the text that [to_csv]
    has written for the table [written]: pandas infers the type of every
    column, and of the labels, from the text.  [fault = Some n] is a disk
    that fails when [n] rows are written. *)
Record Disk : Type := {
  reload : DataFrame -> DataFrame;
  fault : option nat
}.

Definition read_cryptocurrencies_from_csv (disk : Disk) (fs : FileSystem)
    (filename : string) : DataFrame :=
  match fs filename with
  | Some written => reload disk written
  | None =>
      {| df_index := [];
         df_columns :=
           map (fun c => (c, []))
               (filter (fun c => negb (String.eqb c CSV_INDEX_COLUMN))
                       CSV_COLUMNS) |}
  end.

(** The first [n] rows of a table. *)
Definition first_rows (n : nat) (df : DataFrame) : DataFrame :=
  {| df_index := firstn n (df_index df);
     df_columns := map (fun c => (fst c, firstn n (snd c))) (df_columns df) |}.

(** [to_csv] opens the file for writing, which empties it, and writes the
    header and then the rows one after the other.  On a disk that fails the
    rows written so far stay in the file and the call raises. *)
Definition save_cryptocurrencies_to_csv (disk : Disk) (fs : FileSystem)
    (crypto_df : DataFrame) (filename : string) : result unit * FileSystem :=
  match fault disk with
  | None =>
      (Ok tt,
       fun f => if String.eqb f filename then Some crypto_df else fs f)
  | Some n =>
      (Raise (OSError "No space left on device"),
       fun f => if String.eqb f filename then Some (first_rows n crypto_df)
                else fs f)
  end.

(** How the script ends and what the store holds then; [exit = None] while
    the paginator is still running. *)
Record Run : Type := {
  exit : option (result DataFrame);
  files : FileSystem
}.

(** The file name is the argument of the script when there is exactly one. *)
Definition csv_filename_of (argv : list string) : string :=
  match argv with
  | [_; arg] => arg
  | _ => CSV_DEFAULT_FILENAME
  end.

Definition main (argv : list string) (fuel : nat) (session : Session)
    (sched : nat -> list nat) (disk : Disk) (fs : FileSystem) : Run :=
  let csv_filename := csv_filename_of argv in
  match outcome (get_assets_from_messari fuel session sched) with
  | None => {| exit := None; files := fs |}
  | Some (Raise e) => {| exit := Some (Raise e); files := fs |}
  | Some (Ok assets) =>
      let df := read_cryptocurrencies_from_csv disk fs csv_filename in
      match upsert_cryptocurrencies df assets with
      | Raise e => {| exit := Some (Raise e); files := fs |}
      | Ok df =>
          match sort_cryptocurrencies df with
          | Raise e => {| exit := Some (Raise e); files := fs |}
          | Ok df =>
              match save_cryptocurrencies_to_csv disk fs df csv_filename with
              | (Raise e, fs') => {| exit := Some (Raise e); files := fs' |}
              | (Ok _, fs') => {| exit := Some (Ok df); files := fs' |}
              end
          end
      end
  end.

(** ** Reading a frame *)

Fixpoint index_of {K : Type} `{Key K} (k : K) (l : list K) : option nat :=
  match l with
  | [] => None
  | x :: rest =>
      if key_eqb k x then Some 0
      else match index_of k rest with
           | Some n => Some (S n)
           | None => None
           end
  end.

(** [df.loc[k, col]] *)
Definition loc (df : DataFrame) (k : label) (col : string) : option cell :=
  match index_of k (df_index df), dict_get col (df_columns df) with
  | Some p, Some vs => nth_error vs p
  | _, _ => None
  end.

(** The row [k] of a frame stores the value [v] in the column [col]. *)
Definition stores (df : DataFrame) (k : label) (col : string) (v : cell)
    : Prop :=
  exists stored, loc df k col = Some stored /\ stored_as v stored.

(** The last occurrence of a label in the enumerated fetched list. *)
Fixpoint last_occ (k : label) (items : list (nat * Asset))
    : option (nat * Asset) :=
  match items with
  | [] => None
  | oa :: rest =>
      match last_occ k rest with
      | Some r => Some r
      | None => if key_eqb k (asset_label (snd oa)) then Some oa else None
      end
  end.

(** A remote whose answer to a page may change from one attempt to the next.
    The script calls [session.get] once for each page, so the session it
    works with shows the first attempt only. *)
Definition Remote : Type := nat -> nat -> result Response.

Definition session_over (remote : Remote) : Session :=
  fun page => remote page 0.

(** The remote as it answers once the first attempt is behind. *)
Definition after_first_attempt (remote : Remote) : Remote :=
  fun page attempt => remote page (S attempt).

(** The pages of one batch and the test of the [break]. *)
Definition batch_pages (pg : nat -> list Asset) (b : nat) : list (list Asset) :=
  map pg (seq (1 + NUM_OF_CONCURRENT_SESSIONS * b) NUM_OF_CONCURRENT_SESSIONS).

Definition has_empty_page (items : list (list Asset)) : bool :=
  existsb (fun item => Nat.eqb (length item) 0) items.

(** ** The merge, column by column *)

(** The cell that [update_crypto_dict_with_messari_asset] writes into a
    column for the asset at position [order]; [None] for a column the
    function does not touch. *)
Definition field_of (col : string) (oa : nat * Asset) : option cell :=
  if String.eqb col "Order" then Some (Int (Z.of_nat (fst oa)))
  else if String.eqb col "Symbol" then Some (symbol (snd oa))
  else if String.eqb col "Name" then Some (name (snd oa))
  else if String.eqb col "Slug" then Some (slug (snd oa))
  else if String.eqb col "Price in USD"
       then Some (price_usd (market_data (metrics (snd oa))))
  else if String.eqb col "Rank" then Some (rank (marketcap (metrics (snd oa))))
  else None.

Definition upd_column (col : string) (oa : nat * Asset)
    (inner : dict label cell) : dict label cell :=
  match field_of col oa with
  | Some v => dict_set (asset_label (snd oa)) v inner
  | None => inner
  end.

Definition upd_columns (items : list (nat * Asset)) (col : string)
    (inner : dict label cell) : dict label cell :=
  fold_left (fun inner oa => upd_column col oa inner) items inner.

(** The dictionary of [upsert_cryptocurrencies] before its loop and after
    it, when the loop raises nothing. *)
Definition crypto_dict_before (crypto_df : DataFrame)
    : dict string (dict label cell) :=
  dict_set "Order" [] (to_dict crypto_df).

Definition crypto_dict_after (crypto_df : DataFrame)
    (updated_assets : list Asset) : dict string (dict label cell) :=
  map (fun cx =>
         (fst cx, upd_columns (enumerate updated_assets) (fst cx) (snd cx)))
      (crypto_dict_before crypto_df).

(** The columns the merge writes to. *)
Definition MERGE_COLUMNS : list string :=
  ["Order"; "Symbol"; "Name"; "Slug"; "Price in USD"; "Rank"].

Definition DATA_COLUMNS : list string :=
  ["Symbol"; "Name"; "Slug"; "Price in USD"; "Rank"].

Definition mem {K : Type} `{Key K} (k : K) (l : list K) : bool :=
  existsb (key_eqb k) l.

Fixpoint distinct {K : Type} `{Key K} (l : list K) : bool :=
  match l with
  | [] => true
  | x :: rest => negb (mem x rest) && distinct rest
  end.

(** The frame has the five data columns of the CSV file. *)
Definition has_data_columns (df : DataFrame) : bool :=
  forallb (fun c => mem c (map fst (df_columns df))) DATA_COLUMNS.

(** Labels are unique, column names are unique, and every column has one
    cell per label. *)
Definition well_formed (df : DataFrame) : bool :=
  distinct (df_index df)
  && distinct (map fst (df_columns df))
  && forallb (fun c => Nat.eqb (length (snd c)) (length (df_index df)))
             (df_columns df).

(** The transient rank of a label: the position of the last asset of the
    fetched list that has it; none for a label the list does not have. *)
Definition rank_of (updated_assets : list Asset) (k : label) : option Z :=
  option_map (fun oa => Z.of_nat (fst oa))
             (last_occ k (enumerate updated_assets)).

(** What the page fetcher returns for a page, the empty list when it
    raises. *)
Definition page_records (session : Session) (page : nat) : list Asset :=
  match get_one_page_asset_data_from_messari session page with
  | Ok records => records
  | Raise _ => []
  end.

(** The first data column, in the order in which
    [update_crypto_dict_with_messari_asset] writes them, that a frame does
    not have. *)
Definition first_missing_column (df : DataFrame) : option string :=
  find (fun c => negb (mem c (map fst (df_columns df)))) DATA_COLUMNS.

(** A label that the fetched list does not have. *)
Definition unfetched (updated_assets : list Asset) (k : label) : bool :=
  negb (mem k (map asset_label updated_assets)).

(** The table with one row for each asset of a list, in the order of the
    list. *)
Definition table_of (updated_assets : list Asset) : DataFrame :=
  {| df_index := map asset_label updated_assets;
     df_columns :=
       [("Symbol", map symbol updated_assets);
        ("Name", map name updated_assets);
        ("Slug", map slug updated_assets);
        ("Price in USD",
         map (fun a => price_usd (market_data (metrics a))) updated_assets);
        ("Rank",
         map (fun a => rank (marketcap (metrics a))) updated_assets)] |}.

(** ** Sample data *)

Definition mk_asset (k : string) (sym nm : string) (price : string) (rk : Z)
    : Asset :=
  {| id := k; symbol := Str sym; name := Str nm; slug := Str nm;
     metrics := {| market_data := {| price_usd := Real price |};
                   marketcap := {| rank := Int rk |} |} |}.

Definition btc : Asset := mk_asset "id-btc" "BTC" "bitcoin" "67000.5" 1.
Definition eth : Asset := mk_asset "id-eth" "ETH" "ethereum" "3500.25" 2.
Definition xrp : Asset := mk_asset "id-xrp" "XRP" "ripple" "0.52" 3.
(** A second record under the identifier of [btc]. *)
Definition btc_again : Asset := mk_asset "id-btc" "XBT" "bitcoin-core" "67100.0" 4.

Definition data_response (records : list Asset) : Response :=
  {| status := Some {| error_code := None; error_message := None |};
     data := Some records |}.

Definition error_response (code : Z) (msg : string) : Response :=
  {| status := Some {| error_code := Some code; error_message := Some msg |};
     data := None |}.

(** A remote collection served page by page; past its end the remote
    answers 404. *)
Definition serve (pages : list (list Asset)) : Session :=
  fun page =>
    match page with
    | O => Ok (error_response 400 "Bad Request")
    | S n =>
        match nth_error pages n with
        | Some records => Ok (data_response records)
        | None => Ok (error_response 404 "Not Found")
        end
    end.

Definition page_of (pages : list (list Asset)) (page : nat) : list Asset :=
  match page with
  | O => []
  | S n => nth n pages []
  end.

(** Two pages: a full one and a short one. *)
Definition two_pages : list (list Asset) :=
  [repeat btc MESSARI_PAGE_LIMIT; [eth]].

(** Completion orders: launch order, and the reverse of it. *)
Definition in_order : nat -> list nat :=
  fun _ => seq 0 NUM_OF_CONCURRENT_SESSIONS.
Definition reversed : nat -> list nat :=
  fun _ => rev (seq 0 NUM_OF_CONCURRENT_SESSIONS).

(** The store with no file, and a store that holds one table. *)
Definition no_files : FileSystem := fun _ => None.

Definition old_table : DataFrame :=
  {| df_index := [LStr "id-old"; LStr "id-btc"];
     df_columns :=
       [("Symbol", [Str "OLD"; Str "btc"]);
        ("Name", [Str "oldcoin"; Str "stale"]);
        ("Slug", [Str "oldcoin"; Str "stale"]);
        ("Price in USD", [Real "1.0"; Real "2.0"]);
        ("Rank", [Int 900; Int 7])] |}.

Definition one_file : FileSystem :=
  fun f => if String.eqb f CSV_DEFAULT_FILENAME then Some old_table else None.

(** A disk that takes every row and gives back the table it was given, and
    a disk that fails when one row is written. *)
Definition sound_disk : Disk := {| reload := fun df => df; fault := None |}.
Definition full_disk : Disk := {| reload := fun df => df; fault := Some 1 |}.








(** An asset that has no rank yet. *)
Definition unranked : Asset :=
  {| id := "id-new"; symbol := Str "NEW"; name := Str "newcoin";
     slug := Str "newcoin";
     metrics := {| market_data := {| price_usd := Real "0.01" |};
                   marketcap := {| rank := Null |} |} |}.

(** A merged frame as the sequencer receives it. *)
Definition unsorted_table : DataFrame :=
  {| df_index := [LStr "id-old"; LStr "id-btc"; LStr "id-eth"];
     df_columns :=
       [("Symbol", [Str "OLD"; Str "BTC"; Str "ETH"]);
        ("Order", [Null; Int 1; Int 0])] |}.

(** A session whose third page answers with an error other than 404. *)
Definition third_page_fails : Session :=
  fun page =>
    if Nat.eqb page 3 then Ok (error_response 500 "Internal Server Error")
    else serve (repeat [btc] 10) page.

(** A remote whose first page times out once and answers afterwards. *)
Definition flaky_remote : Remote :=
  fun page attempt =>
    match page, attempt with
    | 1, O => Raise (ClientError "timeout")
    | _, _ => serve [[btc; eth]] page
    end.

(** * Theorems *)

Unset Implicit Arguments.

(** ** Python values *)

Lemma bind_ok {A B : Type} (r : result A) (k : A -> result B) (b : B) :
  bind r k = Ok b -> exists a, r = Ok a /\ k a = Ok b.
Proof. destruct r as [a|e]; simpl; intros H; [eauto | discriminate]. Qed.

Lemma fold_left_app_concat {A : Type} (items : list (list A)) (acc : list A) :
  fold_left (fun acc item => acc ++ item) items acc = acc ++ concat items.
Proof.
  revert acc. induction items as [|x items IH]; intros acc; simpl.
  - now rewrite app_nil_r.
  - now rewrite IH, app_assoc.
Qed.

(** ** The page fetcher and [gather] *)

Lemma collect_map_ok {A : Type} (vs : list A) : collect (map Ok vs) = Ok vs.
Proof.
  induction vs as [|v vs IH]; simpl; [reflexivity|]. now rewrite IH.
Qed.

Lemma first_raised_map_ok {A : Type} (vs : list A) (completions : list nat) :
  first_raised (map Ok vs) completions = None.
Proof.
  induction completions as [|p rest IH]; simpl; [reflexivity|].
  rewrite nth_error_map. now destruct (nth_error vs p).
Qed.

Lemma gather_map_ok {A : Type} (vs : list A) (completions : list nat) :
  gather (map Ok vs) completions = Ok vs.
Proof.
  unfold gather. now rewrite first_raised_map_ok, collect_map_ok.
Qed.

Lemma first_raised_in {A : Type} (tasks : list (result A)) completions e :
  first_raised tasks completions = Some e -> In (Raise e) tasks.
Proof.
  induction completions as [|p rest IH]; simpl; [discriminate|].
  destruct (nth_error tasks p) as [[v|e']|] eqn:E; auto.
  intros [= <-]. eapply nth_error_In; eauto.
Qed.

Lemma collect_raises {A : Type} (tasks : list (result A)) e :
  In (Raise e) tasks -> exists e', collect tasks = Raise e' /\ In (Raise e') tasks.
Proof.
  induction tasks as [|t tasks IH]; simpl; [tauto|].
  intros [->|Hin].
  - exists e. simpl. auto.
  - destruct t as [v|e0]; simpl.
    + destruct (IH Hin) as (e' & -> & Hin'). simpl. eauto.
    + exists e0. auto.
Qed.

(** A batch with a failing task fails, with the exception of one of its
    failing tasks, whatever the completion order. *)
Lemma gather_raises {A : Type} (tasks : list (result A)) completions e :
  In (Raise e) tasks ->
  exists e', gather tasks completions = Raise e' /\ In (Raise e') tasks.
Proof.
  intros Hin. unfold gather.
  destruct (first_raised tasks completions) as [e'|] eqn:E.
  - exists e'. split; [reflexivity|]. eapply first_raised_in; eauto.
  - now apply collect_raises with (e := e).
Qed.

Section Paginator.
Variable session : Session.
Variable sched : nat -> list nat.
Variable pg : nat -> list Asset.

Let fetch := get_one_page_asset_data_from_messari session.
Let W := NUM_OF_CONCURRENT_SESSIONS.

Local Ltac width_lia := unfold W, NUM_OF_CONCURRENT_SESSIONS in *; lia.

Lemma batch_tasks_ok (i n : nat) :
  (forall p, i <= p < i + n -> fetch p = Ok (pg p)) ->
  map fetch (seq i n) = map Ok (map pg (seq i n)).
Proof.
  intros H. rewrite map_map. apply map_ext_in.
  intros p Hp. apply in_seq in Hp. now apply H.
Qed.

Lemma has_empty_page_false (i n : nat) :
  (forall p, i <= p < i + n -> pg p <> []) ->
  has_empty_page (map pg (seq i n)) = false.
Proof.
  intros H. unfold has_empty_page.
  destruct (existsb _ _) eqn:E; [|reflexivity].
  apply existsb_exists in E. destruct E as (item & Hin & Hlen).
  apply in_map_iff in Hin. destruct Hin as (p & <- & Hp).
  apply in_seq in Hp. apply Nat.eqb_eq in Hlen.
  apply length_zero_iff_nil in Hlen. now apply H in Hp.
Qed.

Lemma has_empty_page_true (i n e : nat) :
  i <= e < i + n -> pg e = [] -> has_empty_page (map pg (seq i n)) = true.
Proof.
  intros He Hnil. unfold has_empty_page. apply existsb_exists.
  exists (pg e). split.
  - apply in_map. apply in_seq. lia.
  - rewrite Hnil. reflexivity.
Qed.

Lemma concat_all_empty (i n : nat) :
  (forall p, i <= p < i + n -> pg p = []) -> concat (map pg (seq i n)) = [].
Proof.
  revert i. induction n as [|n IH]; intros i H; simpl; [reflexivity|].
  rewrite H by lia. simpl. apply IH. intros p Hp. apply H. lia.
Qed.

(** One turn of the loop when every page of the batch is answered. *)
Lemma pagination_loop_step (fuel i : nat) acc issued :
  (forall p, i <= p < i + W -> fetch p = Ok (pg p)) ->
  pagination_loop (S fuel) session sched i acc issued =
  if has_empty_page (map pg (seq i W))
  then {| requested := issued ++ seq i W;
          outcome := Some (Ok (acc ++ concat (map pg (seq i W)))) |}
  else pagination_loop fuel session sched (i + W)
         (acc ++ concat (map pg (seq i W))) (issued ++ seq i W).
Proof.
  intros H. cbn [pagination_loop]. fold W. fold fetch.
  rewrite (batch_tasks_ok i W H), gather_map_ok, fold_left_app_concat.
  reflexivity.
Qed.

(** The loop runs up to the batch that holds the first empty page [e],
    when every later page is empty as well. *)
Lemma pagination_loop_first_empty (e fuel i : nat) acc issued :
  (forall p, i <= p -> fetch p = Ok (pg p)) ->
  (forall p, i <= p < e -> pg p <> []) ->
  (forall p, e <= p -> pg p = []) ->
  i <= e -> e - i < W * fuel ->
  outcome (pagination_loop fuel session sched i acc issued) =
  Some (Ok (acc ++ concat (map pg (seq i (e - i))))).
Proof.
  revert i acc issued.
  induction fuel as [|fuel IH]; intros i acc issued Hok Hfull Hnil Hie Hfuel.
  - width_lia.
  - rewrite pagination_loop_step by (intros; apply Hok; lia).
    destruct (Nat.lt_ge_cases e (i + W)) as [Hin|Hout].
    + rewrite (has_empty_page_true i W e) by (auto; lia). cbn [outcome].
      replace (seq i W) with (seq i ((e - i) + (i + W - e))) by (f_equal; lia).
      rewrite seq_app, map_app, concat_app.
      rewrite (concat_all_empty (i + (e - i))) by (intros; apply Hnil; lia).
      now rewrite app_nil_r.
    + rewrite has_empty_page_false by (intros; apply Hfull; lia).
      rewrite IH.
      * rewrite <- app_assoc, <- concat_app, <- map_app, <- seq_app.
        replace (W + (e - (i + W))) with (e - i) by lia. reflexivity.
      * intros; apply Hok; lia.
      * intros; apply Hfull; lia.
      * exact Hnil.
      * exact Hout.
      * width_lia.
Qed.

(** The loop is still running as long as no batch held an empty page. *)
Lemma pagination_loop_running (fuel i : nat) acc issued :
  (forall p, i <= p -> fetch p = Ok (pg p)) ->
  (forall b, b < fuel -> has_empty_page (map pg (seq (i + W * b) W)) = false) ->
  pagination_loop fuel session sched i acc issued =
  {| requested := issued ++ seq i (W * fuel); outcome := None |}.
Proof.
  revert i acc issued.
  induction fuel as [|fuel IH]; intros i acc issued Hok Hfull.
  - cbn [pagination_loop]. rewrite Nat.mul_0_r. cbn [seq].
    now rewrite app_nil_r.
  - rewrite pagination_loop_step by (intros; apply Hok; lia).
    specialize (Hfull 0 (Nat.lt_0_succ _)) as H0.
    rewrite Nat.mul_0_r, Nat.add_0_r in H0. rewrite H0.
    rewrite IH.
    + rewrite <- app_assoc, <- seq_app.
      replace (W + W * fuel) with (W * S fuel) by lia. reflexivity.
    + intros; apply Hok; lia.
    + intros b Hb. specialize (Hfull (S b) ltac:(lia)).
      replace (i + W + W * b) with (i + W * S b) by lia. exact Hfull.
Qed.

(** The loop stops with the first batch that holds an empty page. *)
Lemma pagination_loop_stops (n fuel i : nat) acc issued :
  (forall p, i <= p -> fetch p = Ok (pg p)) ->
  (forall b, b < n -> has_empty_page (map pg (seq (i + W * b) W)) = false) ->
  has_empty_page (map pg (seq (i + W * n) W)) = true ->
  n < fuel ->
  pagination_loop fuel session sched i acc issued =
  {| requested := issued ++ seq i (W * S n);
     outcome := Some (Ok (acc ++ concat (map pg (seq i (W * S n))))) |}.
Proof.
  revert n i acc issued.
  induction fuel as [|fuel IH]; intros n i acc issued Hok Hfull Hemp Hfuel;
    [lia|].
  rewrite pagination_loop_step by (intros; apply Hok; lia).
  destruct n as [|n].
  - rewrite Nat.mul_0_r, Nat.add_0_r in Hemp. rewrite Hemp.
    now rewrite Nat.mul_1_r.
  - specialize (Hfull 0 (Nat.lt_0_succ _)) as H0.
    rewrite Nat.mul_0_r, Nat.add_0_r in H0. rewrite H0.
    rewrite (IH n).
    + rewrite <- !app_assoc, <- concat_app, <- map_app, <- !seq_app.
      replace (W + W * S n) with (W * S (S n)) by lia. reflexivity.
    + intros; apply Hok; lia.
    + intros b Hb. specialize (Hfull (S b) ltac:(lia)).
      replace (i + W + W * b) with (i + W * S b) by lia. exact Hfull.
    + replace (i + W + W * n) with (i + W * S n) by lia. exact Hemp.
    + lia.
Qed.
End Paginator.

(** ** The paginator: claims *)

(** C7. A response with error code 404 makes the page fetch return the empty
    list; a response with any other error code makes it raise an exception
    that carries the response's error message; a response without an error
    code makes it return the response's list of records. *)
Theorem fetch_interprets_response (session : Session) (page : nat)
    (resp : Response) (st : Status)
    (Hresp : session page = Ok resp) (Hstatus : status resp = Some st) :
  (error_code st = Some 404%Z ->
   get_one_page_asset_data_from_messari session page = Ok [])
  /\ (forall code msg,
        error_code st = Some code -> code <> 404%Z ->
        error_message st = Some msg ->
        get_one_page_asset_data_from_messari session page
        = Raise (Exception msg))
  /\ (forall records,
        error_code st = None -> data resp = Some records ->
        get_one_page_asset_data_from_messari session page = Ok records).
Proof.
  unfold get_one_page_asset_data_from_messari. rewrite Hresp. simpl.
  rewrite Hstatus. split; [|split].
  - intros ->. reflexivity.
  - intros code msg -> Hcode ->.
    destruct (Z.eqb_spec code 404); [contradiction|reflexivity].
  - intros records -> ->. reflexivity.
Qed.

Lemma fetch_interprets_response_witness :
  serve two_pages 3 = Ok (error_response 404 "Not Found")
  /\ get_one_page_asset_data_from_messari (serve two_pages) 3 = Ok [].
Proof.
  split; [reflexivity|].
  exact (proj1 (@fetch_interprets_response (serve two_pages) 3
                  (error_response 404 "Not Found")
                  {| error_code := Some 404%Z;
                     error_message := Some "Not Found" |}
                  eq_refl eq_refl) eq_refl).
Defined.

Lemma list_sum_nonempty {A : Type} (l : list (list A)) :
  list_sum (map (@length A)
              (filter (fun item => negb (Nat.eqb (length item) 0)) l))
  = list_sum (map (@length A) l).
Proof.
  induction l as [|x l IH]; simpl; [reflexivity|].
  destruct (Nat.eqb_spec (length x) 0) as [E|E]; simpl; rewrite IH; lia.
Qed.

(** C1. When every page before the last is full, the last page is shorter
    than a full page (perhaps empty) and nothing comes after it, the
    paginator returns, for every completion order of the requests in its
    batches, the records of pages 1, 2, ..., last in that order, and the
    length of the result is the sum of the sizes of the non-empty pages. *)
Theorem paginator_returns_pages_in_order
    (session : Session) (pg : nat -> list Asset) (last fuel : nat)
    (sched1 sched2 : nat -> list nat)
    (Hfull : forall p, 1 <= p < last ->
       get_one_page_asset_data_from_messari session p = Ok (pg p)
       /\ length (pg p) = MESSARI_PAGE_LIMIT)
    (Hlast : 1 <= last
       /\ get_one_page_asset_data_from_messari session last = Ok (pg last)
       /\ length (pg last) < MESSARI_PAGE_LIMIT)
    (Hbeyond : forall p, last < p ->
       get_one_page_asset_data_from_messari session p = Ok [])
    (Hfuel : last < NUM_OF_CONCURRENT_SESSIONS * fuel) :
  let all_pages := map pg (seq 1 last) in
  outcome (get_assets_from_messari fuel session sched1)
  = Some (Ok (concat all_pages))
  /\ outcome (get_assets_from_messari fuel session sched2)
     = outcome (get_assets_from_messari fuel session sched1)
  /\ length (concat all_pages)
     = list_sum (map (@length Asset)
                   (filter (fun item => negb (Nat.eqb (length item) 0))
                           all_pages)).
Proof.
  intros all_pages. destruct Hlast as (Hpos & Hlast & Hshort).
  set (pg' := fun p => if Nat.leb p last then pg p else []).
  set (e := if Nat.eqb (length (pg last)) 0 then last else S last).
  assert (Hok : forall p, 1 <= p ->
            get_one_page_asset_data_from_messari session p = Ok (pg' p)).
  { intros p Hp. unfold pg'. destruct (Nat.leb_spec p last) as [Hle|Hgt].
    - destruct (Nat.eq_dec p last) as [->|Hne]; [exact Hlast|].
      apply Hfull. lia.
    - now apply Hbeyond. }
  assert (Hne : forall p, 1 <= p < e -> pg' p <> []).
  { intros p Hp Hnil. unfold pg' in Hnil. unfold e in Hp.
    destruct (Nat.leb_spec p last) as [Hle|Hgt].
    - destruct (Nat.eq_dec p last) as [->|Hne].
      + rewrite Hnil in Hp. simpl in Hp. lia.
      + destruct (Hfull p) as [_ Hlen]; [lia|].
        rewrite Hnil in Hlen. discriminate Hlen.
    - destruct (Nat.eqb (length (pg last)) 0); lia. }
  assert (Hnil : forall p, e <= p -> pg' p = []).
  { intros p Hp. unfold pg'. unfold e in Hp.
    destruct (Nat.leb_spec p last) as [Hle|Hgt]; [|reflexivity].
    destruct (Nat.eqb_spec (length (pg last)) 0) as [E|E]; [|lia].
    assert (p = last) as -> by lia. now apply length_zero_iff_nil. }
  assert (Hrange : 1 <= e /\ e - 1 < NUM_OF_CONCURRENT_SESSIONS * fuel).
  { unfold e. destruct (Nat.eqb (length (pg last)) 0); lia. }
  assert (Hcat : concat (map pg' (seq 1 (e - 1))) = concat all_pages).
  { unfold all_pages, e.
    destruct (Nat.eqb_spec (length (pg last)) 0) as [E|E].
    - replace (seq 1 last) with (seq 1 ((last - 1) + 1)) by (f_equal; lia).
      rewrite seq_app, map_app, concat_app. simpl.
      replace (S (last - 1)) with last by lia.
      apply length_zero_iff_nil in E. rewrite E, app_nil_r. f_equal.
      apply map_ext_in. intros p Hp. apply in_seq in Hp. unfold pg'.
      destruct (Nat.leb_spec p last); [reflexivity|lia].
    - replace (S last - 1) with last by lia. f_equal.
      apply map_ext_in. intros p Hp. apply in_seq in Hp. unfold pg'.
      destruct (Nat.leb_spec p last); [reflexivity|lia]. }
  assert (Hrun : forall sched,
            outcome (get_assets_from_messari fuel session sched)
            = Some (Ok (concat all_pages))).
  { intros sched. unfold get_assets_from_messari.
    rewrite (@pagination_loop_first_empty session sched pg' e); try tauto.
    simpl. now rewrite Hcat. }
  split; [apply Hrun|]. split; [now rewrite !Hrun|].
  now rewrite length_concat, list_sum_nonempty.
Qed.

Lemma paginator_returns_pages_in_order_witness :
  outcome (get_assets_from_messari 1 (serve two_pages) in_order)
  = Some (Ok (repeat btc MESSARI_PAGE_LIMIT ++ [eth]))
  /\ outcome (get_assets_from_messari 1 (serve two_pages) reversed)
     = outcome (get_assets_from_messari 1 (serve two_pages) in_order).
Proof.
  assert (H := @paginator_returns_pages_in_order
                 (serve two_pages) (page_of two_pages) 2 1 in_order reversed).
  cbv zeta in H.
  assert (Hfull : forall p, 1 <= p < 2 ->
            get_one_page_asset_data_from_messari (serve two_pages) p
            = Ok (page_of two_pages p)
            /\ length (page_of two_pages p) = MESSARI_PAGE_LIMIT).
  { intros p Hp. assert (p = 1) as -> by lia. split; reflexivity. }
  assert (Hlast : 1 <= 2
            /\ get_one_page_asset_data_from_messari (serve two_pages) 2
               = Ok (page_of two_pages 2)
            /\ length (page_of two_pages 2) < MESSARI_PAGE_LIMIT).
  { split; [lia|]. split; [reflexivity|]. unfold MESSARI_PAGE_LIMIT. simpl. lia. }
  assert (Hbeyond : forall p, 2 < p ->
            get_one_page_asset_data_from_messari (serve two_pages) p = Ok []).
  { intros p Hp. destruct p as [|[|[|p]]]; try lia.
    unfold get_one_page_asset_data_from_messari, serve, two_pages. simpl.
    destruct p; reflexivity. }
  assert (Hfuel : 2 < NUM_OF_CONCURRENT_SESSIONS * 1).
  { unfold NUM_OF_CONCURRENT_SESSIONS. lia. }
  destruct (H Hfull Hlast Hbeyond Hfuel) as (H1 & H2 & _).
  split; [|exact H2].
  rewrite H1. reflexivity.
Defined.

(** C2. With every request answered, the loop stops exactly after the first
    batch of seven pages that holds an empty page: all seven pages of that
    batch have been requested and no page after them, and the records of the
    whole batch are in the result.  As long as no batch held an empty page
    the loop is still running, however many batches that is. *)
Theorem pagination_stops_on_first_empty_batch
    (session : Session) (pg : nat -> list Asset) (sched : nat -> list nat)
    (Hok : forall p, 1 <= p ->
       get_one_page_asset_data_from_messari session p = Ok (pg p)) :
  (forall n fuel,
     (forall b, b < n -> has_empty_page (batch_pages pg b) = false) ->
     has_empty_page (batch_pages pg n) = true ->
     n < fuel ->
     get_assets_from_messari fuel session sched
     = {| requested := seq 1 (NUM_OF_CONCURRENT_SESSIONS * S n);
          outcome :=
            Some (Ok (concat (map pg (seq 1 (NUM_OF_CONCURRENT_SESSIONS * S n))))) |})
  /\ (forall fuel,
        (forall b, b < fuel -> has_empty_page (batch_pages pg b) = false) ->
        get_assets_from_messari fuel session sched
        = {| requested := seq 1 (NUM_OF_CONCURRENT_SESSIONS * fuel);
             outcome := None |}).
Proof.
  split.
  - intros n fuel Hfull Hemp Hfuel. unfold get_assets_from_messari.
    now rewrite (@pagination_loop_stops session sched pg n).
  - intros fuel Hfull. unfold get_assets_from_messari.
    now rewrite (@pagination_loop_running session sched pg).
Qed.

Lemma pagination_stops_on_first_empty_batch_witness :
  get_assets_from_messari 3 (serve two_pages) reversed
  = {| requested := [1; 2; 3; 4; 5; 6; 7];
       outcome := Some (Ok (repeat btc MESSARI_PAGE_LIMIT ++ [eth])) |}.
Proof.
  assert (Hok : forall p, 1 <= p ->
            get_one_page_asset_data_from_messari (serve two_pages) p
            = Ok (page_of two_pages p)).
  { intros p Hp. destruct p as [|[|[|p]]]; try lia; try reflexivity.
    unfold get_one_page_asset_data_from_messari, serve, two_pages. simpl.
    destruct p; reflexivity. }
  destruct (@pagination_stops_on_first_empty_batch
              (serve two_pages) (page_of two_pages) reversed Hok) as [H _].
  rewrite (H 0 3).
  - reflexivity.
  - intros b Hb. lia.
  - reflexivity.
  - lia.
Defined.

(** A failing page in a batch that is launched makes the paginator fail. *)
Lemma pagination_loop_fails (session : Session) (sched : nat -> list nat)
    (pg : nat -> list Asset) (p : nat) (e : exn) (n fuel i : nat) acc issued :
  (forall q, i <= q < i + NUM_OF_CONCURRENT_SESSIONS * n ->
     get_one_page_asset_data_from_messari session q = Ok (pg q) /\ pg q <> []) ->
  i + NUM_OF_CONCURRENT_SESSIONS * n <= p
    < i + NUM_OF_CONCURRENT_SESSIONS * S n ->
  get_one_page_asset_data_from_messari session p = Raise e ->
  n < fuel ->
  exists e' q,
    outcome (pagination_loop fuel session sched i acc issued) = Some (Raise e')
    /\ get_one_page_asset_data_from_messari session q = Raise e'.
Proof.
  revert fuel i acc issued.
  induction n as [|n IH]; intros fuel i acc issued Hprev Hp Hfail Hfuel;
    (destruct fuel as [|fuel]; [lia|]).
  - cbn [pagination_loop].
    destruct (@gather_raises _
                (map (get_one_page_asset_data_from_messari session)
                     (seq i NUM_OF_CONCURRENT_SESSIONS)) (sched i) e)
      as (e' & -> & Hin).
    + rewrite <- Hfail. apply in_map, in_seq.
      unfold NUM_OF_CONCURRENT_SESSIONS in *. lia.
    + apply in_map_iff in Hin. destruct Hin as (q & Hq & _).
      exists e', q. split; [reflexivity|exact Hq].
  - rewrite (@pagination_loop_step session sched pg).
    + rewrite has_empty_page_false.
      * apply IH; auto; unfold NUM_OF_CONCURRENT_SESSIONS in *; try lia.
        intros q Hq. apply Hprev. lia.
      * intros q Hq. apply Hprev. unfold NUM_OF_CONCURRENT_SESSIONS in *. lia.
    + intros q Hq. apply Hprev. unfold NUM_OF_CONCURRENT_SESSIONS in *. lia.
Qed.

(** A run that returns has fetched, merged, sorted and saved, on a disk
    that took every row. *)
Lemma main_returns (argv : list string) (fuel : nat) (session : Session)
    (sched : nat -> list nat) (disk : Disk) (fs : FileSystem) (df : DataFrame) :
  exit (main argv fuel session sched disk fs) = Some (Ok df) ->
  exists assets merged,
    outcome (get_assets_from_messari fuel session sched) = Some (Ok assets)
    /\ upsert_cryptocurrencies
         (read_cryptocurrencies_from_csv disk fs (csv_filename_of argv)) assets
       = Ok merged
    /\ sort_cryptocurrencies merged = Ok df
    /\ fault disk = None
    /\ files (main argv fuel session sched disk fs)
       = (fun f => if String.eqb f (csv_filename_of argv) then Some df
                   else fs f).
Proof.
  unfold main.
  destruct (outcome (get_assets_from_messari fuel session sched))
    as [[assets|e]|] eqn:Hout; cbn [exit files]; try discriminate.
  destruct (upsert_cryptocurrencies _ assets) as [merged|e] eqn:Hup;
    cbn [exit files]; try discriminate.
  destruct (sort_cryptocurrencies merged) as [df'|e] eqn:Hsort;
    cbn [exit files]; try discriminate.
  unfold save_cryptocurrencies_to_csv.
  destruct (fault disk) as [n|]; cbn [exit files]; try discriminate.
  intros [= <-]. exists assets, merged. repeat split; eauto.
Qed.

(** The store after a run is the store before it, or the store before it
    with rows of the sorted full merge written under the file name; the run
    returns when the disk took every row. *)
Lemma main_all_or_nothing (argv : list string) (fuel : nat) (session : Session)
    (sched : nat -> list nat) (disk : Disk) (fs : FileSystem) :
  files (main argv fuel session sched disk fs) = fs
  \/ exists assets merged df,
       outcome (get_assets_from_messari fuel session sched) = Some (Ok assets)
       /\ upsert_cryptocurrencies
            (read_cryptocurrencies_from_csv disk fs (csv_filename_of argv))
            assets
          = Ok merged
       /\ sort_cryptocurrencies merged = Ok df
       /\ files (main argv fuel session sched disk fs)
          = snd (save_cryptocurrencies_to_csv disk fs df (csv_filename_of argv))
       /\ (exit (main argv fuel session sched disk fs) = Some (Ok df)
           <-> fault disk = None).
Proof.
  unfold main.
  destruct (outcome (get_assets_from_messari fuel session sched))
    as [[assets|e]|] eqn:Hout; cbn [exit files]; try (left; reflexivity).
  destruct (upsert_cryptocurrencies _ assets) as [merged|e] eqn:Hup;
    cbn [exit files]; try (left; reflexivity).
  destruct (sort_cryptocurrencies merged) as [df|e] eqn:Hsort;
    cbn [exit files]; try (left; reflexivity).
  right. exists assets, merged, df.
  unfold save_cryptocurrencies_to_csv.
  destruct (fault disk) as [n|]; cbn [exit files snd];
    repeat split; eauto; discriminate.
Qed.

(** C6 (amended).  When a page fetch fails in a batch the paginator
    launches, the run ends with an exception and the store is what it was
    before the run.  Whatever the run, the store is written by the save at
    the end only, once the pagination, the merge and the sort have returned:
    the store afterwards is the store before the run, or that store with
    rows of the sorted full merge written under the file name, all of them
    when the run returns and the first of them when the disk fails. *)
Theorem failed_fetch_keeps_store
    (argv : list string) (fuel : nat) (session : Session)
    (sched : nat -> list nat) (disk : Disk) (fs : FileSystem)
    (pg : nat -> list Asset) (n p : nat) (e : exn)
    (Hprev : forall q, 1 <= q < 1 + NUM_OF_CONCURRENT_SESSIONS * n ->
       get_one_page_asset_data_from_messari session q = Ok (pg q)
       /\ pg q <> [])
    (Hp : 1 + NUM_OF_CONCURRENT_SESSIONS * n <= p
          < 1 + NUM_OF_CONCURRENT_SESSIONS * S n)
    (Hfail : get_one_page_asset_data_from_messari session p = Raise e)
    (Hfuel : n < fuel) :
  (exists e', exit (main argv fuel session sched disk fs) = Some (Raise e'))
  /\ files (main argv fuel session sched disk fs) = fs
  /\ (forall argv' fuel' session' sched' disk' fs',
        files (main argv' fuel' session' sched' disk' fs') = fs'
        \/ exists assets merged df,
             outcome (get_assets_from_messari fuel' session' sched')
             = Some (Ok assets)
             /\ upsert_cryptocurrencies
                  (read_cryptocurrencies_from_csv disk' fs'
                     (csv_filename_of argv'))
                  assets
                = Ok merged
             /\ sort_cryptocurrencies merged = Ok df
             /\ files (main argv' fuel' session' sched' disk' fs')
                = snd (save_cryptocurrencies_to_csv disk' fs' df
                         (csv_filename_of argv'))
             /\ (exit (main argv' fuel' session' sched' disk' fs')
                 = Some (Ok df)
                 <-> fault disk' = None)).
Proof.
  destruct (@pagination_loop_fails session sched pg p e n fuel 1 [] []
              Hprev Hp Hfail Hfuel) as (e' & q & Hout & _).
  fold (get_assets_from_messari fuel session sched) in Hout.
  split; [|split].
  - exists e'. unfold main. now rewrite Hout.
  - unfold main. now rewrite Hout.
  - intros argv' fuel' session' sched' disk' fs'.
    apply main_all_or_nothing.
Qed.

Lemma failed_fetch_keeps_store_witness :
  (exists e', exit (main [] 2 third_page_fails reversed sound_disk one_file)
              = Some (Raise e'))
  /\ files (main [] 2 third_page_fails reversed sound_disk one_file) = one_file.
Proof.
  assert (Hprev : forall q, 1 <= q < 1 + NUM_OF_CONCURRENT_SESSIONS * 0 ->
            get_one_page_asset_data_from_messari third_page_fails q
            = Ok ([] : list Asset) /\ ([] : list Asset) <> []).
  { intros q Hq. simpl in Hq. lia. }
  assert (Hp : 1 + NUM_OF_CONCURRENT_SESSIONS * 0 <= 3
               < 1 + NUM_OF_CONCURRENT_SESSIONS * 1).
  { simpl. lia. }
  destruct (@failed_fetch_keeps_store [] 2 third_page_fails reversed
              sound_disk one_file
              (fun _ => []) 0 3 (Exception "Internal Server Error")
              Hprev Hp eq_refl ltac:(lia)) as (H1 & H2 & _).
  split; assumption.
Defined.

(** C6 (the claim as stated, at a failing input).  Every page is fetched and
    the disk fails when one row is written: the run ends with an exception,
    and the file, which held the two rows of [old_table], holds the first
    row of the three of the merge.  The run has neither fully succeeded nor
    fully failed. *)
Lemma failed_fetch_keeps_store_counterexample :
  exit (main [] 1 (serve [[btc; eth]]) in_order full_disk one_file)
  = Some (Raise (OSError "No space left on device"))
  /\ one_file CSV_DEFAULT_FILENAME = Some old_table
  /\ (exists merged final,
        upsert_cryptocurrencies old_table [btc; eth] = Ok merged
        /\ sort_cryptocurrencies merged = Ok final
        /\ length (df_index final) = 3
        /\ files (main [] 1 (serve [[btc; eth]]) in_order full_disk one_file)
             CSV_DEFAULT_FILENAME
           = Some (first_rows 1 final)
        /\ first_rows 1 final <> final
        /\ first_rows 1 final <> old_table)
  /\ ~ (files (main [] 1 (serve [[btc; eth]]) in_order full_disk one_file)
        = one_file
        \/ exists df,
             exit (main [] 1 (serve [[btc; eth]]) in_order full_disk one_file)
             = Some (Ok df)).
Proof.
  split; [vm_compute; reflexivity|].
  split; [reflexivity|].
  split.
  - eexists. eexists.
    split; [vm_compute; reflexivity|].
    split; [vm_compute; reflexivity|].
    split; [reflexivity|].
    split; [vm_compute; reflexivity|].
    split; vm_compute; discriminate.
  - intros [H|[df H]].
    + apply (f_equal (fun fs => fs CSV_DEFAULT_FILENAME)) in H.
      vm_compute in H. discriminate.
    + vm_compute in H. discriminate.
Qed.

(** C8 (the code at a failing input).  The first page times out on the first
    attempt and would answer on the next one.  The paginator asks once: it
    ends with the time-out, while against the same remote with the first
    attempt behind it returns the records. *)
Theorem transient_failure_is_not_retried :
  flaky_remote 1 0 = Raise (ClientError "timeout")
  /\ flaky_remote 1 1 = Ok (data_response [btc; eth])
  /\ (forall fuel sched,
        outcome (get_assets_from_messari (S fuel)
                   (session_over flaky_remote) sched)
        = Some (Raise (ClientError "timeout")))
  /\ outcome (get_assets_from_messari 1
                (session_over (after_first_attempt flaky_remote)) in_order)
     = Some (Ok [btc; eth]).
Proof.
  split; [reflexivity|]. split; [reflexivity|]. split; [|reflexivity].
  intros fuel sched. unfold get_assets_from_messari. cbn [pagination_loop].
  set (tasks := map _ _).
  destruct (@gather_raises _ tasks (sched 1) (ClientError "timeout"))
    as (e' & -> & Hin).
  - left. reflexivity.
  - cbn [outcome]. do 2 f_equal.
    subst tasks. simpl in Hin.
    repeat (destruct Hin as [Hin|Hin];
            [vm_compute in Hin; congruence|]). contradiction.
Qed.

(** ** Dictionaries *)

#[export] Instance string_key_spec : KeySpec string := String.eqb_spec.

Lemma label_eqb_spec (a b : label) : reflect (a = b) (label_eqb a b).
Proof.
  destruct a as [s|x], b as [t|y]; simpl; try (constructor; discriminate).
  - destruct (String.eqb_spec s t) as [->|Hne]; constructor; congruence.
  - destruct (Z.eqb_spec x y) as [->|Hne]; constructor; congruence.
Qed.

#[export] Instance label_key_spec : KeySpec label := label_eqb_spec.

Lemma key_eqb_refl {K : Type} {key : Key K} {key_spec : KeySpec K} (k : K) :
  key_eqb k k = true.
Proof. now destruct (key_eqb_spec k k). Qed.

Lemma key_eqb_eq {K : Type} {key : Key K} {key_spec : KeySpec K} (a b : K) :
  key_eqb a b = true <-> a = b.
Proof. destruct (key_eqb_spec a b); split; congruence. Qed.

Lemma key_eqb_neq {K : Type} {key : Key K} {key_spec : KeySpec K} (a b : K) :
  key_eqb a b = false <-> a <> b.
Proof. destruct (key_eqb_spec a b); split; congruence. Qed.

Lemma key_dec {K : Type} {key : Key K} {key_spec : KeySpec K} (a b : K) :
  {a = b} + {a <> b}.
Proof. destruct (key_eqb_spec a b); [now left|now right]. Defined.

(** Goals about string keys and labels, written with [key_eqb]. *)
Ltac keys :=
  change String.eqb with (@key_eqb string string_key) in *;
  change label_eqb with (@key_eqb label label_key) in *.

Section Dict.
Context {K : Type} {key : Key K} {key_spec : KeySpec K}.
Variable V : Type.
Implicit Types (d : dict K V) (k : K) (v : V).

Lemma dict_get_set k' k v d :
  dict_get k' (dict_set k v d)
  = if key_eqb k' k then Some v else dict_get k' d.
Proof.
  induction d as [|[k0 v0] d IH]; simpl.
  - reflexivity.
  - destruct (key_eqb_spec k k0) as [->|Hne]; simpl.
    + destruct (key_eqb_spec k' k0); reflexivity.
    + destruct (key_eqb_spec k' k0) as [->|Hne'].
      * destruct (key_eqb_spec k0 k); [congruence|reflexivity].
      * exact IH.
Qed.

Lemma dict_get_in k d : dict_get k d <> None <-> In k (dict_keys d).
Proof.
  induction d as [|[k0 v0] d IH]; simpl; [tauto|].
  destruct (key_eqb_spec k k0) as [->|Hne].
  - split; [auto|discriminate].
  - rewrite IH. split; [auto|]. intros [E|H]; [congruence|exact H].
Qed.

Lemma dict_get_none k d : dict_get k d = None <-> ~ In k (dict_keys d).
Proof.
  rewrite <- dict_get_in. destruct (dict_get k d); split; intros H;
    try congruence; try tauto. exfalso. apply H. discriminate.
Qed.

Lemma dict_get_some_in k v d : dict_get k d = Some v -> In k (dict_keys d).
Proof. intros H. apply dict_get_in. congruence. Qed.

Lemma dict_set_in k v d :
  In k (dict_keys d) -> dict_keys (dict_set k v d) = dict_keys d.
Proof.
  induction d as [|[k0 v0] d IH]; simpl; [tauto|].
  destruct (key_eqb_spec k k0) as [->|Hne]; simpl; [reflexivity|].
  intros [E|H]; [congruence|]. now rewrite IH.
Qed.

Lemma dict_set_notin k v d :
  ~ In k (dict_keys d) -> dict_set k v d = d ++ [(k, v)].
Proof.
  induction d as [|[k0 v0] d IH]; simpl; [reflexivity|].
  intros H. destruct (key_eqb_spec k k0) as [->|Hne]; [tauto|].
  rewrite IH; tauto.
Qed.

Lemma dict_set_keys_in k' k v d :
  In k' (dict_keys (dict_set k v d)) <-> k' = k \/ In k' (dict_keys d).
Proof.
  rewrite <- !dict_get_in, dict_get_set.
  destruct (key_eqb_spec k' k) as [->|Hne].
  - split; [auto|discriminate].
  - split; [auto|]. intros [E|H]; [congruence|exact H].
Qed.

Lemma dict_set_nodup k v d :
  NoDup (dict_keys d) -> NoDup (dict_keys (dict_set k v d)).
Proof.
  intros H. destruct (in_dec key_dec k (dict_keys d)) as [Hin|Hout].
  - now rewrite dict_set_in.
  - rewrite dict_set_notin by assumption. unfold dict_keys.
    rewrite map_app. simpl. apply NoDup_app; auto.
    + repeat constructor. simpl. tauto.
    + intros x Hx [<-|[]]. contradiction.
Qed.

(** Two dictionaries with the same keys in the same order and the same
    values are the same dictionary. *)
Lemma dict_ext d1 d2 :
  NoDup (dict_keys d1) -> dict_keys d1 = dict_keys d2 ->
  (forall k, In k (dict_keys d1) -> dict_get k d1 = dict_get k d2) ->
  d1 = d2.
Proof.
  revert d2. induction d1 as [|[k1 v1] d1 IH]; intros [|[k2 v2] d2];
    simpl; try discriminate; [reflexivity|].
  intros Hnd [= <- Hkeys] Hget. inversion Hnd as [|? ? Hout Hnd']; subst.
  assert (v1 = v2) as <-.
  { specialize (Hget k1 (or_introl eq_refl)). simpl in Hget.
    rewrite key_eqb_refl in Hget. congruence. }
  f_equal. apply IH; auto.
  intros k Hk. specialize (Hget k (or_intror Hk)). simpl in Hget.
  destruct (key_eqb_spec k k1) as [E|Hne]; [|exact Hget].
  subst k. contradiction.
Qed.

Lemma dict_of_items_acc (items acc : list (K * V)) :
  NoDup (map fst (acc ++ items)) ->
  fold_left (fun d kv => dict_set (fst kv) (snd kv) d) items acc
  = acc ++ items.
Proof.
  revert acc. induction items as [|[k v] items IH]; intros acc Hnd; simpl.
  - now rewrite app_nil_r.
  - rewrite dict_set_notin.
    + rewrite IH; rewrite <- app_assoc; [reflexivity|exact Hnd].
    + rewrite map_app in Hnd. simpl in Hnd.
      apply NoDup_remove_2 in Hnd. intros Hin. apply Hnd.
      apply in_or_app. now left.
Qed.

(** [dict] of items with distinct keys keeps the items as they are. *)
Lemma dict_of_items_nodup (items : list (K * V)) :
  NoDup (map fst items) -> dict_of_items items = items.
Proof. intros H. unfold dict_of_items. now rewrite dict_of_items_acc. Qed.

Lemma dict_of_items_keys_nodup_acc (items acc : list (K * V)) :
  NoDup (dict_keys acc) ->
  NoDup (dict_keys
           (fold_left (fun d kv => dict_set (fst kv) (snd kv) d) items acc)).
Proof.
  revert acc. induction items as [|[k v] items IH]; intros acc Hnd; simpl.
  - exact Hnd.
  - apply IH. now apply dict_set_nodup.
Qed.

Lemma dict_of_items_keys_nodup (items : list (K * V)) :
  NoDup (dict_keys (dict_of_items items)).
Proof. apply dict_of_items_keys_nodup_acc. constructor. Qed.

Lemma dict_of_items_keys_in_acc (items acc : list (K * V)) k :
  In k (dict_keys
          (fold_left (fun d kv => dict_set (fst kv) (snd kv) d) items acc))
  <-> In k (dict_keys acc) \/ In k (map fst items).
Proof.
  revert acc. induction items as [|[k0 v0] items IH]; intros acc; simpl.
  - tauto.
  - rewrite IH, dict_set_keys_in. intuition congruence.
Qed.

Lemma dict_of_items_keys_in (items : list (K * V)) k :
  In k (dict_keys (dict_of_items items)) <-> In k (map fst items).
Proof.
  unfold dict_of_items. rewrite dict_of_items_keys_in_acc. simpl. tauto.
Qed.
End Dict.

Lemma dict_get_map {V U : Type} (h : string -> V -> U) (c : string)
    (d : dict string V) :
  dict_get c (map (fun cx => (fst cx, h (fst cx) (snd cx))) d)
  = option_map (h c) (dict_get c d).
Proof.
  induction d as [|[c0 x0] d IH]; simpl; [reflexivity|].
  destruct (key_eqb_spec c c0) as [->|Hne]; [reflexivity|exact IH].
Qed.

Lemma dict_keys_map {V U : Type} (h : string -> V -> U) (d : dict string V) :
  dict_keys (map (fun cx => (fst cx, h (fst cx) (snd cx))) d) = dict_keys d.
Proof. unfold dict_keys. rewrite map_map. reflexivity. Qed.

Lemma dict_keys_map_snd {V U : Type} (g : string * V -> U) (d : dict string V) :
  dict_keys (map (fun cx => (fst cx, g cx)) d) = dict_keys d.
Proof. unfold dict_keys. rewrite map_map. reflexivity. Qed.

Lemma mem_In {K : Type} {key : Key K} {key_spec : KeySpec K}
    (k : K) (l : list K) : mem k l = true <-> In k l.
Proof.
  unfold mem. rewrite existsb_exists. split.
  - intros (x & Hin & E). apply key_eqb_eq in E. now subst.
  - intros H. exists k. split; [exact H|apply key_eqb_refl].
Qed.

Lemma distinct_NoDup {K : Type} {key : Key K} {key_spec : KeySpec K}
    (l : list K) : distinct l = true <-> NoDup l.
Proof.
  induction l as [|x l IH]; simpl.
  - split; [constructor|reflexivity].
  - rewrite andb_true_iff, negb_true_iff, IH. split.
    + intros [Hx Hl]. constructor; [|exact Hl].
      rewrite <- mem_In. congruence.
    + intros H. inversion H as [|? ? Hx Hl]; subst. split; [|exact Hl].
      destruct (mem x l) eqn:E; [|reflexivity]. apply mem_In in E. tauto.
Qed.

(** ** The merge as a map over the columns *)

Lemma setitem2_map (col : string) (index : label) (v : cell)
    (d : dict string (dict label cell)) :
  NoDup (dict_keys d) -> In col (dict_keys d) ->
  setitem2 col index v d
  = Ok (map (fun cx => (fst cx,
                        if String.eqb (fst cx) col
                        then dict_set index v (snd cx) else snd cx)) d).
Proof.
  intros Hnd Hin. unfold setitem2.
  destruct (dict_get col d) as [inner|] eqn:Hget;
    [|apply dict_get_none in Hget; contradiction].
  f_equal. clear Hin. revert Hnd Hget.
  induction d as [|[c0 x0] d IH]; simpl; [discriminate|].
  intros Hnd Hget. inversion Hnd as [|? ? Hout Hnd']; subst. keys.
  destruct (key_eqb_spec col c0) as [->|Hne].
  - injection Hget as ->. rewrite key_eqb_refl. f_equal.
    rewrite <- (map_id d) at 1. apply map_ext_in.
    intros [c x] Hcx. simpl.
    destruct (key_eqb_spec c c0) as [->|]; [|reflexivity].
    exfalso. apply Hout. apply (in_map fst) in Hcx. exact Hcx.
  - destruct (key_eqb_spec c0 col); [congruence|].
    f_equal. now apply IH.
Qed.

Lemma update_one_map (d : dict string (dict label cell)) (order : nat)
    (asset : Asset) :
  NoDup (dict_keys d) -> incl MERGE_COLUMNS (dict_keys d) ->
  update_crypto_dict_with_messari_asset d order asset
  = Ok (map (fun cx => (fst cx, upd_column (fst cx) (order, asset) (snd cx))) d).
Proof.
  intros Hnd Hcols. unfold update_crypto_dict_with_messari_asset.
  assert (Hin : forall c, In c MERGE_COLUMNS -> In c (dict_keys d))
    by exact Hcols.
  repeat (rewrite setitem2_map;
          [cbn [bind]
          |rewrite ?dict_keys_map_snd; assumption
          |rewrite ?dict_keys_map_snd; apply Hin; simpl; tauto]).
  f_equal. rewrite !map_map. apply map_ext. intros [c x].
  cbn [fst snd]. f_equal. unfold upd_column, field_of. cbn [fst snd].
  repeat (match goal with
          | |- context [String.eqb c ?s] =>
              destruct (String.eqb_spec c s) as [->|?]; [reflexivity|]
          end).
  reflexivity.
Qed.

Lemma upd_columns_cons (oa : nat * Asset) items col inner :
  upd_columns (oa :: items) col inner
  = upd_columns items col (upd_column col oa inner).
Proof. reflexivity. Qed.

Lemma update_all_map (items : list (nat * Asset))
    (d : dict string (dict label cell)) :
  NoDup (dict_keys d) -> incl MERGE_COLUMNS (dict_keys d) ->
  update_all items d
  = Ok (map (fun cx => (fst cx, upd_columns items (fst cx) (snd cx))) d).
Proof.
  revert d. induction items as [|[order asset] items IH]; intros d Hnd Hcols.
  - simpl. f_equal. rewrite <- (map_id d) at 1. apply map_ext.
    now intros [c x].
  - cbn [update_all]. rewrite update_one_map by assumption. cbn [bind].
    rewrite IH by (rewrite dict_keys_map_snd; assumption).
    f_equal. rewrite map_map. apply map_ext. now intros [c x].
Qed.

(** ** What a column holds after the merge *)

Lemma field_of_cases (col : string) :
  (In col MERGE_COLUMNS /\ forall oa, field_of col oa <> None)
  \/ (~ In col MERGE_COLUMNS /\ forall oa, field_of col oa = None).
Proof.
  unfold field_of, MERGE_COLUMNS.
  repeat (match goal with
          | |- context [String.eqb col ?s] =>
              destruct (String.eqb_spec col s) as [->|?];
              [left; split; [simpl; tauto|intros oa; discriminate]|]
          end).
  right. split; [|reflexivity]. simpl. intuition congruence.
Qed.

Lemma upd_columns_other (items : list (nat * Asset)) col inner :
  ~ In col MERGE_COLUMNS -> upd_columns items col inner = inner.
Proof.
  intros Hout. destruct (field_of_cases col) as [[Hin _]|[_ Hnone]];
    [contradiction|].
  revert inner. induction items as [|oa items IH]; intros inner;
    [reflexivity|].
  rewrite upd_columns_cons. unfold upd_column at 1. rewrite Hnone. apply IH.
Qed.

Lemma last_occ_none (k : label) (items : list (nat * Asset)) :
  last_occ k items = None
  <-> ~ In k (map (fun oa => asset_label (snd oa)) items).
Proof.
  induction items as [|oa items IH]; simpl; [tauto|].
  destruct (last_occ k items) as [r|].
  - split; [discriminate|]. intros H. exfalso. apply H. right.
    destruct (in_dec key_dec k (map (fun oa => asset_label (snd oa)) items));
      [assumption|]. apply IH in n. discriminate.
  - destruct (key_eqb_spec k (asset_label (snd oa))) as [->|Hne].
    + split; [discriminate|]. intros H. exfalso. apply H. now left.
    + split; [|reflexivity]. intros _ [E|H]; [congruence|].
      now apply IH in H.
Qed.

Lemma last_occ_some (k : label) (items : list (nat * Asset)) oa :
  last_occ k items = Some oa -> In oa items /\ asset_label (snd oa) = k.
Proof.
  induction items as [|oa0 items IH]; simpl; [discriminate|].
  destruct (last_occ k items) as [r|].
  - intros [= ->]. destruct (IH eq_refl). auto.
  - destruct (key_eqb_spec k (asset_label (snd oa0))) as [->|Hne];
      [|discriminate]. intros [= ->]. auto.
Qed.

(** The value under a label after the merge: that of the last asset with
    the label, and the earlier value when no asset has it. *)
Lemma upd_columns_get (items : list (nat * Asset)) col inner k :
  In col MERGE_COLUMNS ->
  dict_get k (upd_columns items col inner)
  = match last_occ k items with
    | Some oa => field_of col oa
    | None => dict_get k inner
    end.
Proof.
  intros Hcol. destruct (field_of_cases col) as [[_ Hsome]|[Hout _]];
    [|contradiction].
  revert inner. induction items as [|oa items IH]; intros inner;
    [reflexivity|].
  rewrite upd_columns_cons, IH. simpl.
  destruct (last_occ k items) as [r|]; [reflexivity|].
  unfold upd_column. specialize (Hsome oa).
  destruct (field_of col oa) as [v|] eqn:E; [|congruence].
  rewrite dict_get_set.
  destruct (key_eqb k (asset_label (snd oa))); [now rewrite E|reflexivity].
Qed.

Lemma upd_columns_keys_in (items : list (nat * Asset)) col inner k :
  In col MERGE_COLUMNS ->
  In k (dict_keys (upd_columns items col inner))
  <-> In k (dict_keys inner)
      \/ In k (map (fun oa => asset_label (snd oa)) items).
Proof.
  intros Hcol. rewrite <- !dict_get_in, upd_columns_get by assumption.
  destruct (last_occ k items) as [oa|] eqn:E.
  - destruct (field_of_cases col) as [[_ Hsome]|[Hout _]]; [|contradiction].
    split; [|intros _; apply Hsome].
    intros _. right. apply last_occ_some in E. destruct E as [Hin <-].
    now apply (in_map (fun oa => asset_label (snd oa))).
  - apply last_occ_none in E. rewrite dict_get_in. tauto.
Qed.

Lemma upd_columns_nodup (items : list (nat * Asset)) col inner :
  NoDup (dict_keys inner) -> NoDup (dict_keys (upd_columns items col inner)).
Proof.
  revert inner. induction items as [|oa items IH]; intros inner Hnd;
    [exact Hnd|].
  rewrite upd_columns_cons. apply IH. unfold upd_column.
  destruct (field_of col oa); [now apply dict_set_nodup|exact Hnd].
Qed.

(** Labels that are all in the column already leave its keys as they are. *)
Lemma upd_columns_keys_same (items : list (nat * Asset)) col inner :
  incl (map (fun oa => asset_label (snd oa)) items) (dict_keys inner) ->
  dict_keys (upd_columns items col inner) = dict_keys inner.
Proof.
  revert inner. induction items as [|oa items IH]; intros inner Hin;
    [reflexivity|].
  rewrite upd_columns_cons.
  assert (Hk : dict_keys (upd_column col oa inner) = dict_keys inner).
  { unfold upd_column. destruct (field_of col oa); [|reflexivity].
    apply dict_set_in. apply Hin. now left. }
  rewrite IH; [exact Hk|]. rewrite Hk. intros x Hx. apply Hin. now right.
Qed.

(** ** Labels: [unique], [index_of], [take] *)

Lemma filter_neq_notin {K : Type} {key : Key K} {key_spec : KeySpec K}
    (x : K) (l : list K) :
  ~ In x l -> filter (fun y => negb (key_eqb y x)) l = l.
Proof.
  induction l as [|y l IH]; simpl; [reflexivity|].
  intros H. destruct (key_eqb_spec y x) as [->|Hne]; simpl.
  - exfalso. apply H. now left.
  - rewrite IH; [reflexivity|]. intros Hin. apply H. now right.
Qed.

Lemma unique_in {K : Type} {key : Key K} {key_spec : KeySpec K}
    (k : K) (l : list K) : In k (unique l) <-> In k l.
Proof.
  induction l as [|x l IH]; simpl; [tauto|].
  rewrite filter_In, IH, negb_true_iff.
  destruct (key_eqb_spec k x) as [->|Hne].
  - split; auto.
  - split; [intros [E|[H _]]; auto|]. intros [E|H]; [congruence|auto].
Qed.

Lemma unique_nodup {K : Type} {key : Key K} {key_spec : KeySpec K}
    (l : list K) : NoDup (unique l).
Proof.
  induction l as [|x l IH]; simpl; constructor.
  - rewrite filter_In, key_eqb_refl. simpl. intros [_ H]. discriminate.
  - now apply NoDup_filter.
Qed.

Lemma unique_of_nodup {K : Type} {key : Key K} {key_spec : KeySpec K}
    (l : list K) : NoDup l -> unique l = l.
Proof.
  induction 1 as [|x l Hout Hnd IH]; simpl; [reflexivity|].
  rewrite IH. now rewrite filter_neq_notin.
Qed.

Lemma filter_neq_notmem {K : Type} {key : Key K} {key_spec : KeySpec K}
    (x : K) (l1 l : list K) :
  filter (fun y => negb (key_eqb y x))
         (filter (fun y => negb (mem y l1)) l)
  = filter (fun y => negb (key_eqb y x || mem y l1)) l.
Proof.
  induction l as [|y l IHl]; simpl; [reflexivity|].
  destruct (mem y l1); simpl; destruct (key_eqb y x); simpl;
    rewrite ?IHl; reflexivity.
Qed.

Lemma unique_app {K : Type} {key : Key K} {key_spec : KeySpec K}
    (l1 l2 : list K) :
  unique (l1 ++ l2)
  = unique l1 ++ filter (fun y => negb (mem y l1)) (unique l2).
Proof.
  induction l1 as [|x l1 IH]; simpl.
  - symmetry. apply forallb_filter_id. apply forallb_forall. reflexivity.
  - f_equal. rewrite IH, filter_app. f_equal. apply filter_neq_notmem.
Qed.

Lemma filter_none {A : Type} (f : A -> bool) (l : list A) :
  (forall x, In x l -> f x = false) -> filter f l = [].
Proof.
  induction l as [|x l IH]; simpl; [reflexivity|].
  intros H. rewrite (H x) by now left. apply IH. intros y Hy. apply H.
  now right.
Qed.

(** Labels already seen add nothing to the index. *)
Lemma unique_app_incl {K : Type} {key : Key K} {key_spec : KeySpec K}
    (l1 l2 : list K) :
  NoDup l1 -> incl l2 l1 -> unique (l1 ++ l2) = l1.
Proof.
  intros Hnd Hincl. rewrite unique_app, unique_of_nodup by assumption.
  rewrite filter_none; [apply app_nil_r|].
  intros y Hy. apply unique_in, Hincl, mem_In in Hy. now rewrite Hy.
Qed.

Lemma index_of_in {K : Type} {key : Key K} {key_spec : KeySpec K}
    (k : K) (l : list K) :
  In k l -> exists p, index_of k l = Some p.
Proof.
  induction l as [|x l IH]; simpl; [tauto|].
  intros H. destruct (key_eqb_spec k x) as [->|Hne]; [eauto|].
  destruct IH as [p ->]; [destruct H; congruence|eauto].
Qed.

Lemma index_of_nth {K : Type} {key : Key K} {key_spec : KeySpec K}
    (k : K) (l : list K) (p : nat) :
  index_of k l = Some p -> nth_error l p = Some k.
Proof.
  revert p. induction l as [|x l IH]; intros p; simpl; [discriminate|].
  destruct (key_eqb_spec k x) as [->|Hne].
  - now intros [= <-].
  - destruct (index_of k l) as [q|]; [|discriminate].
    intros [= <-]. simpl. now apply IH.
Qed.

Lemma nth_index_of {K : Type} {key : Key K} {key_spec : KeySpec K}
    (k : K) (l : list K) (p : nat) :
  NoDup l -> nth_error l p = Some k -> index_of k l = Some p.
Proof.
  intros Hnd. revert p. induction Hnd as [|x l Hout Hnd IH]; intros p.
  - destruct p; discriminate.
  - destruct p as [|p]; simpl.
    + intros [= ->]. now rewrite key_eqb_refl.
    + intros H. destruct (key_eqb_spec k x) as [->|Hne].
      * exfalso. apply Hout. eapply nth_error_In; eauto.
      * now rewrite (IH p H).
Qed.


Lemma take_seq {A : Type} (l : list A) (d : A) :
  take (seq 0 (length l)) l d = l.
Proof.
  unfold take. induction l as [|x l IH]; simpl; [reflexivity|].
  f_equal. rewrite <- seq_shift, map_map. exact IH.
Qed.

Lemma take_map {A B : Type} (g : A -> B) (indexer : list nat) (l : list A)
    (d : A) (d' : B) :
  Forall (fun i => i < length l) indexer ->
  take indexer (map g l) d' = map g (take indexer l d).
Proof.
  intros H. unfold take. rewrite map_map. apply map_ext_in. intros i Hi.
  rewrite Forall_forall in H. specialize (H i Hi).
  rewrite (nth_indep _ d' (g d)) by (now rewrite length_map).
  apply map_nth.
Qed.

Lemma take_nth_error {A : Type} (indexer : list nat) (l : list A) (d : A)
    (j p : nat) :
  nth_error indexer j = Some p -> p < length l ->
  nth_error (take indexer l d) j = nth_error l p.
Proof.
  intros Hj Hp. unfold take. rewrite nth_error_map, Hj. simpl.
  symmetry. now apply nth_error_nth'.
Qed.

Lemma permutation_seq_bound (indexer : list nat) (n : nat) :
  Permutation indexer (seq 0 n) -> Forall (fun i => i < n) indexer.
Proof.
  intros H. apply Forall_forall. intros i Hi.
  apply (Permutation_in _ H), in_seq in Hi. lia.
Qed.

Lemma take_permutation {A : Type} (indexer : list nat) (l : list A) (d : A) :
  Permutation indexer (seq 0 (length l)) -> Permutation (take indexer l d) l.
Proof.
  intros H. rewrite <- (take_seq l d) at 2. unfold take.
  now apply Permutation_map.
Qed.

(** Where a label goes when the rows are taken in another order. *)
Lemma index_of_take (indexer : list nat) (l : list label) (k : label)
    (p : nat) :
  NoDup l -> Permutation indexer (seq 0 (length l)) ->
  index_of k l = Some p ->
  exists j, nth_error indexer j = Some p
            /\ index_of k (take indexer l "") = Some j.
Proof.
  intros Hnd Hperm Hp. apply index_of_nth in Hp.
  assert (Hlt : p < length l) by (apply nth_error_Some; congruence).
  assert (Hin : In p indexer).
  { apply (Permutation_in _ (Permutation_sym Hperm)), in_seq. lia. }
  apply In_nth_error in Hin. destruct Hin as [j Hj]. exists j.
  split; [exact Hj|]. apply nth_index_of.
  - apply (Permutation_NoDup
             (Permutation_sym (@take_permutation _ indexer l "" Hperm))).
    exact Hnd.
  - now rewrite (@take_nth_error _ indexer l "" j p Hj Hlt).
Qed.

(** ** Sorting *)

Section SortingFacts.
Variable A : Type.
Variable le : A -> A -> bool.
Hypothesis le_total : forall a b, le a b = true \/ le b a = true.
Hypothesis le_trans :
  forall a b c, le a b = true -> le b c = true -> le a c = true.

Let R (a b : A) : Prop := le a b = true.

Lemma insert_sorted_perm (x : A) (l : list A) :
  Permutation (insert_sorted le x l) (x :: l).
Proof.
  induction l as [|y l IH]; simpl; [reflexivity|].
  destruct (le x y); [reflexivity|].
  rewrite IH. apply perm_swap.
Qed.

Lemma stable_sort_perm (l : list A) : Permutation (stable_sort le l) l.
Proof.
  induction l as [|x l IH]; simpl; [reflexivity|].
  rewrite insert_sorted_perm. now apply perm_skip.
Qed.

Lemma insert_sorted_sorted (x : A) (l : list A) :
  StronglySorted R l -> StronglySorted R (insert_sorted le x l).
Proof.
  induction 1 as [|y l Hl IH Hy]; simpl.
  - repeat constructor.
  - destruct (le x y) eqn:E.
    + constructor; [now constructor|]. constructor; [exact E|].
      eapply Forall_impl; [|exact Hy]. intros z Hz.
      now apply le_trans with y.
    + constructor; [exact IH|].
      apply Forall_forall. intros z Hz.
      apply (Permutation_in _ (insert_sorted_perm x l)) in Hz.
      destruct Hz as [<-|Hz].
      * destruct (le_total x y) as [H|H]; [congruence|exact H].
      * rewrite Forall_forall in Hy. now apply Hy.
Qed.

Lemma stable_sort_sorted (l : list A) : StronglySorted R (stable_sort le l).
Proof.
  induction l as [|x l IH]; simpl; [constructor|].
  now apply insert_sorted_sorted.
Qed.

(** Sorting leaves a sorted list as it is. *)
Lemma stable_sort_of_sorted (l : list A) :
  Sorted R l -> stable_sort le l = l.
Proof.
  induction 1 as [|x l Hl IH Hx]; simpl; [reflexivity|].
  rewrite IH. destruct Hx as [|y l Hxy]; simpl; [reflexivity|].
  unfold R in Hxy. now rewrite Hxy.
Qed.
End SortingFacts.

Lemma key_le_total (a b : option Z) : key_le a b = true \/ key_le b a = true.
Proof.
  destruct a as [x|], b as [y|]; simpl; auto.
  rewrite !Z.leb_le. lia.
Qed.

Lemma key_le_trans (a b c : option Z) :
  key_le a b = true -> key_le b c = true -> key_le a c = true.
Proof.
  destruct a as [x|], b as [y|], c as [z|]; simpl; auto; try discriminate.
  rewrite !Z.leb_le. lia.
Qed.

Lemma strongly_sorted_map {A B : Type} (R : B -> B -> Prop) (f : A -> B)
    (l : list A) :
  StronglySorted (fun a b => R (f a) (f b)) l -> StronglySorted R (map f l).
Proof.
  induction 1 as [|x l Hl IH Hx]; simpl; constructor; [exact IH|].
  now apply Forall_map.
Qed.


Lemma map_snd_combine {A B : Type} (l1 : list A) (l2 : list B) :
  length l1 = length l2 -> map snd (combine l1 l2) = l2.
Proof.
  revert l2. induction l1 as [|x l1 IH]; intros [|y l2]; simpl;
    try discriminate; [reflexivity|].
  intros [= H]. now rewrite IH.
Qed.

Lemma map_fst_combine {A B : Type} (l1 : list A) (l2 : list B) :
  length l1 = length l2 -> map fst (combine l1 l2) = l1.
Proof.
  revert l2. induction l1 as [|x l1 IH]; intros [|y l2]; simpl;
    try discriminate; [reflexivity|].
  intros [= H]. now rewrite IH.
Qed.

Section Nargsort.
Variable keys : list (option Z).

Let le2 (p q : option Z * nat) : bool := key_le (fst p) (fst q).
Let pairs := combine keys (seq 0 (length keys)).

Lemma nargsort_permutation :
  Permutation (nargsort keys) (seq 0 (length keys)).
Proof.
  unfold nargsort.
  rewrite <- (map_snd_combine keys (seq 0 (length keys)))
    at 2 by (now rewrite length_seq).
  apply Permutation_map, stable_sort_perm.
Qed.

Lemma pairs_nth (s : nat) (l : list (option Z)) :
  Forall (fun p => nth_error l (snd p - s) = Some (fst p) /\ s <= snd p)
         (combine l (seq s (length l))).
Proof.
  revert s. induction l as [|k l IH]; intros s; simpl; constructor.
  - simpl. rewrite Nat.sub_diag. auto.
  - eapply Forall_impl; [|apply (IH (S s))].
    intros [k' i] [H1 H2]. simpl in *. split; [|lia].
    replace (i - s) with (S (i - S s)) by lia. exact H1.
Qed.

(** The keys taken in the order of the indexer are the sorted keys. *)
Lemma nargsort_keys :
  take (nargsort keys) keys None
  = map fst (stable_sort le2 pairs).
Proof.
  unfold nargsort, take. fold le2. fold pairs. rewrite map_map.
  apply map_ext_in. intros [k i] Hin.
  apply (Permutation_in _ (stable_sort_perm _ le2 pairs)) in Hin.
  pose proof (pairs_nth 0 keys) as H. rewrite Forall_forall in H.
  destruct (H _ Hin) as [Hnth _]. simpl in *.
  rewrite Nat.sub_0_r in Hnth. now apply nth_error_nth.
Qed.

Lemma nargsort_sorted :
  StronglySorted (fun a b => key_le a b = true)
                 (take (nargsort keys) keys None).
Proof.
  rewrite nargsort_keys. apply strongly_sorted_map.
  apply stable_sort_sorted.
  - intros a b. apply key_le_total.
  - intros a b c. apply key_le_trans.
Qed.

Lemma combine_sorted (s : nat) (l : list (option Z)) :
  Sorted (fun a b => key_le a b = true) l ->
  Sorted (fun p q => le2 p q = true) (combine l (seq s (length l))).
Proof.
  intros H. revert s. induction H as [|k l Hl IH Hk]; intros s; simpl;
    constructor; [apply IH|].
  destruct Hk as [|k' l Hkk']; simpl; constructor. exact Hkk'.
Qed.

(** Keys that are in order already give the identity indexer. *)
Lemma nargsort_of_sorted :
  Sorted (fun a b => key_le a b = true) keys ->
  nargsort keys = seq 0 (length keys).
Proof.
  intros H. unfold nargsort. fold le2.
  rewrite stable_sort_of_sorted by (now apply combine_sorted).
  apply map_snd_combine. now rewrite length_seq.
Qed.
End Nargsort.

(** ** Frames *)

Lemma well_formed_spec (df : DataFrame) :
  well_formed df = true
  <-> NoDup (df_index df) /\ NoDup (map fst (df_columns df))
      /\ Forall (fun c => length (snd c) = length (df_index df))
                (df_columns df).
Proof.
  unfold well_formed. rewrite !andb_true_iff, !distinct_NoDup.
  rewrite forallb_forall, Forall_forall.
  split; intros [[H1 H2] H3] || intros (H1 & H2 & H3); repeat split; auto;
    intros c Hc; apply Nat.eqb_eq || apply Nat.eqb_eq in H3; auto.
Qed.

Lemma has_data_columns_spec (df : DataFrame) :
  has_data_columns df = true
  <-> incl DATA_COLUMNS (map fst (df_columns df)).
Proof.
  unfold has_data_columns. rewrite forallb_forall. unfold incl.
  split; intros H c Hc; apply mem_In; auto.
Qed.

Lemma to_dict_keys_nodup (df : DataFrame) : NoDup (dict_keys (to_dict df)).
Proof. apply dict_of_items_keys_nodup. Qed.

Lemma to_dict_keys_in (df : DataFrame) (c : string) :
  In c (dict_keys (to_dict df)) <-> In c (map fst (df_columns df)).
Proof.
  unfold to_dict. rewrite dict_of_items_keys_in, map_map. reflexivity.
Qed.

(** The dictionary of a well-formed frame lists the frame as it is. *)
Lemma to_dict_well_formed (df : DataFrame) :
  well_formed df = true ->
  to_dict df
  = map (fun c => (fst c, combine (df_index df) (snd c))) (df_columns df).
Proof.
  intros H. apply well_formed_spec in H. destruct H as (Hidx & Hcols & Hlen).
  unfold to_dict. rewrite dict_of_items_nodup.
  - apply map_ext_in. intros [c vs] Hc. simpl. f_equal.
    apply dict_of_items_nodup.
    rewrite Forall_forall in Hlen. specialize (Hlen _ Hc). simpl in Hlen.
    now rewrite map_fst_combine.
  - now rewrite map_map.
Qed.

Lemma crypto_dict_before_nodup (df : DataFrame) :
  NoDup (dict_keys (crypto_dict_before df)).
Proof. apply dict_set_nodup, to_dict_keys_nodup. Qed.

Lemma crypto_dict_before_keys (df : DataFrame) (c : string) :
  In c (dict_keys (crypto_dict_before df))
  <-> c = "Order" \/ In c (map fst (df_columns df)).
Proof.
  unfold crypto_dict_before. now rewrite dict_set_keys_in, to_dict_keys_in.
Qed.

Lemma crypto_dict_before_merge_columns (df : DataFrame) :
  has_data_columns df = true ->
  incl MERGE_COLUMNS (dict_keys (crypto_dict_before df)).
Proof.
  intros H c Hc. apply crypto_dict_before_keys.
  apply has_data_columns_spec in H.
  destruct Hc as [<-|Hc]; [now left|]. right. apply H. exact Hc.
Qed.

(** With the data columns in the frame the merge raises nothing. *)
Lemma upsert_ok (df : DataFrame) (assets : list Asset) :
  has_data_columns df = true ->
  upsert_cryptocurrencies df assets
  = Ok (from_dict (crypto_dict_after df assets)).
Proof.
  intros H. unfold upsert_cryptocurrencies.
  fold (crypto_dict_before df).
  rewrite update_all_map.
  - reflexivity.
  - apply crypto_dict_before_nodup.
  - now apply crypto_dict_before_merge_columns.
Qed.

Lemma crypto_dict_after_keys (df : DataFrame) (assets : list Asset) :
  dict_keys (crypto_dict_after df assets) = dict_keys (crypto_dict_before df).
Proof. apply dict_keys_map. Qed.

Lemma crypto_dict_after_get (df : DataFrame) (assets : list Asset) c :
  dict_get c (crypto_dict_after df assets)
  = option_map (upd_columns (enumerate assets) c)
               (dict_get c (crypto_dict_before df)).
Proof. apply dict_get_map. Qed.

Lemma crypto_dict_before_get_order (df : DataFrame) :
  dict_get "Order" (crypto_dict_before df) = Some [].
Proof. unfold crypto_dict_before. now rewrite dict_get_set. Qed.

Lemma crypto_dict_before_get_other (df : DataFrame) c :
  c <> "Order" ->
  dict_get c (crypto_dict_before df) = dict_get c (to_dict df).
Proof.
  intros H. unfold crypto_dict_before. rewrite dict_get_set.
  destruct (key_eqb_spec c "Order"); [contradiction|reflexivity].
Qed.

Lemma dict_get_in_pair {V : Type} (c : string) (v : V) (d : dict string V) :
  dict_get c d = Some v -> In (c, v) d.
Proof.
  induction d as [|[c0 v0] d IH]; simpl; [discriminate|].
  destruct (key_eqb_spec c c0) as [->|Hne]; [|auto].
  intros [= ->]. now left.
Qed.

Lemma frame_of_dict_index_in (d : dict string (dict label cell)) (k : label) :
  In k (df_index (frame_of_dict d))
  <-> exists cx, In cx d /\ In k (dict_keys (snd cx)).
Proof.
  unfold frame_of_dict. cbn [df_index]. rewrite unique_in, in_concat. split.
  - intros (keys & Hkeys & Hk). apply in_map_iff in Hkeys.
    destruct Hkeys as (cx & <- & Hin). eauto.
  - intros (cx & Hin & Hk). exists (dict_keys (snd cx)). split; [|exact Hk].
    apply in_map_iff. eauto.
Qed.

Lemma frame_of_dict_index_nodup (d : dict string (dict label cell)) :
  NoDup (df_index (frame_of_dict d)).
Proof. apply unique_nodup. Qed.

Lemma frame_of_dict_columns_get (d : dict string (dict label cell))
    (c : string) :
  dict_get c (df_columns (frame_of_dict d))
  = option_map
      (fun col => map (fun k => cell_of (dict_get k col))
                      (df_index (frame_of_dict d)))
      (dict_get c d).
Proof.
  unfold frame_of_dict. cbn [df_columns df_index].
  apply (dict_get_map
           (fun (_ : string) col => map (fun k => cell_of (dict_get k col)) _)).
Qed.

Lemma frame_of_dict_well_formed (d : dict string (dict label cell)) :
  NoDup (dict_keys d) -> well_formed (frame_of_dict d) = true.
Proof.
  intros Hnd. apply well_formed_spec. split; [apply frame_of_dict_index_nodup|].
  split.
  - unfold frame_of_dict. cbn [df_columns]. now rewrite map_map.
  - unfold frame_of_dict. cbn [df_columns df_index]. apply Forall_map.
    apply Forall_forall. intros cx _. cbn [snd]. apply length_map.
Qed.

(** The cell of a frame built from a dictionary. *)
Lemma loc_frame_of_dict (d : dict string (dict label cell)) (k : label)
    (c : string) (col : dict label cell) :
  In k (df_index (frame_of_dict d)) -> dict_get c d = Some col ->
  loc (frame_of_dict d) k c = Some (cell_of (dict_get k col)).
Proof.
  intros Hk Hc. unfold loc. rewrite frame_of_dict_columns_get, Hc. simpl.
  destruct (index_of_in _ _ Hk) as [p Hp].
  change (unique _) with (df_index (frame_of_dict d)). rewrite Hp.
  apply index_of_nth in Hp. now rewrite nth_error_map, Hp.
Qed.

(** ** The sequencer *)

Lemma filter_map_fst {A B : Type} (f : string -> bool) (g : A -> B)
    (l : list (string * A)) :
  filter (fun c => f (fst c)) (map (fun c => (fst c, g (snd c))) l)
  = map (fun c => (fst c, g (snd c))) (filter (fun c => f (fst c)) l).
Proof.
  induction l as [|[c x] l IH]; simpl; [reflexivity|].
  destruct (f c); simpl; now rewrite IH.
Qed.

(** With an [Order] column in the frame the sequencer raises nothing, and
    this is the frame it gives. *)
Lemma sort_cryptocurrencies_ok (df : DataFrame) (vs : list cell) :
  dict_get "Order" (df_columns df) = Some vs ->
  sort_cryptocurrencies df
  = Ok {| df_index := take (nargsort (map order_key vs)) (df_index df) "";
          df_columns :=
            map (fun c => (fst c, take (nargsort (map order_key vs))
                                       (snd c) Null))
                (filter (fun c => negb (String.eqb (fst c) "Order"))
                        (df_columns df)) |}.
Proof.
  intros H. unfold sort_cryptocurrencies, sort_values. rewrite H.
  cbn [bind]. unfold drop_column. cbn [df_columns df_index].
  rewrite map_map. cbn [fst].
  assert (Hin : existsb (String.eqb "Order") (map fst (df_columns df)) = true).
  { apply mem_In. now apply dict_get_some_in in H. }
  rewrite (map_ext (fun x : string * list cell => fst x) fst) by reflexivity.
  rewrite Hin. do 2 f_equal.
  apply (filter_map_fst (fun c => negb (String.eqb c "Order"))
           (fun ws => take (nargsort (map order_key vs)) ws Null)).
Qed.

Lemma dict_get_filter_neq {V : Type} (c col : string) (d : dict string V) :
  c <> col ->
  dict_get c (filter (fun cx => negb (String.eqb (fst cx) col)) d)
  = dict_get c d.
Proof.
  intros Hne. induction d as [|[c0 x0] d IH]; simpl; [reflexivity|]. keys.
  destruct (key_eqb_spec c0 col) as [->|Hne0]; simpl.
  - destruct (key_eqb_spec c col); [contradiction|exact IH].
  - now rewrite IH.
Qed.

Lemma dict_get_map_snd {V U : Type} (g : V -> U) (c : string)
    (d : dict string V) :
  dict_get c (map (fun cx => (fst cx, g (snd cx))) d)
  = option_map g (dict_get c d).
Proof. apply (dict_get_map (fun _ => g)). Qed.

(** Sorting moves the rows and keeps the cell of every label. *)
Lemma loc_sorted (df sorted : DataFrame) (vs : list cell) (k : label)
    (c : string) :
  well_formed df = true ->
  dict_get "Order" (df_columns df) = Some vs ->
  sort_cryptocurrencies df = Ok sorted ->
  c <> "Order" -> In k (df_index df) ->
  loc sorted k c = loc df k c.
Proof.
  intros Hwf Hord Hsort Hc Hk.
  rewrite (@sort_cryptocurrencies_ok df vs Hord) in Hsort.
  injection Hsort as <-.
  apply well_formed_spec in Hwf. destruct Hwf as (Hidx & _ & Hlen).
  assert (Hvs : length vs = length (df_index df)).
  { rewrite Forall_forall in Hlen.
    apply (Hlen ("Order", vs)). now apply dict_get_in_pair. }
  assert (Hperm : Permutation (nargsort (map order_key vs))
                    (seq 0 (length (df_index df)))).
  { rewrite <- Hvs, <- (length_map order_key). apply nargsort_permutation. }
  destruct (index_of_in _ _ Hk) as [p Hp].
  destruct (@index_of_take _ _ k p Hidx Hperm Hp) as (j & Hj & Hj').
  unfold loc. cbn [df_index df_columns]. rewrite Hj', Hp.
  rewrite (dict_get_map_snd
             (fun ws => take (nargsort (map order_key vs)) ws Null)).
  rewrite dict_get_filter_neq by assumption.
  destruct (dict_get c (df_columns df)) as [ws|] eqn:Hws; [|reflexivity].
  simpl. apply take_nth_error; [exact Hj|].
  rewrite Forall_forall in Hlen.
  assert (Hws' : length ws = length (df_index df)).
  { apply (Hlen (c, ws)). now apply dict_get_in_pair. }
  rewrite Hws'. apply index_of_nth in Hp. apply nth_error_Some. congruence.
Qed.

(** ** The dtypes of the columns *)

Lemma forallb_map_ext {A B : Type} (f : B -> bool) (g : A -> B)
    (h : A -> bool) (l : list A) :
  (forall x, f (g x) = h x) -> forallb f (map g l) = forallb h l.
Proof.
  intros H. induction l as [|x l IH]; simpl; [reflexivity|].
  now rewrite H, IH.
Qed.

Lemma with_dtypes_names (df : DataFrame) :
  map fst (df_columns (with_dtypes df)) = map fst (df_columns df).
Proof.
  unfold with_dtypes. cbn [df_columns]. rewrite map_map. reflexivity.
Qed.

Lemma with_dtypes_get (df : DataFrame) (c : string) :
  dict_get c (df_columns (with_dtypes df))
  = option_map maybe_convert_objects (dict_get c (df_columns df)).
Proof. apply (dict_get_map_snd maybe_convert_objects). Qed.

Lemma maybe_convert_objects_length (col : list cell) :
  length (maybe_convert_objects col) = length col.
Proof.
  unfold maybe_convert_objects. destruct (infers_float64 col);
    [apply length_map|reflexivity].
Qed.

Lemma with_dtypes_well_formed (df : DataFrame) :
  well_formed (with_dtypes df) = well_formed df.
Proof.
  unfold well_formed. rewrite with_dtypes_names. f_equal.
  unfold with_dtypes. cbn [df_index df_columns].
  apply forallb_map_ext. intros c. cbn [snd].
  now rewrite maybe_convert_objects_length.
Qed.

Lemma with_dtypes_has_data_columns (df : DataFrame) :
  has_data_columns (with_dtypes df) = has_data_columns df.
Proof. unfold has_data_columns. now rewrite with_dtypes_names. Qed.

Lemma order_key_as_float (c : cell) : order_key (as_float c) = order_key c.
Proof. now destruct c. Qed.

Lemma is_order_cell_as_float (c : cell) :
  is_order_cell (as_float c) = is_order_cell c.
Proof. now destruct c. Qed.

Lemma maybe_convert_objects_keys (col : list cell) :
  map order_key (maybe_convert_objects col) = map order_key col.
Proof.
  unfold maybe_convert_objects. destruct (infers_float64 col); [|reflexivity].
  rewrite map_map. apply map_ext. apply order_key_as_float.
Qed.

Lemma maybe_convert_objects_order_cells (col : list cell) :
  forallb is_order_cell (maybe_convert_objects col)
  = forallb is_order_cell col.
Proof.
  unfold maybe_convert_objects. destruct (infers_float64 col); [|reflexivity].
  apply forallb_map_ext. apply is_order_cell_as_float.
Qed.

(** The cell a column stores at a position. *)
Lemma maybe_convert_objects_nth (col : list cell) (p : nat) (v : cell) :
  nth_error col p = Some v ->
  exists stored,
    nth_error (maybe_convert_objects col) p = Some stored
    /\ stored_as v stored.
Proof.
  intros H. unfold maybe_convert_objects, stored_as.
  destruct (infers_float64 col).
  - exists (as_float v). rewrite nth_error_map, H. auto.
  - exists v. auto.
Qed.

Lemma loc_with_dtypes (df : DataFrame) (k : label) (c : string) (v : cell) :
  loc df k c = Some v ->
  exists stored, loc (with_dtypes df) k c = Some stored /\ stored_as v stored.
Proof.
  unfold loc. rewrite with_dtypes_get. cbn [with_dtypes df_index].
  destruct (index_of k (df_index df)) as [p|]; [|discriminate].
  destruct (dict_get c (df_columns df)) as [col|]; [|discriminate].
  cbn [option_map]. apply maybe_convert_objects_nth.
Qed.

Lemma loc_with_dtypes_inv (df : DataFrame) (k : label) (c : string)
    (stored : cell) :
  loc (with_dtypes df) k c = Some stored ->
  exists v, loc df k c = Some v /\ stored_as v stored.
Proof.
  intros H. destruct (loc df k c) as [v|] eqn:Hv.
  - destruct (loc_with_dtypes _ _ _ _ Hv) as (s' & Hs' & Hst).
    exists v. split; [reflexivity|]. congruence.
  - revert H Hv. unfold loc. rewrite with_dtypes_get.
    cbn [with_dtypes df_index].
    destruct (index_of k (df_index df)) as [p|]; [|discriminate].
    destruct (dict_get c (df_columns df)) as [col|]; [|discriminate].
    cbn [option_map]. intros H Hv.
    assert (Hlt : p < length (maybe_convert_objects col)).
    { apply nth_error_Some. congruence. }
    rewrite maybe_convert_objects_length in Hlt.
    apply nth_error_Some in Hlt. contradiction.
Qed.

Lemma existsb_permutation {A : Type} (f : A -> bool) (l l' : list A) :
  Permutation l l' -> existsb f l = existsb f l'.
Proof.
  intros H. induction H; simpl.
  - reflexivity.
  - now rewrite IHPermutation.
  - destruct (f x), (f y); reflexivity.
  - congruence.
Qed.

Lemma infers_float64_permutation (col col' : list cell) :
  Permutation col col' -> infers_float64 col = infers_float64 col'.
Proof.
  intros H. unfold infers_float64.
  now rewrite !(existsb_permutation _ _ _ H).
Qed.

(** Taking the rows in another order and giving the column its dtype
    commute. *)
Lemma take_maybe_convert_objects (indexer : list nat) (col : list cell) :
  Permutation indexer (seq 0 (length col)) ->
  take indexer (maybe_convert_objects col) Null
  = maybe_convert_objects (take indexer col Null).
Proof.
  intros H. unfold maybe_convert_objects.
  rewrite (infers_float64_permutation _ _ (take_permutation _ col Null H)).
  destruct (infers_float64 col); [|reflexivity].
  apply take_map. now apply permutation_seq_bound.
Qed.

Lemma existsb_false {A : Type} (f : A -> bool) (l : list A) :
  existsb f l = false <-> forall x, In x l -> f x = false.
Proof.
  induction l as [|y l IH]; simpl.
  - split; [intros _ x []|reflexivity].
  - rewrite orb_false_iff, IH. split.
    + intros [Hy Hl] x [<-|Hx]; auto.
    + intros H. split; [apply H; now left|]. intros x Hx. apply H. now right.
Qed.

Lemma as_float_idempotent (c : cell) : as_float (as_float c) = as_float c.
Proof. now destruct c. Qed.

(** A column in which some cells are converted already is stored as the
    column itself is. *)
Lemma maybe_convert_objects_mixed {K : Type} (f h : K -> cell) (l : list K) :
  (forall k, In k l ->
     h k = f k
     \/ h k = if infers_float64 (map f l) then as_float (f k) else f k) ->
  maybe_convert_objects (map h l) = maybe_convert_objects (map f l).
Proof.
  intros H. destruct (infers_float64 (map f l)) eqn:E.
  2:{ f_equal. apply map_ext_in. intros k Hk. destruct (H k Hk); auto. }
  assert (Hfl : map as_float (map h l) = map as_float (map f l)).
  { rewrite !map_map. apply map_ext_in. intros k Hk.
    destruct (H k Hk) as [->| ->]; [reflexivity|apply as_float_idempotent]. }
  unfold maybe_convert_objects at 2. rewrite E.
  unfold infers_float64 in E. apply andb_true_iff in E.
  destruct E as [E Hnon]. apply andb_true_iff in E. destruct E as [Hstr Hint].
  apply negb_true_iff in Hstr.
  assert (Hstr' : existsb is_str (map h l) = false).
  { apply existsb_false. intros x Hx. apply in_map_iff in Hx.
    destruct Hx as (k & <- & Hk).
    assert (Hf : is_str (f k) = false).
    { apply (proj1 (existsb_false is_str (map f l)) Hstr). now apply in_map. }
    destruct (H k Hk) as [->| ->]; [exact Hf|]. now destruct (f k). }
  unfold maybe_convert_objects, infers_float64. rewrite Hstr'. cbn [negb andb].
  destruct (existsb is_int (map h l)) eqn:Ei; cbn [andb].
  - destruct (existsb (fun c => negb (is_int c)) (map h l)) eqn:En;
      [exact Hfl|].
    exfalso. apply existsb_exists in Hnon. destruct Hnon as (v & Hv & Hnv).
    apply in_map_iff in Hv. destruct Hv as (k & <- & Hk).
    assert (Hh : negb (is_int (h k)) = false).
    { apply (proj1 (existsb_false _ (map h l)) En). now apply in_map. }
    destruct (H k Hk) as [Ek|Ek]; rewrite Ek in Hh;
      destruct (f k); discriminate.
  - rewrite <- Hfl. rewrite <- (map_id (map h l)) at 1.
    apply map_ext_in. intros v Hv.
    assert (Hi : is_int v = false)
      by (apply (proj1 (existsb_false is_int (map h l)) Ei); exact Hv).
    now destruct v.
Qed.

(** The sequencer on a frame whose columns have their dtypes does what it
    does on the frame of the Python values. *)
Lemma sort_with_dtypes (df sorted : DataFrame) (vs : list cell) :
  well_formed df = true ->
  dict_get "Order" (df_columns df) = Some vs ->
  sort_cryptocurrencies df = Ok sorted ->
  sort_cryptocurrencies (with_dtypes df) = Ok (with_dtypes sorted).
Proof.
  intros Hwf Hord Hsort.
  rewrite (sort_cryptocurrencies_ok df vs Hord) in Hsort.
  injection Hsort as <-.
  assert (Hord' : dict_get "Order" (df_columns (with_dtypes df))
                  = Some (maybe_convert_objects vs)).
  { now rewrite with_dtypes_get, Hord. }
  rewrite (sort_cryptocurrencies_ok _ _ Hord').
  rewrite maybe_convert_objects_keys.
  apply well_formed_spec in Hwf. destruct Hwf as (_ & _ & Hlen).
  rewrite Forall_forall in Hlen.
  assert (Hvs : length vs = length (df_index df)).
  { apply (Hlen ("Order", vs)). now apply dict_get_in_pair. }
  unfold with_dtypes. cbn [df_index df_columns]. do 2 f_equal.
  rewrite (filter_map_fst (fun c => negb (String.eqb c "Order"))
             maybe_convert_objects).
  rewrite !map_map. cbn [fst snd]. apply map_ext_in.
  intros [c ws] Hin. cbn [fst snd]. f_equal.
  apply take_maybe_convert_objects.
  apply filter_In in Hin. destruct Hin as [Hin _].
  specialize (Hlen _ Hin). cbn [snd] in Hlen.
  rewrite Hlen, <- Hvs, <- (length_map order_key).
  apply nargsort_permutation.
Qed.

(** ** The fetched list *)

Lemma enumerate_ids (assets : list Asset) :
  map (fun oa => asset_label (snd oa)) (enumerate assets)
  = map asset_label assets.
Proof.
  unfold enumerate. rewrite <- (map_map snd asset_label).
  now rewrite map_snd_combine by (now rewrite length_seq).
Qed.

Lemma last_occ_combine (k : label) (assets : list Asset) (s o : nat)
    (a : Asset) :
  nth_error assets o = Some a -> asset_label a = k ->
  (forall o' a',
     o < o' -> nth_error assets o' = Some a' -> asset_label a' <> k) ->
  last_occ k (combine (seq s (length assets)) assets) = Some (s + o, a).
Proof.
  revert s o. induction assets as [|x assets IH]; intros s o Hnth Hid Hlast.
  - destruct o; discriminate.
  - cbn [length seq combine last_occ]. destruct o as [|o].
    + injection Hnth as ->.
      assert (Hnone : last_occ k (combine (seq (S s) (length assets)) assets)
                      = None).
      { apply last_occ_none. intros Hin. apply in_map_iff in Hin.
        destruct Hin as ([o' a'] & Hk & Hin). apply in_combine_r in Hin.
        apply In_nth_error in Hin. destruct Hin as [n Hn].
        apply (Hlast (S n) a'); [lia|exact Hn|now symmetry]. }
      rewrite Hnone. cbn [snd]. rewrite <- Hid, key_eqb_refl.
      now rewrite Nat.add_0_r.
    + rewrite (IH (S s) o); auto.
      * do 2 f_equal. lia.
      * intros o' a' Ho' Hn. apply (Hlast (S o') a'); [lia|exact Hn].
Qed.

(** The last occurrence of an identifier, by its position in the list. *)
Lemma last_occ_enumerate (k : label) (assets : list Asset) (o : nat)
    (a : Asset) :
  nth_error assets o = Some a -> asset_label a = k ->
  (forall o' a',
     o < o' -> nth_error assets o' = Some a' -> asset_label a' <> k) ->
  last_occ k (enumerate assets) = Some (o, a).
Proof. intros. unfold enumerate. now rewrite (@last_occ_combine k assets 0 o a). Qed.

(** ** The merged frame *)

Section Merged.
Variable prior : DataFrame.
Variable assets : list Asset.
Hypothesis Hcols : has_data_columns prior = true.

Let merged := frame_of_dict (crypto_dict_after prior assets).
Let items := enumerate assets.

Lemma merged_well_formed : well_formed merged = true.
Proof.
  apply frame_of_dict_well_formed. rewrite crypto_dict_after_keys.
  apply crypto_dict_before_nodup.
Qed.

Lemma merged_column (c : string) :
  In c (dict_keys (crypto_dict_before prior)) ->
  exists col0, dict_get c (crypto_dict_before prior) = Some col0
               /\ dict_get c (crypto_dict_after prior assets)
                  = Some (upd_columns items c col0).
Proof.
  intros Hc. apply dict_get_in in Hc.
  destruct (dict_get c (crypto_dict_before prior)) as [col0|] eqn:E;
    [|congruence].
  exists col0. split; [reflexivity|].
  now rewrite crypto_dict_after_get, E.
Qed.

Lemma merged_order_column :
  dict_get "Order" (df_columns merged)
  = Some (map (fun k => cell_of (dict_get k (upd_columns items "Order" [])))
              (df_index merged)).
Proof.
  unfold merged. rewrite frame_of_dict_columns_get, crypto_dict_after_get.
  now rewrite crypto_dict_before_get_order.
Qed.

Lemma merged_index_fetched (k : label) :
  In k (map asset_label assets) -> In k (df_index merged).
Proof.
  intros Hk. apply frame_of_dict_index_in.
  exists ("Order", upd_columns items "Order" []). split.
  - apply dict_get_in_pair.
    now rewrite crypto_dict_after_get, crypto_dict_before_get_order.
  - cbn [snd]. apply upd_columns_keys_in; [simpl; tauto|].
    right. unfold items. now rewrite enumerate_ids.
Qed.

Lemma merged_index_prior (k : label) :
  well_formed prior = true -> In k (df_index prior) ->
  In k (df_index merged).
Proof.
  intros Hwf Hk. apply frame_of_dict_index_in.
  assert (Hsym : In "Symbol" (dict_keys (crypto_dict_before prior))).
  { apply crypto_dict_before_merge_columns; [exact Hcols|simpl; tauto]. }
  destruct (@merged_column "Symbol" Hsym) as (col0 & Hget0 & Hget).
  exists ("Symbol", upd_columns items "Symbol" col0). split.
  - now apply dict_get_in_pair.
  - cbn [snd]. apply upd_columns_keys_in; [simpl; tauto|]. left.
    rewrite crypto_dict_before_get_other in Hget0 by discriminate.
    rewrite to_dict_well_formed in Hget0 by assumption.
    rewrite (dict_get_map_snd (fun vs : list cell => combine (df_index prior) vs))
      in Hget0.
    destruct (dict_get "Symbol" (df_columns prior)) as [vs|] eqn:E;
      [|discriminate].
    injection Hget0 as <-. unfold dict_keys. rewrite map_fst_combine.
    + exact Hk.
    + apply well_formed_spec in Hwf. destruct Hwf as (_ & _ & Hlen).
      rewrite Forall_forall in Hlen. symmetry.
      apply (Hlen ("Symbol", vs)). now apply dict_get_in_pair.
Qed.



(** The sequencer accepts the merged frame and keeps its cells. *)
Lemma merged_sorts :
  exists final,
    sort_cryptocurrencies merged = Ok final
    /\ (forall k c, c <> "Order" -> In k (df_index merged) ->
                    loc final k c = loc merged k c).
Proof.
  pose proof merged_order_column as Hord.
  eexists. split; [apply (@sort_cryptocurrencies_ok _ _ Hord)|].
  intros k c Hc Hk.
  apply (@loc_sorted merged _ _ k c merged_well_formed Hord); auto.
  apply (@sort_cryptocurrencies_ok _ _ Hord).
Qed.
End Merged.

(** The rows of the sorted merged frame are in the order of their ranks. *)
Lemma merged_order_keys (prior : DataFrame) (assets : list Asset) (k : label) :
  order_key (cell_of (dict_get k (upd_columns (enumerate assets) "Order" [])))
  = rank_of assets k.
Proof.
  unfold rank_of. rewrite upd_columns_get by (simpl; tauto).
  now destruct (last_occ k (enumerate assets)).
Qed.

Lemma final_index (prior : DataFrame) (assets : list Asset)
    (final : DataFrame) :
  sort_cryptocurrencies (frame_of_dict (crypto_dict_after prior assets))
  = Ok final ->
  let merged := frame_of_dict (crypto_dict_after prior assets) in
  let indexer := nargsort (map (rank_of assets) (df_index merged)) in
  Permutation indexer (seq 0 (length (df_index merged)))
  /\ df_index final = take indexer (df_index merged) ""
  /\ df_columns final
     = map (fun c => (fst c, take indexer (snd c) Null))
           (filter (fun c => negb (String.eqb (fst c) "Order"))
                   (df_columns merged))
  /\ StronglySorted (fun a b => key_le a b = true)
                    (map (rank_of assets) (df_index final)).
Proof.
  intros Hsort merged indexer.
  pose proof (merged_order_column prior assets) as Hord.
  fold merged in Hord, Hsort.
  rewrite (@sort_cryptocurrencies_ok _ _ Hord) in Hsort.
  rewrite map_map in Hsort.
  rewrite (map_ext _ (rank_of assets)) in Hsort
    by (intros k; apply (merged_order_keys prior)).
  fold indexer in Hsort. clearbody merged.
  injection Hsort as <-. cbn [df_index df_columns].
  assert (Hperm : Permutation indexer (seq 0 (length (df_index merged)))).
  { unfold indexer.
    rewrite <- (length_map (rank_of assets) (df_index merged)).
    apply nargsort_permutation. }
  repeat split; auto.
  rewrite <- (@take_map _ _ (rank_of assets) indexer (df_index merged) "" None).
  - apply nargsort_sorted.
  - now apply permutation_seq_bound.
Qed.

Lemma in_combine_seq {A : Type} (l : list A) (s o : nat) (a : A) :
  In (o, a) (combine (seq s (length l)) l) ->
  s <= o /\ nth_error l (o - s) = Some a.
Proof.
  revert s. induction l as [|x l IH]; intros s; simpl; [tauto|].
  intros [[= <- <-]|H].
  - rewrite Nat.sub_diag. auto.
  - apply IH in H. destruct H as [Hle Hnth]. split; [lia|].
    replace (o - s) with (S (o - S s)) by lia. exact Hnth.
Qed.

(** Two labels of the fetched list never have the same rank. *)
Lemma rank_of_injective (assets : list Asset) (k k' : label) (r : Z) :
  rank_of assets k = Some r -> rank_of assets k' = Some r -> k = k'.
Proof.
  unfold rank_of.
  destruct (last_occ k (enumerate assets)) as [[o a]|] eqn:E;
    [|discriminate].
  destruct (last_occ k' (enumerate assets)) as [[o' a']|] eqn:E';
    [|discriminate].
  simpl. intros [= <-] [= Ho]. apply Nat2Z.inj in Ho. subst o'.
  apply last_occ_some in E, E'. destruct E as [Hin <-], E' as [Hin' <-].
  apply in_combine_seq in Hin, Hin'. simpl in *.
  destruct Hin as [_ Hin], Hin' as [_ Hin']. congruence.
Qed.

(** The [Order] column of a merged frame holds positions and missing values
    only. *)
Lemma merged_order_cells (assets : list Asset) (idx : list label) :
  forallb is_order_cell
    (map (fun k => cell_of (dict_get k
                              (upd_columns (enumerate assets) "Order" [])))
         idx) = true.
Proof.
  apply forallb_forall. intros c Hc. apply in_map_iff in Hc.
  destruct Hc as (k & <- & _). rewrite upd_columns_get by (simpl; tauto).
  now destruct (last_occ k (enumerate assets)).
Qed.

(** The sequencer gives for the frame that [from_dict] builds what it gives
    for the frame of the dictionary, with the dtypes of the columns. *)
Lemma sorts_with_dtypes (prior : DataFrame) (assets : list Asset) :
  exists raw_final,
    sort_cryptocurrencies (frame_of_dict (crypto_dict_after prior assets))
    = Ok raw_final
    /\ sort_cryptocurrencies (from_dict (crypto_dict_after prior assets))
       = Ok (with_dtypes raw_final)
    /\ (forall k c, c <> "Order" ->
          In k (df_index (frame_of_dict (crypto_dict_after prior assets))) ->
          loc raw_final k c
          = loc (frame_of_dict (crypto_dict_after prior assets)) k c).
Proof.
  destruct (merged_sorts prior assets) as (raw_final & Hsort & Hloc).
  exists raw_final. split; [exact Hsort|]. split; [|exact Hloc].
  apply (sort_with_dtypes _ _ _ (merged_well_formed prior assets)
           (merged_order_column prior assets) Hsort).
Qed.

(** The merge returns the frame of the dictionary with the dtypes of its
    columns, and the sequencer accepts it. *)
Lemma merged_with_dtypes (prior : DataFrame) (assets : list Asset) :
  has_data_columns prior = true ->
  exists raw_final,
    upsert_cryptocurrencies prior assets
    = Ok (from_dict (crypto_dict_after prior assets))
    /\ sort_cryptocurrencies (frame_of_dict (crypto_dict_after prior assets))
       = Ok raw_final
    /\ sort_cryptocurrencies (from_dict (crypto_dict_after prior assets))
       = Ok (with_dtypes raw_final)
    /\ (forall k c, c <> "Order" ->
          In k (df_index (frame_of_dict (crypto_dict_after prior assets))) ->
          loc raw_final k c
          = loc (frame_of_dict (crypto_dict_after prior assets)) k c).
Proof.
  intros Hcols.
  destruct (sorts_with_dtypes prior assets)
    as (raw_final & Hsort & Hsort' & Hloc).
  exists raw_final. split; [now apply upsert_ok|]. auto.
Qed.

Lemma stores_with_dtypes (df : DataFrame) (k : label) (c : string) (v : cell) :
  loc df k c = Some v -> stores (with_dtypes df) k c v.
Proof. apply loc_with_dtypes. Qed.


(** ** The merge and the sequencer: claims *)







Lemma rank_of_none (assets : list Asset) (k : label) :
  rank_of assets k = None <-> ~ In k (map asset_label assets).
Proof.
  unfold rank_of. rewrite <- enumerate_ids, <- last_occ_none.
  destruct (last_occ k (enumerate assets)); simpl; split; congruence.
Qed.





(** An item assignment that raises nothing keeps the column names. *)
Lemma setitem2_keys (col : string) (index : label) (v : cell)
    (d d' : dict string (dict label cell)) :
  setitem2 col index v d = Ok d' -> dict_keys d' = dict_keys d.
Proof.
  unfold setitem2. destruct (dict_get col d) as [inner|] eqn:E;
    [|discriminate].
  intros [= <-]. apply dict_set_in. now apply dict_get_some_in in E.
Qed.

Lemma data_column_not_order (c : string) : In c DATA_COLUMNS -> c <> "Order".
Proof.
  simpl. intros [<-|[<-|[<-|[<-|[<-|[]]]]]]; discriminate.
Qed.

Lemma setitem2_ok_in (col : string) (index : label) (v : cell)
    (d d' : dict string (dict label cell)) :
  setitem2 col index v d = Ok d' -> In col (dict_keys d).
Proof.
  unfold setitem2. destruct (dict_get col d) as [inner|] eqn:E;
    [|discriminate].
  intros _. now apply dict_get_some_in in E.
Qed.

(** The merge of one asset raises nothing only when the dictionary has the
    six columns it writes to. *)
Lemma update_one_ok_columns (d d' : dict string (dict label cell)) (order : nat)
    (asset : Asset) :
  update_crypto_dict_with_messari_asset d order asset = Ok d' ->
  incl MERGE_COLUMNS (dict_keys d).
Proof.
  unfold update_crypto_dict_with_messari_asset. intros H.
  apply bind_ok in H. destruct H as (d1 & H1 & H).
  apply bind_ok in H. destruct H as (d2 & H2 & H).
  apply bind_ok in H. destruct H as (d3 & H3 & H).
  apply bind_ok in H. destruct H as (d4 & H4 & H).
  apply bind_ok in H. destruct H as (d5 & H5 & H6).
  pose proof (setitem2_keys _ _ _ _ _ H1) as K1.
  pose proof (setitem2_keys _ _ _ _ _ H2) as K2.
  pose proof (setitem2_keys _ _ _ _ _ H3) as K3.
  pose proof (setitem2_keys _ _ _ _ _ H4) as K4.
  pose proof (setitem2_keys _ _ _ _ _ H5) as K5.
  apply setitem2_ok_in in H1, H2, H3, H4, H5, H6.
  rewrite K5, K4, K3, K2, K1 in H6. rewrite K4, K3, K2, K1 in H5.
  rewrite K3, K2, K1 in H4. rewrite K2, K1 in H3. rewrite K1 in H2.
  intros c Hc. simpl in Hc.
  destruct Hc as [<-|[<-|[<-|[<-|[<-|[<-|[]]]]]]]; assumption.
Qed.

Lemma crypto_dict_after_nil (df : DataFrame) :
  crypto_dict_after df [] = crypto_dict_before df.
Proof.
  unfold crypto_dict_after. cbn [enumerate length seq combine].
  rewrite <- (map_id (crypto_dict_before df)) at 2.
  apply map_ext. now intros [c x].
Qed.

(** The merge raises nothing exactly when there is nothing to merge or the
    frame has the data columns, and then this is what it returns. *)
Lemma upsert_inv (prior : DataFrame) (assets : list Asset)
    (merged : DataFrame) :
  upsert_cryptocurrencies prior assets = Ok merged ->
  merged = from_dict (crypto_dict_after prior assets)
  /\ (assets = [] \/ has_data_columns prior = true).
Proof.
  destruct assets as [|a assets].
  - unfold upsert_cryptocurrencies. cbn [enumerate length seq combine].
    cbn [update_all bind]. intros [= <-].
    rewrite crypto_dict_after_nil. auto.
  - intros H. assert (Hcols : has_data_columns prior = true).
    { unfold upsert_cryptocurrencies in H.
      apply bind_ok in H. destruct H as (d & Hd & _).
      cbn [enumerate length seq combine update_all] in Hd.
      apply bind_ok in Hd. destruct Hd as (d1 & H1 & _).
      apply update_one_ok_columns in H1.
      apply has_data_columns_spec. intros c Hc.
      assert (Hin : In c (dict_keys (crypto_dict_before prior))).
      { apply H1. now right. }
      apply crypto_dict_before_keys in Hin.
      destruct Hin as [->|Hin]; [|exact Hin].
      now apply data_column_not_order in Hc. }
    rewrite (upsert_ok _ _ Hcols) in H. injection H as <-. auto.
Qed.

Lemma upsert_ok_gen (prior : DataFrame) (assets : list Asset) :
  assets = [] \/ has_data_columns prior = true ->
  upsert_cryptocurrencies prior assets
  = Ok (from_dict (crypto_dict_after prior assets)).
Proof.
  intros [->|H]; [|now apply upsert_ok].
  now rewrite crypto_dict_after_nil.
Qed.

Lemma sorted_has_no_order (df sorted : DataFrame) :
  sort_cryptocurrencies df = Ok sorted ->
  ~ In "Order" (map fst (df_columns sorted)).
Proof.
  unfold sort_cryptocurrencies. intros H.
  apply bind_ok in H. destruct H as (df1 & _ & H).
  unfold drop_column in H.
  destruct (existsb _ _); [|discriminate]. injection H as <-.
  cbn [df_columns]. intros Hin. apply in_map_iff in Hin.
  destruct Hin as ([c x] & Hc & Hin). apply filter_In in Hin.
  simpl in *. subst c. destruct Hin as [_ Hin]. discriminate.
Qed.

(** C5. On a frame whose [Order] column holds positions and missing values
    the sequencer raises nothing: it takes the rows in the order given by the
    indexer, a permutation of the positions along which the order keys ascend
    with the missing ones last, and it returns no [Order] column.  The merge
    always hands it such a frame, and the frame that the script saves has no
    [Order] column. *)
Theorem sequencer_orders_and_strips
    (df : DataFrame) (vs : list cell)
    (Hord : dict_get "Order" (df_columns df) = Some vs)
    (Hcells : forallb is_order_cell vs = true) :
  let indexer := nargsort (map order_key vs) in
  (exists sorted,
     sort_cryptocurrencies df = Ok sorted
     /\ df_index sorted = take indexer (df_index df) ""
     /\ (forall c ws, c <> "Order" ->
           dict_get c (df_columns df) = Some ws ->
           dict_get c (df_columns sorted) = Some (take indexer ws Null))
     /\ ~ In "Order" (map fst (df_columns sorted)))
  /\ Permutation indexer (seq 0 (length vs))
  /\ StronglySorted (fun a b => key_le a b = true)
                    (take indexer (map order_key vs) None)
  /\ (forall prior assets merged,
        upsert_cryptocurrencies prior assets = Ok merged ->
        exists ws final,
          dict_get "Order" (df_columns merged) = Some ws
          /\ forallb is_order_cell ws = true
          /\ sort_cryptocurrencies merged = Ok final)
  /\ (forall argv fuel session sched disk fs saved,
        exit (main argv fuel session sched disk fs) = Some (Ok saved) ->
        ~ In "Order" (map fst (df_columns saved))).
Proof.
  intros indexer. split; [|split; [|split; [|split]]].
  - eexists. split; [apply (sort_cryptocurrencies_ok df vs Hord)|].
    cbn [df_index df_columns]. split; [reflexivity|]. split.
    + intros c ws Hc Hws.
      rewrite (dict_get_map_snd (fun ws => take indexer ws Null)).
      rewrite dict_get_filter_neq by assumption. now rewrite Hws.
    + exact (sorted_has_no_order df _ (sort_cryptocurrencies_ok df vs Hord)).
  - unfold indexer. rewrite <- (length_map order_key vs).
    apply nargsort_permutation.
  - apply nargsort_sorted.
  - intros prior assets merged Hup.
    apply upsert_inv in Hup. destruct Hup as [-> _].
    assert (Hws : dict_get "Order"
                    (df_columns (from_dict (crypto_dict_after prior assets)))
                  = Some (maybe_convert_objects
                            (map (fun k => cell_of
                                    (dict_get k (upd_columns (enumerate assets)
                                                   "Order" [])))
                                 (df_index (frame_of_dict
                                    (crypto_dict_after prior assets)))))).
    { unfold from_dict. rewrite with_dtypes_get.
      now rewrite (merged_order_column prior assets). }
    eexists. eexists. split; [exact Hws|]. split.
    + rewrite maybe_convert_objects_order_cells. apply merged_order_cells.
    + apply (sort_cryptocurrencies_ok _ _ Hws).
  - intros argv fuel session sched disk fs saved Hexit.
    apply main_returns in Hexit.
    destruct Hexit as (assets & merged & _ & _ & Hs & _).
    now apply (sorted_has_no_order merged).
Qed.

Lemma sequencer_orders_and_strips_witness :
  exists sorted,
    sort_cryptocurrencies unsorted_table = Ok sorted
    /\ df_index sorted = [LStr "id-eth"; LStr "id-btc"; LStr "id-old"]
    /\ dict_get "Symbol" (df_columns sorted)
       = Some [Str "ETH"; Str "BTC"; Str "OLD"]
    /\ ~ In "Order" (map fst (df_columns sorted)).
Proof.
  destruct (sequencer_orders_and_strips unsorted_table [Null; Int 1; Int 0]
              eq_refl eq_refl) as [(sorted & Hsort & Hidx & Hcol & Hno) _].
  exists sorted. split; [exact Hsort|]. split; [rewrite Hidx; reflexivity|].
  split; [|exact Hno].
  rewrite (Hcol "Symbol" [Str "OLD"; Str "BTC"; Str "ETH"]);
    [reflexivity|discriminate|reflexivity].
Defined.

(** ** Running the merge again *)

Lemma dict_get_combine_map {V : Type} (f : label -> V) (k : label)
    (l : list label) :
  In k l -> dict_get k (combine l (map f l)) = Some (f k).
Proof.
  induction l as [|x l IH]; simpl; [tauto|].
  intros H. destruct (key_eqb_spec k x) as [->|Hne]; [reflexivity|].
  apply IH. destruct H; congruence.
Qed.

Lemma dict_get_app {V : Type} (k : string) (d1 d2 : dict string V) :
  dict_get k (d1 ++ d2)
  = match dict_get k d1 with
    | Some v => Some v
    | None => dict_get k d2
    end.
Proof.
  induction d1 as [|[k0 v0] d1 IH]; simpl; [reflexivity|].
  now destruct (key_eqb k k0).
Qed.

Lemma filter_all {A : Type} (f : A -> bool) (l : list A) :
  (forall x, In x l -> f x = true) -> filter f l = l.
Proof.
  intros H. apply forallb_filter_id. now apply forallb_forall.
Qed.

Section SecondRun.
Variable assets : list Asset.
Variable idx : list label.
Variable cols : dict string (dict label cell).

Let items := enumerate assets.
Let g (col : dict label cell) (k : label) : cell := cell_of (dict_get k col).
Let order := upd_columns items "Order" [].

(** The frame of a first run: the labels [idx], sorted by rank, and one
    column for each merged dictionary of [cols]. *)
Let final : DataFrame :=
  {| df_index := idx;
     df_columns := map (fun cx => (fst cx, map (g (snd cx)) idx)) cols |}.

Hypothesis Hidx : NoDup idx.
Hypothesis Hids : incl (map asset_label assets) idx.
Hypothesis Hnames : NoDup (dict_keys cols).
Hypothesis Hno_order : ~ In "Order" (dict_keys cols).
Hypothesis Hdata : assets = [] \/ incl DATA_COLUMNS (dict_keys cols).
Hypothesis Hrows : cols = [] -> idx = [].
Hypothesis Hmerged :
  forall cx, In cx cols ->
             exists col0, snd cx = upd_columns items (fst cx) col0.
Hypothesis Hsorted :
  StronglySorted (fun a b => key_le a b = true) (map (rank_of assets) idx).

Lemma final_names : map fst (df_columns final) = dict_keys cols.
Proof. unfold final. cbn [df_columns]. now rewrite map_map. Qed.

Lemma final_well_formed : well_formed final = true.
Proof.
  apply well_formed_spec. split; [exact Hidx|]. split.
  - now rewrite final_names.
  - unfold final. cbn [df_columns df_index]. apply Forall_map.
    apply Forall_forall. intros cx _. cbn [snd]. apply length_map.
Qed.

Lemma second_upsert_ok :
  upsert_cryptocurrencies final assets
  = Ok (from_dict (crypto_dict_after final assets)).
Proof.
  apply upsert_ok_gen. destruct Hdata as [H|H]; [now left|right].
  apply has_data_columns_spec. now rewrite final_names.
Qed.

Lemma to_dict_final :
  to_dict final
  = map (fun cx => (fst cx, combine idx (map (g (snd cx)) idx))) cols.
Proof.
  rewrite to_dict_well_formed by apply final_well_formed.
  unfold final. cbn [df_columns df_index]. now rewrite map_map.
Qed.

Lemma to_dict_final_keys : dict_keys (to_dict final) = dict_keys cols.
Proof. rewrite to_dict_final. unfold dict_keys. now rewrite map_map. Qed.

Lemma crypto_dict_before_final :
  crypto_dict_before final = to_dict final ++ [("Order", [])].
Proof.
  unfold crypto_dict_before. apply dict_set_notin.
  intros H. apply Hno_order. rewrite <- to_dict_final_keys. exact H.
Qed.

Lemma items_ids :
  map (fun oa => asset_label (snd oa)) items = map asset_label assets.
Proof. apply enumerate_ids. Qed.

(** The merge finds every column of [final] as it would leave it. *)
Lemma column_fixed (cx : string * dict label cell) :
  In cx cols ->
  upd_columns items (fst cx) (combine idx (map (g (snd cx)) idx))
  = combine idx (map (g (snd cx)) idx).
Proof.
  intros Hcx.
  assert (Hkeys : dict_keys (combine idx (map (g (snd cx)) idx)) = idx).
  { unfold dict_keys. apply map_fst_combine. now rewrite length_map. }
  destruct (in_dec key_dec (fst cx) MERGE_COLUMNS) as [Hm|Hm];
    [|now apply upd_columns_other].
  apply dict_ext.
  - apply upd_columns_nodup. now rewrite Hkeys.
  - apply upd_columns_keys_same. rewrite Hkeys, items_ids. exact Hids.
  - intros k _. rewrite upd_columns_get by assumption.
    destruct (last_occ k items) as [oa|] eqn:E; [|reflexivity].
    assert (Hk : In k idx).
    { apply Hids. rewrite <- items_ids. apply last_occ_some in E.
      destruct E as [Hin <-]. now apply (in_map (fun oa => asset_label (snd oa))). }
    rewrite dict_get_combine_map by assumption.
    destruct (Hmerged cx Hcx) as [col0 Hcol0]. unfold g.
    rewrite Hcol0, upd_columns_get, E by assumption.
    destruct (field_of_cases (fst cx)) as [[_ Hsome]|[Hout _]];
      [|contradiction].
    specialize (Hsome oa). now destruct (field_of (fst cx) oa).
Qed.

Lemma crypto_dict_after_final :
  crypto_dict_after final assets = to_dict final ++ [("Order", order)].
Proof.
  unfold crypto_dict_after. rewrite crypto_dict_before_final, map_app.
  cbn [map fst snd]. fold items. fold order. f_equal.
  rewrite to_dict_final, map_map. apply map_ext_in.
  intros cx Hcx. cbn [fst snd]. f_equal. now apply column_fixed.
Qed.

Lemma order_keys_incl : incl (dict_keys order) idx.
Proof.
  intros k Hk. unfold order in Hk.
  apply upd_columns_keys_in in Hk; [|simpl; tauto].
  destruct Hk as [[]|Hk]. apply Hids. now rewrite <- items_ids.
Qed.

Lemma second_merge_index :
  df_index (frame_of_dict (crypto_dict_after final assets)) = idx.
Proof.
  unfold frame_of_dict. cbn [df_index].
  rewrite crypto_dict_after_final, to_dict_final, map_app, map_map.
  cbn [map snd]. rewrite concat_app. cbn [concat]. rewrite app_nil_r.
  pose proof order_keys_incl as Hord.
  destruct cols as [|cx0 cols0] eqn:Ecols.
  { rewrite (Hrows eq_refl) in *. cbn [map concat app].
    destruct (dict_keys order) as [|k ks]; [reflexivity|].
    destruct (Hord k (or_introl eq_refl)). }
  cbn [map concat snd]. unfold dict_keys at 1.
  rewrite map_fst_combine by now rewrite length_map.
  rewrite <- app_assoc. apply unique_app_incl; [exact Hidx|].
  apply incl_app; [|exact Hord].
  intros k Hk. apply in_concat in Hk. destruct Hk as (keys & Hkeys & Hk).
  apply in_map_iff in Hkeys. destruct Hkeys as (cx & <- & _).
  unfold dict_keys in Hk. cbn [snd] in Hk.
  now rewrite map_fst_combine in Hk by now rewrite length_map.
Qed.

Lemma second_merge_columns :
  df_columns (frame_of_dict (crypto_dict_after final assets))
  = df_columns final ++ [("Order", map (g order) idx)].
Proof.
  pose proof second_merge_index as Hi. unfold frame_of_dict in *.
  cbn [df_index df_columns] in *. rewrite Hi.
  rewrite crypto_dict_after_final, to_dict_final, map_app, map_map.
  cbn [map fst snd]. f_equal. unfold final. cbn [df_columns].
  apply map_ext. intros cx. cbn [fst snd]. f_equal.
  apply map_ext_in. intros k Hk.
  now rewrite dict_get_combine_map.
Qed.

Lemma second_merge_order :
  dict_get "Order"
    (df_columns (frame_of_dict (crypto_dict_after final assets)))
  = Some (map (g order) idx).
Proof.
  rewrite second_merge_columns, dict_get_app.
  replace (dict_get "Order" (df_columns final))
    with (@None (list cell)).
  - reflexivity.
  - symmetry. apply dict_get_none. unfold dict_keys.
    now rewrite final_names.
Qed.

(** The second run returns the frame of the first. *)
Lemma second_run_returns_final :
  upsert_cryptocurrencies final assets
  = Ok (from_dict (crypto_dict_after final assets))
  /\ sort_cryptocurrencies (frame_of_dict (crypto_dict_after final assets))
     = Ok final.
Proof.
  split; [apply second_upsert_ok|].
  pose proof second_merge_order as Hord.
  rewrite (sort_cryptocurrencies_ok _ _ Hord).
  assert (Hkeys : map order_key (map (g order) idx)
                  = map (rank_of assets) idx).
  { rewrite map_map. apply map_ext. intros k.
    apply (merged_order_keys final). }
  rewrite Hkeys, nargsort_of_sorted
    by (now apply StronglySorted_Sorted).
  rewrite length_map, second_merge_index, second_merge_columns.
  rewrite take_seq, filter_app. cbn [filter fst].
  rewrite String.eqb_refl. cbn [negb]. rewrite app_nil_r.
  rewrite filter_all.
  - unfold final. cbn [df_columns df_index]. do 2 f_equal.
    rewrite map_map. apply map_ext. intros cx. cbn [fst snd]. f_equal.
    rewrite <- (length_map (g (snd cx)) idx). apply take_seq.
  - intros [c ws] Hc. cbn [fst]. apply negb_true_iff.
    destruct (String.eqb_spec c "Order") as [->|]; [|reflexivity].
    exfalso. apply Hno_order. rewrite <- final_names.
    now apply (in_map fst) in Hc.
Qed.

(** The same frame with the dtypes of its columns, as the first run returns
    it, and the dictionaries the merge makes of its columns. *)
Let typed : DataFrame := with_dtypes final.
Let values (cx : string * dict label cell) : list cell := map (g (snd cx)) idx.
Let merged_again (cx : string * dict label cell) : dict label cell :=
  upd_columns items (fst cx)
              (combine idx (maybe_convert_objects (values cx))).

Lemma typed_well_formed : well_formed typed = true.
Proof.
  unfold typed. rewrite with_dtypes_well_formed. apply final_well_formed.
Qed.

Lemma to_dict_typed :
  to_dict typed
  = map (fun cx => (fst cx, combine idx (maybe_convert_objects (values cx))))
        cols.
Proof.
  rewrite to_dict_well_formed by apply typed_well_formed.
  unfold typed, with_dtypes, final. cbn [df_columns df_index].
  now rewrite !map_map.
Qed.

Lemma to_dict_typed_keys : dict_keys (to_dict typed) = dict_keys cols.
Proof. rewrite to_dict_typed. unfold dict_keys. now rewrite map_map. Qed.

Lemma crypto_dict_before_typed :
  crypto_dict_before typed = to_dict typed ++ [("Order", [])].
Proof.
  unfold crypto_dict_before. apply dict_set_notin.
  intros H. apply Hno_order. rewrite <- to_dict_typed_keys. exact H.
Qed.

Lemma crypto_dict_after_typed :
  crypto_dict_after typed assets
  = map (fun cx => (fst cx, merged_again cx)) cols ++ [("Order", order)].
Proof.
  unfold crypto_dict_after. rewrite crypto_dict_before_typed, map_app.
  cbn [map fst snd]. fold items. fold order. f_equal.
  rewrite to_dict_typed, map_map. reflexivity.
Qed.

Lemma converted_keys (cx : string * dict label cell) :
  dict_keys (combine idx (maybe_convert_objects (values cx))) = idx.
Proof.
  unfold dict_keys. apply map_fst_combine.
  rewrite maybe_convert_objects_length. unfold values. now rewrite length_map.
Qed.

Lemma merged_again_keys (cx : string * dict label cell) :
  dict_keys (merged_again cx) = idx.
Proof.
  unfold merged_again.
  destruct (in_dec key_dec (fst cx) MERGE_COLUMNS) as [Hm|Hm].
  - rewrite upd_columns_keys_same; [apply converted_keys|].
    rewrite converted_keys, items_ids. exact Hids.
  - rewrite upd_columns_other by assumption. apply converted_keys.
Qed.

Lemma typed_merge_index :
  df_index (frame_of_dict (crypto_dict_after typed assets)) = idx.
Proof.
  unfold frame_of_dict. cbn [df_index].
  rewrite crypto_dict_after_typed, map_app, map_map.
  cbn [map snd]. rewrite concat_app. cbn [concat]. rewrite app_nil_r.
  pose proof order_keys_incl as Hord.
  destruct cols as [|cx0 cols0] eqn:Ecols.
  { rewrite (Hrows eq_refl) in *. cbn [map concat app].
    destruct (dict_keys order) as [|k ks]; [reflexivity|].
    destruct (Hord k (or_introl eq_refl)). }
  cbn [map concat snd]. rewrite merged_again_keys.
  rewrite <- app_assoc. apply unique_app_incl; [exact Hidx|].
  apply incl_app; [|exact Hord].
  intros k Hk. apply in_concat in Hk. destruct Hk as (keys & Hkeys & Hk).
  apply in_map_iff in Hkeys. destruct Hkeys as (cx & <- & _).
  cbn [snd] in Hk. now rewrite merged_again_keys in Hk.
Qed.

Lemma typed_merge_columns :
  df_columns (frame_of_dict (crypto_dict_after typed assets))
  = map (fun cx => (fst cx, map (g (merged_again cx)) idx)) cols
    ++ [("Order", map (g order) idx)].
Proof.
  pose proof typed_merge_index as Hi. unfold frame_of_dict in *.
  cbn [df_index df_columns] in *. rewrite Hi.
  rewrite crypto_dict_after_typed, map_app, map_map.
  reflexivity.
Qed.

Lemma converted_get (cx : string * dict label cell) (k : label) :
  In k idx ->
  g (combine idx (maybe_convert_objects (values cx))) k
  = if infers_float64 (values cx) then as_float (g (snd cx) k)
    else g (snd cx) k.
Proof.
  intros Hk. unfold g, maybe_convert_objects, values.
  destruct (infers_float64 (map (g (snd cx)) idx)).
  - rewrite map_map.
    now rewrite (dict_get_combine_map (fun x => as_float (g (snd cx) x))).
  - now rewrite (dict_get_combine_map (g (snd cx))).
Qed.

(** A cell after the second merge is the value of the first merge, as it
    is or converted. *)
Lemma merged_again_get (cx : string * dict label cell) (k : label) :
  In cx cols -> In k idx ->
  g (merged_again cx) k = g (snd cx) k
  \/ g (merged_again cx) k
     = if infers_float64 (values cx) then as_float (g (snd cx) k)
       else g (snd cx) k.
Proof.
  intros Hcx Hk.
  destruct (in_dec key_dec (fst cx) MERGE_COLUMNS) as [Hm|Hm].
  - unfold g at 1 3. unfold merged_again.
    rewrite upd_columns_get by assumption.
    destruct (last_occ k items) as [oa|] eqn:E.
    + left. destruct (Hmerged cx Hcx) as [col0 Hcol0]. unfold g.
      now rewrite Hcol0, upd_columns_get, E by assumption.
    + right. now apply converted_get.
  - right. unfold merged_again. rewrite upd_columns_other by assumption.
    now apply converted_get.
Qed.

(** Merging the fetched list into the typed frame and into the frame of
    the Python values gives one frame. *)
Lemma typed_merge_same :
  from_dict (crypto_dict_after typed assets)
  = from_dict (crypto_dict_after final assets).
Proof.
  unfold from_dict, with_dtypes. f_equal.
  - now rewrite typed_merge_index, second_merge_index.
  - rewrite typed_merge_columns, second_merge_columns. unfold final.
    cbn [df_columns]. rewrite !map_app, !map_map. f_equal.
    apply map_ext_in. intros cx Hcx. cbn [fst snd]. f_equal.
    apply (maybe_convert_objects_mixed (g (snd cx)) (g (merged_again cx))).
    intros k Hk. now apply merged_again_get.
Qed.

(** The second run returns the typed frame of the first. *)
Lemma second_run_returns_typed :
  upsert_cryptocurrencies typed assets
  = Ok (from_dict (crypto_dict_after typed assets))
  /\ sort_cryptocurrencies (from_dict (crypto_dict_after typed assets))
     = Ok typed.
Proof.
  split.
  - apply upsert_ok_gen. destruct Hdata as [H|H]; [now left|right].
    unfold typed. rewrite with_dtypes_has_data_columns.
    apply has_data_columns_spec. now rewrite final_names.
  - rewrite typed_merge_same. unfold from_dict, typed.
    apply (sort_with_dtypes _ _ (map (g order) idx)).
    + apply frame_of_dict_well_formed. rewrite crypto_dict_after_keys.
      apply crypto_dict_before_nodup.
    + apply second_merge_order.
    + apply second_run_returns_final.
Qed.
End SecondRun.

Lemma dict_keys_filter {V : Type} (f : string -> bool) (d : dict string V) :
  dict_keys (filter (fun cx => f (fst cx)) d) = filter f (dict_keys d).
Proof.
  induction d as [|[c x] d IH]; simpl; [reflexivity|].
  destruct (f c); simpl; now rewrite IH.
Qed.

Lemma dict_get_of_pair {V : Type} (c : string) (v : V) (d : dict string V) :
  NoDup (dict_keys d) -> In (c, v) d -> dict_get c d = Some v.
Proof.
  induction d as [|[c0 v0] d IH]; simpl; [tauto|].
  intros Hnd Hin. inversion Hnd as [|? ? Hout Hnd']; subst.
  destruct Hin as [[= -> ->]|Hin]; [now rewrite key_eqb_refl|].
  destruct (key_eqb_spec c c0) as [->|Hne]; [|now apply IH].
  exfalso. apply Hout. now apply (in_map fst) in Hin.
Qed.

(** The frame of a first run has the shape that a second run leaves as it
    is. *)
Lemma first_run_shape (prior : DataFrame) (assets : list Asset)
    (final : DataFrame) :
  assets = [] \/ has_data_columns prior = true ->
  sort_cryptocurrencies (frame_of_dict (crypto_dict_after prior assets))
  = Ok final ->
  let cols := filter (fun cx => negb (String.eqb (fst cx) "Order"))
                     (crypto_dict_after prior assets) in
  final
  = {| df_index := df_index final;
       df_columns :=
         map (fun cx => (fst cx,
                         map (fun k => cell_of (dict_get k (snd cx)))
                             (df_index final)))
             cols |}
  /\ NoDup (df_index final)
  /\ incl (map asset_label assets) (df_index final)
  /\ NoDup (dict_keys cols)
  /\ ~ In "Order" (dict_keys cols)
  /\ (assets = [] \/ incl DATA_COLUMNS (dict_keys cols))
  /\ (cols = [] -> df_index final = [])
  /\ (forall cx, In cx cols ->
        exists col0,
          snd cx = upd_columns (enumerate assets) (fst cx) col0)
  /\ StronglySorted (fun a b => key_le a b = true)
                    (map (rank_of assets) (df_index final)).
Proof.
  intros Hcols Hsort cols.
  destruct (final_index prior assets final Hsort)
    as (Hperm & Hidx & Hcolumns & Hsorted).
  set (merged := frame_of_dict (crypto_dict_after prior assets)) in *.
  set (indexer := nargsort (map (rank_of assets) (df_index merged))) in *.
  assert (Hp : Permutation (df_index final) (df_index merged)).
  { rewrite Hidx. now apply take_permutation. }
  assert (Hkeys : dict_keys cols
                  = filter (fun c => negb (String.eqb c "Order"))
                           (dict_keys (crypto_dict_before prior))).
  { unfold cols.
    rewrite (dict_keys_filter (fun c => negb (String.eqb c "Order"))).
    now rewrite crypto_dict_after_keys. }
  assert (Hdata : assets = [] \/ incl DATA_COLUMNS (dict_keys cols)).
  { destruct Hcols as [H|H]; [now left|right].
    intros c Hc. rewrite Hkeys. apply filter_In. split.
    - apply crypto_dict_before_merge_columns; [exact H|]. now right.
    - apply negb_true_iff, key_eqb_neq. now apply data_column_not_order. }
  split; [|split; [|split; [|split; [|split; [|split; [|split; [|split]]]]]]].
  - destruct final as [fidx fcols]. cbn [df_index df_columns] in *.
    f_equal. rewrite Hcolumns. unfold merged at 1, frame_of_dict.
    cbn [df_columns].
    change (unique _) with (df_index merged).
    rewrite (filter_map_fst (fun c => negb (String.eqb c "Order"))
               (fun col => map (fun k => cell_of (dict_get k col))
                               (df_index merged))).
    fold cols. rewrite map_map. apply map_ext. intros cx. cbn [fst snd].
    f_equal. rewrite Hidx.
    apply take_map. now apply permutation_seq_bound.
  - apply (Permutation_NoDup (Permutation_sym Hp)).
    apply frame_of_dict_index_nodup.
  - intros k Hk. apply (Permutation_in _ (Permutation_sym Hp)).
    now apply merged_index_fetched.
  - rewrite Hkeys. apply NoDup_filter, crypto_dict_before_nodup.
  - rewrite Hkeys. intros H. apply filter_In in H. destruct H as [_ H].
    discriminate.
  - exact Hdata.
  - intros Hnil.
    destruct Hdata as [->|Hd];
      [|rewrite Hnil in Hd; destruct (Hd "Symbol"); simpl; tauto].
    assert (Hempty : df_index merged = []).
    { destruct (df_index merged) as [|k ks] eqn:E; [reflexivity|].
      assert (Hk : In k (df_index merged)) by (rewrite E; now left).
      apply frame_of_dict_index_in in Hk. destruct Hk as ([c col] & Hin & Hk).
      cbn [snd] in Hk. rewrite crypto_dict_after_nil in Hin.
      destruct (key_eqb_spec c "Order") as [->|Hne].
      - apply dict_get_of_pair in Hin; [|apply crypto_dict_before_nodup].
        rewrite crypto_dict_before_get_order in Hin.
        injection Hin as <-. destruct Hk.
      - assert (Hc : In (c, col) cols).
        { unfold cols. rewrite crypto_dict_after_nil. apply filter_In.
          split; [exact Hin|]. cbn [fst]. apply negb_true_iff.
          now apply key_eqb_neq. }
        rewrite Hnil in Hc. destruct Hc. }
    rewrite Hempty in Hp. apply Permutation_sym in Hp.
    now apply Permutation_nil in Hp.
  - intros cx Hcx. unfold cols in Hcx. apply filter_In in Hcx.
    destruct Hcx as [Hcx _]. unfold crypto_dict_after in Hcx.
    apply in_map_iff in Hcx. destruct Hcx as (c0 & <- & _).
    cbn [fst snd]. eauto.
  - exact Hsorted.
Qed.

(** Merging and sorting the same fetched list into the result of a first
    run gives that result again. *)
Lemma pipeline_idempotent (prior : DataFrame) (assets : list Asset)
    (merged final : DataFrame) :
  upsert_cryptocurrencies prior assets = Ok merged ->
  sort_cryptocurrencies merged = Ok final ->
  upsert_cryptocurrencies final assets
  = Ok (from_dict (crypto_dict_after final assets))
  /\ sort_cryptocurrencies (from_dict (crypto_dict_after final assets))
     = Ok final.
Proof.
  intros Hup Hsort. apply upsert_inv in Hup. destruct Hup as [-> Hcols].
  destruct (sorts_with_dtypes prior assets) as (raw & Hraw & Htyped & _).
  assert (final = with_dtypes raw) by congruence. subst final.
  destruct (first_run_shape prior assets raw Hcols Hraw)
    as (Hshape & Hidx & Hids & Hnames & Hno & Hdata & Hrows & Hmerged
        & Hsorted).
  set (cols := filter (fun cx => negb (String.eqb (fst cx) "Order"))
                      (crypto_dict_after prior assets)) in *.
  rewrite Hshape. now apply second_run_returns_typed.
Qed.





(** * Further properties of the script *)

(** ** The page fetcher *)

(** X1. The page fetch returns records exactly in two cases: the body has a
    status with error code 404 and the records are none, or the body has a
    status without error code and the records are its data.  A body with an
    error code never yields records, also when it carries data. *)
Theorem fetch_returns_iff (session : Session) (page : nat)
    (records : list Asset) :
  get_one_page_asset_data_from_messari session page = Ok records
  <-> exists resp st,
        session page = Ok resp /\ status resp = Some st
        /\ ((error_code st = Some 404%Z /\ records = [])
            \/ (error_code st = None /\ data resp = Some records)).
Proof.
  unfold get_one_page_asset_data_from_messari. split.
  - destruct (session page) as [resp|e]; simpl; [|discriminate].
    destruct (status resp) as [st|] eqn:Est; [|discriminate].
    destruct (error_code st) as [code|] eqn:Ecode.
    + destruct (Z.eqb_spec code 404) as [->|Hne].
      * intros [= <-]. exists resp, st. auto.
      * destruct (error_message st); discriminate.
    + destruct (data resp) as [d|] eqn:Edata; [|discriminate].
      intros [= <-]. exists resp, st. auto.
  - intros (resp & st & -> & Est & [[Ecode ->]|[Ecode Edata]]); simpl;
      rewrite Est, Ecode; [reflexivity|now rewrite Edata].
Qed.

(** ** The paginator *)

Lemma collect_ok_inv {A : Type} (tasks : list (result A)) (vs : list A) :
  collect tasks = Ok vs -> tasks = map Ok vs.
Proof.
  revert vs. induction tasks as [|t tasks IH]; intros vs; simpl.
  - now intros [= <-].
  - destruct t as [v|e]; simpl; [|discriminate].
    destruct (collect tasks) as [vs'|e]; simpl; [|discriminate].
    intros [= <-]. simpl. now rewrite (IH vs' eq_refl).
Qed.

Lemma gather_ok_inv {A : Type} (tasks : list (result A))
    (completions : list nat) (vs : list A) :
  gather tasks completions = Ok vs -> tasks = map Ok vs.
Proof.
  unfold gather. destruct (first_raised tasks completions); [discriminate|].
  apply collect_ok_inv.
Qed.

Lemma batch_ok_inv (session : Session) (pages : list nat)
    (vs : list (list Asset)) :
  map (get_one_page_asset_data_from_messari session) pages = map Ok vs ->
  forall p, In p pages ->
    get_one_page_asset_data_from_messari session p
    = Ok (page_records session p).
Proof.
  revert vs. induction pages as [|q pages IH]; intros [|v vs]; simpl;
    try discriminate; [tauto|].
  intros [= Hq Hrest] p [<-|Hp].
  - unfold page_records. now rewrite Hq.
  - now apply (IH vs).
Qed.

(** What an outcome with records tells about the run. *)
Lemma pagination_loop_ok_inv (session : Session) (sched : nat -> list nat)
    (fuel i : nat) (acc : list Asset) (issued : list nat)
    (records : list Asset) :
  outcome (pagination_loop fuel session sched i acc issued)
  = Some (Ok records) ->
  exists n,
    n < fuel
    /\ (forall p, i <= p < i + NUM_OF_CONCURRENT_SESSIONS * S n ->
          get_one_page_asset_data_from_messari session p
          = Ok (page_records session p))
    /\ (forall b, b < n ->
          has_empty_page
            (map (page_records session)
                 (seq (i + NUM_OF_CONCURRENT_SESSIONS * b)
                      NUM_OF_CONCURRENT_SESSIONS)) = false)
    /\ has_empty_page
         (map (page_records session)
              (seq (i + NUM_OF_CONCURRENT_SESSIONS * n)
                   NUM_OF_CONCURRENT_SESSIONS)) = true
    /\ records
       = acc ++ concat (map (page_records session)
                            (seq i (NUM_OF_CONCURRENT_SESSIONS * S n)))
    /\ requested (pagination_loop fuel session sched i acc issued)
       = issued ++ seq i (NUM_OF_CONCURRENT_SESSIONS * S n).
Proof.
  revert i acc issued.
  induction fuel as [|fuel IH]; intros i acc issued; [discriminate|].
  destruct (gather (map (get_one_page_asset_data_from_messari session)
                        (seq i NUM_OF_CONCURRENT_SESSIONS)) (sched i))
    as [gathered|e] eqn:Hg.
  2:{ cbn [pagination_loop]. rewrite Hg. discriminate. }
  apply gather_ok_inv in Hg.
  assert (Hok : forall p, i <= p < i + NUM_OF_CONCURRENT_SESSIONS ->
            get_one_page_asset_data_from_messari session p
            = Ok (page_records session p)).
  { intros p Hp. apply (batch_ok_inv _ _ _ Hg). apply in_seq. lia. }
  rewrite (pagination_loop_step session sched (page_records session)
             fuel i acc issued Hok).
  destruct (has_empty_page
              (map (page_records session)
                   (seq i NUM_OF_CONCURRENT_SESSIONS))) eqn:Hemp.
  - cbn [outcome requested]. intros Hout. injection Hout as Hrec. exists 0.
    rewrite Nat.mul_0_r, Nat.add_0_r, Nat.mul_1_r.
    split; [lia|]. split; [exact Hok|]. split; [intros b Hb; lia|].
    split; [exact Hemp|]. split; [now symmetry|reflexivity].
  - intros Hout. destruct (IH _ _ _ Hout)
      as (n & Hn & Hpages & Hfull & Hlast & Hrec & Hreq).
    exists (S n). split; [lia|]. split; [|split; [|split; [|split]]].
    + intros p Hp.
      destruct (Nat.lt_ge_cases p (i + NUM_OF_CONCURRENT_SESSIONS)).
      * apply Hok. lia.
      * apply Hpages. lia.
    + intros [|b] Hb.
      * now rewrite Nat.mul_0_r, Nat.add_0_r.
      * replace (i + NUM_OF_CONCURRENT_SESSIONS * S b)
          with (i + NUM_OF_CONCURRENT_SESSIONS
                + NUM_OF_CONCURRENT_SESSIONS * b) by lia.
        apply Hfull. lia.
    + replace (i + NUM_OF_CONCURRENT_SESSIONS * S n)
        with (i + NUM_OF_CONCURRENT_SESSIONS
              + NUM_OF_CONCURRENT_SESSIONS * n) by lia.
      exact Hlast.
    + rewrite Hrec, <- app_assoc, <- concat_app, <- map_app, <- seq_app.
      replace (NUM_OF_CONCURRENT_SESSIONS + NUM_OF_CONCURRENT_SESSIONS * S n)
        with (NUM_OF_CONCURRENT_SESSIONS * S (S n)) by lia.
      reflexivity.
    + rewrite Hreq, <- app_assoc, <- seq_app.
      replace (NUM_OF_CONCURRENT_SESSIONS + NUM_OF_CONCURRENT_SESSIONS * S n)
        with (NUM_OF_CONCURRENT_SESSIONS * S (S n)) by lia.
      reflexivity.
Qed.

(** X2. When the paginator returns records, every page it requested was
    answered, the pages it requested are those of the batches up to the
    first one that holds an empty page, and the records are the records of
    all these pages in page order: a result never lacks a page in between and
    never holds a page of a batch that failed. *)
Theorem paginator_result_is_complete
    (session : Session) (sched : nat -> list nat) (fuel : nat)
    (records : list Asset)
    (Hout : outcome (get_assets_from_messari fuel session sched)
            = Some (Ok records)) :
  exists n,
    n < fuel
    /\ requested (get_assets_from_messari fuel session sched)
       = seq 1 (NUM_OF_CONCURRENT_SESSIONS * S n)
    /\ (forall p, In p (requested (get_assets_from_messari fuel session sched)) ->
          get_one_page_asset_data_from_messari session p
          = Ok (page_records session p))
    /\ records
       = concat (map (page_records session)
                     (seq 1 (NUM_OF_CONCURRENT_SESSIONS * S n)))
    /\ has_empty_page (batch_pages (page_records session) n) = true
    /\ (forall b, b < n ->
          has_empty_page (batch_pages (page_records session) b) = false).
Proof.
  unfold get_assets_from_messari in *.
  destruct (pagination_loop_ok_inv session sched fuel 1 [] [] records Hout)
    as (n & Hn & Hpages & Hfull & Hlast & Hrec & Hreq).
  exists n. cbn [app] in Hrec, Hreq. rewrite Hreq.
  split; [exact Hn|]. split; [reflexivity|]. split; [|split; [|split]].
  - intros p Hp. apply in_seq in Hp. apply Hpages. lia.
  - exact Hrec.
  - exact Hlast.
  - exact Hfull.
Qed.

Lemma paginator_result_is_complete_witness :
  exists n,
    n < 3
    /\ requested (get_assets_from_messari 3 (serve two_pages) reversed)
       = seq 1 (NUM_OF_CONCURRENT_SESSIONS * S n).
Proof.
  destruct (paginator_result_is_complete (serve two_pages) reversed 3
              (repeat btc MESSARI_PAGE_LIMIT ++ [eth]) eq_refl)
    as (n & Hn & Hreq & _).
  exists n. split; assumption.
Defined.

(** The pages requested so far are whole batches in page order. *)
Lemma pagination_loop_requested (session : Session) (sched : nat -> list nat)
    (fuel i : nat) (acc : list Asset) (issued : list nat) :
  exists b,
    b <= fuel
    /\ requested (pagination_loop fuel session sched i acc issued)
       = issued ++ seq i (NUM_OF_CONCURRENT_SESSIONS * b).
Proof.
  revert i acc issued. induction fuel as [|fuel IH]; intros i acc issued.
  - exists 0. split; [lia|]. cbn [pagination_loop requested].
    rewrite Nat.mul_0_r. cbn [seq]. now rewrite app_nil_r.
  - cbn [pagination_loop].
    destruct (gather _ (sched i)) as [gathered|e].
    + destruct (existsb _ gathered).
      * exists 1. split; [lia|]. cbn [requested]. now rewrite Nat.mul_1_r.
      * destruct (IH (i + NUM_OF_CONCURRENT_SESSIONS)
                    (fold_left (fun acc item => acc ++ item) gathered acc)
                    (issued ++ seq i NUM_OF_CONCURRENT_SESSIONS))
          as (b & Hb & Hreq).
        exists (S b). split; [lia|]. rewrite Hreq.
        rewrite <- app_assoc, <- seq_app.
        replace (NUM_OF_CONCURRENT_SESSIONS + NUM_OF_CONCURRENT_SESSIONS * b)
          with (NUM_OF_CONCURRENT_SESSIONS * S b) by lia.
        reflexivity.
    + exists 1. split; [lia|]. cbn [requested]. now rewrite Nat.mul_1_r.
Qed.

(** X3. Whatever the remote answers and however the run ends, the pages the
    paginator has requested are the pages 1, 2, ... of a whole number of
    batches of seven: it never asks for page 0, never skips or repeats a
    page, and never asks for part of a batch. *)
Theorem paginator_requests_whole_batches
    (session : Session) (sched : nat -> list nat) (fuel : nat) :
  exists b,
    b <= fuel
    /\ requested (get_assets_from_messari fuel session sched)
       = seq 1 (NUM_OF_CONCURRENT_SESSIONS * b).
Proof.
  destruct (pagination_loop_requested session sched fuel 1 [] [])
    as (b & Hb & Hreq).
  exists b. split; [exact Hb|exact Hreq].
Qed.

(** X4. When a page fetch raises in a batch that is launched, the paginator
    ends with the exception of a page of that batch, after requesting all
    pages of the batches up to it, and returns none of the records of the
    earlier batches. *)
Theorem paginator_fails_with_its_batch
    (session : Session) (sched : nat -> list nat) (pg : nat -> list Asset)
    (n p fuel : nat) (e : exn)
    (Hprev : forall q, 1 <= q < 1 + NUM_OF_CONCURRENT_SESSIONS * n ->
       get_one_page_asset_data_from_messari session q = Ok (pg q)
       /\ pg q <> [])
    (Hp : 1 + NUM_OF_CONCURRENT_SESSIONS * n <= p
          < 1 + NUM_OF_CONCURRENT_SESSIONS * S n)
    (Hfail : get_one_page_asset_data_from_messari session p = Raise e)
    (Hfuel : n < fuel) :
  exists e' q,
    get_assets_from_messari fuel session sched
    = {| requested := seq 1 (NUM_OF_CONCURRENT_SESSIONS * S n);
         outcome := Some (Raise e') |}
    /\ 1 + NUM_OF_CONCURRENT_SESSIONS * n <= q
       < 1 + NUM_OF_CONCURRENT_SESSIONS * S n
    /\ get_one_page_asset_data_from_messari session q = Raise e'.
Proof.
  unfold get_assets_from_messari.
  assert (H : forall n fuel i acc issued,
            (forall q, i <= q < i + NUM_OF_CONCURRENT_SESSIONS * n ->
               get_one_page_asset_data_from_messari session q = Ok (pg q)
               /\ pg q <> []) ->
            i + NUM_OF_CONCURRENT_SESSIONS * n <= p
              < i + NUM_OF_CONCURRENT_SESSIONS * S n ->
            n < fuel ->
            exists e' q,
              pagination_loop fuel session sched i acc issued
              = {| requested :=
                     issued ++ seq i (NUM_OF_CONCURRENT_SESSIONS * S n);
                   outcome := Some (Raise e') |}
              /\ i + NUM_OF_CONCURRENT_SESSIONS * n <= q
                 < i + NUM_OF_CONCURRENT_SESSIONS * S n
              /\ get_one_page_asset_data_from_messari session q = Raise e').
  { clear n fuel Hprev Hp Hfuel.
    induction n as [|n IH]; intros fuel i acc issued Hprev Hp Hfuel;
      (destruct fuel as [|fuel]; [lia|]).
    - cbn [pagination_loop].
      destruct (gather_raises
                  (map (get_one_page_asset_data_from_messari session)
                       (seq i NUM_OF_CONCURRENT_SESSIONS)) (sched i) e)
        as (e' & -> & Hin).
      + rewrite <- Hfail. apply in_map, in_seq.
        unfold NUM_OF_CONCURRENT_SESSIONS in *. lia.
      + apply in_map_iff in Hin. destruct Hin as (q & Hq & Hqin).
        apply in_seq in Hqin. exists e', q.
        rewrite Nat.mul_1_r, Nat.mul_0_r, Nat.add_0_r.
        split; [reflexivity|]. split; [lia|exact Hq].
    - rewrite (pagination_loop_step session sched pg).
      + rewrite has_empty_page_false.
        * destruct (IH fuel (i + NUM_OF_CONCURRENT_SESSIONS)
                      (acc ++ concat (map pg (seq i NUM_OF_CONCURRENT_SESSIONS)))
                      (issued ++ seq i NUM_OF_CONCURRENT_SESSIONS))
            as (e' & q & Hrun & Hq & Hqe).
          -- intros q Hq. apply Hprev.
             unfold NUM_OF_CONCURRENT_SESSIONS in *. lia.
          -- unfold NUM_OF_CONCURRENT_SESSIONS in *. lia.
          -- lia.
          -- exists e', q. rewrite Hrun. split; [|split; [|exact Hqe]].
             ++ rewrite <- app_assoc, <- seq_app.
                replace (NUM_OF_CONCURRENT_SESSIONS
                         + NUM_OF_CONCURRENT_SESSIONS * S n)
                  with (NUM_OF_CONCURRENT_SESSIONS * S (S n)) by lia.
                reflexivity.
             ++ unfold NUM_OF_CONCURRENT_SESSIONS in *. lia.
        * intros q Hq. apply Hprev.
          unfold NUM_OF_CONCURRENT_SESSIONS in *. lia.
      + intros q Hq. apply Hprev.
        unfold NUM_OF_CONCURRENT_SESSIONS in *. lia. }
  destruct (H n fuel 1 [] [] Hprev Hp Hfuel) as (e' & q & Hrun & Hq & Hqe).
  exists e', q. rewrite Hrun. auto.
Qed.

Lemma paginator_fails_with_its_batch_witness :
  exists e' q,
    get_assets_from_messari 2 third_page_fails reversed
    = {| requested := seq 1 (NUM_OF_CONCURRENT_SESSIONS * 1);
         outcome := Some (Raise e') |}
    /\ 1 + NUM_OF_CONCURRENT_SESSIONS * 0 <= q
       < 1 + NUM_OF_CONCURRENT_SESSIONS * 1
    /\ get_one_page_asset_data_from_messari third_page_fails q = Raise e'.
Proof.
  apply (paginator_fails_with_its_batch third_page_fails reversed
           (fun _ => []) 0 3 2 (Exception "Internal Server Error")).
  - intros q Hq. simpl in Hq. lia.
  - simpl. lia.
  - reflexivity.
  - lia.
Defined.

(** ** The merge: errors and labels *)

Lemma setitem2_missing (col : string) (index : label) (v : cell)
    (d : dict string (dict label cell)) :
  ~ In col (dict_keys d) -> setitem2 col index v d = Raise (KeyError col).
Proof.
  intros H. apply dict_get_none in H. unfold setitem2. now rewrite H.
Qed.

Lemma setitem2_present (col : string) (index : label) (v : cell)
    (d : dict string (dict label cell)) :
  In col (dict_keys d) ->
  exists d', setitem2 col index v d = Ok d' /\ dict_keys d' = dict_keys d.
Proof.
  intros H. destruct (setitem2 col index v d) as [d'|e] eqn:E.
  - exists d'. split; [reflexivity|]. now apply setitem2_keys in E.
  - exfalso. unfold setitem2 in E. apply dict_get_in in H.
    destruct (dict_get col d); [discriminate|congruence].
Qed.

Lemma mem_before (prior : DataFrame) (c : string) :
  c <> "Order" ->
  mem c (dict_keys (crypto_dict_before prior))
  = mem c (map fst (df_columns prior)).
Proof.
  intros Hc. apply eq_true_iff_eq. rewrite !mem_In, crypto_dict_before_keys.
  tauto.
Qed.

(** The merge of one asset into a dictionary that lacks a data column raises
    the [KeyError] of the first column it lacks. *)
Lemma update_one_first_missing (d : dict string (dict label cell)) (order : nat)
    (asset : Asset) (c : string) :
  In "Order" (dict_keys d) ->
  find (fun c => negb (mem c (dict_keys d))) DATA_COLUMNS = Some c ->
  update_crypto_dict_with_messari_asset d order asset = Raise (KeyError c).
Proof.
  intros Hord Hfind. unfold update_crypto_dict_with_messari_asset.
  destruct (setitem2_present "Order" (asset_label asset) (Int (Z.of_nat order)) d Hord)
    as (d0 & -> & K0).
  cbn [bind]. unfold DATA_COLUMNS in Hfind. cbn [find] in Hfind.
  rewrite <- K0 in Hfind.
  repeat (match type of Hfind with
          | context [@mem string _ ?col (@dict_keys string _ ?dd)] =>
              let E := fresh "E" in
              destruct (mem col (dict_keys dd)) eqn:E; cbn [negb] in Hfind;
              [apply mem_In in E;
               let d' := fresh "d" in
               let K := fresh "K" in
               match goal with
               | |- context [setitem2 col ?i ?v dd] =>
                   destruct (setitem2_present col i v dd E) as (d' & -> & K)
               end;
               cbn [bind]; rewrite <- K in Hfind
              |injection Hfind as <-;
               let Hout := fresh "Hout" in
               assert (Hout : ~ In col (dict_keys dd))
                 by (intros Hin; apply mem_In in Hin; congruence);
               rewrite (setitem2_missing col _ _ dd Hout); reflexivity]
          end).
  destruct (mem "Rank" (dict_keys d4)) eqn:E3; cbn [negb] in Hfind;
    [discriminate Hfind|].
  injection Hfind as <-. apply setitem2_missing.
  intros Hin. apply mem_In in Hin. congruence.
Qed.

Lemma upsert_first_missing (prior : DataFrame) (assets : list Asset)
    (c : string) :
  assets <> [] -> first_missing_column prior = Some c ->
  upsert_cryptocurrencies prior assets = Raise (KeyError c).
Proof.
  intros Hne Hfind. destruct assets as [|a assets]; [congruence|].
  unfold upsert_cryptocurrencies. fold (crypto_dict_before prior).
  cbn [enumerate length seq combine update_all].
  rewrite (update_one_first_missing _ 0 a c); [reflexivity| |].
  - apply crypto_dict_before_keys. now left.
  - unfold first_missing_column, DATA_COLUMNS in Hfind.
    unfold DATA_COLUMNS. cbn [find] in *.
    rewrite !mem_before by discriminate. exact Hfind.
Qed.

(** X5. The merge raises nothing exactly when the fetched list is empty or
    the earlier table has the five data columns; otherwise it raises the
    [KeyError] of the first of Symbol, Name, Slug, Price in USD, Rank that the
    table lacks. *)
Theorem merge_raises_iff (prior : DataFrame) (assets : list Asset) :
  ((exists merged, upsert_cryptocurrencies prior assets = Ok merged)
   <-> assets = [] \/ has_data_columns prior = true)
  /\ (forall c,
        assets <> [] -> first_missing_column prior = Some c ->
        upsert_cryptocurrencies prior assets = Raise (KeyError c)).
Proof.
  split.
  - split.
    + intros [merged H]. now apply upsert_inv in H.
    + intros H. eexists. now apply upsert_ok_gen.
  - intros c. apply upsert_first_missing.
Qed.

Lemma in_dict_set_inv {V : Type} (x : string * V) (k : string) (v : V)
    (d : dict string V) :
  In x (dict_set k v d) -> x = (k, v) \/ In x d.
Proof.
  induction d as [|[k0 v0] d IH]; simpl.
  - intros [<-|[]]. now left.
  - destruct (key_eqb k k0); simpl; intros [<-|H]; auto.
    destruct (IH H); auto.
Qed.

(** A label of the merged frame comes from the earlier table or from the
    fetched list. *)
Lemma merged_index_inv (prior : DataFrame) (assets : list Asset)
    (k : label) :
  well_formed prior = true ->
  In k (df_index (frame_of_dict (crypto_dict_after prior assets))) ->
  In k (df_index prior) \/ In k (map asset_label assets).
Proof.
  intros Hwf Hk. apply frame_of_dict_index_in in Hk.
  destruct Hk as (cx & Hcx & Hk). unfold crypto_dict_after in Hcx.
  apply in_map_iff in Hcx. destruct Hcx as ([c col0] & <- & Hin).
  cbn [fst snd] in Hk.
  assert (Hk0 : In k (dict_keys col0) \/ In k (map asset_label assets)).
  { destruct (in_dec key_dec c MERGE_COLUMNS) as [Hm|Hm].
    - apply upd_columns_keys_in in Hk; [|exact Hm].
      now rewrite enumerate_ids in Hk.
    - rewrite upd_columns_other in Hk by assumption. now left. }
  destruct Hk0 as [Hk0|Hk0]; [|now right]. left.
  unfold crypto_dict_before in Hin. apply in_dict_set_inv in Hin.
  destruct Hin as [[= _ ->]|Hin]; [destruct Hk0|].
  rewrite to_dict_well_formed in Hin by assumption.
  apply in_map_iff in Hin. destruct Hin as ([c' vs] & [= _ <-] & _).
  unfold dict_keys in Hk0. apply in_map_iff in Hk0.
  destruct Hk0 as ([k' v] & <- & Hkv). now apply in_combine_l in Hkv.
Qed.

(** X6. The rows of the sorted result of a merge are the identifiers of the
    earlier table together with those of the fetched list, each once: the
    merge deletes no row and invents none. *)
Theorem merge_keeps_and_adds_labels
    (prior : DataFrame) (assets : list Asset)
    (Hwf : well_formed prior = true)
    (Hcols : has_data_columns prior = true) :
  exists merged final,
    upsert_cryptocurrencies prior assets = Ok merged
    /\ sort_cryptocurrencies merged = Ok final
    /\ NoDup (df_index final)
    /\ (forall k, In k (df_index final)
                  <-> In k (df_index prior) \/ In k (map asset_label assets)).
Proof.
  destruct (merged_with_dtypes prior assets Hcols)
    as (final & Hup & Hsort & Hsort' & _).
  exists (from_dict (crypto_dict_after prior assets)), (with_dtypes final).
  split; [exact Hup|]. split; [exact Hsort'|].
  destruct (final_index prior assets final Hsort) as (Hperm & Hidx & _).
  assert (Hp : Permutation (df_index final)
                 (df_index (frame_of_dict (crypto_dict_after prior assets)))).
  { rewrite Hidx. now apply take_permutation. }
  cbn [with_dtypes df_index].
  split.
  - apply (Permutation_NoDup (Permutation_sym Hp)), frame_of_dict_index_nodup.
  - intros k. split.
    + intros Hk. apply (Permutation_in _ Hp) in Hk.
      now apply merged_index_inv in Hk.
    + intros [Hk|Hk]; apply (Permutation_in _ (Permutation_sym Hp)).
      * now apply merged_index_prior.
      * now apply merged_index_fetched.
Qed.

Lemma merge_keeps_and_adds_labels_witness :
  exists merged final,
    upsert_cryptocurrencies old_table [eth; btc; xrp] = Ok merged
    /\ sort_cryptocurrencies merged = Ok final
    /\ NoDup (df_index final)
    /\ (forall k, In k (df_index final)
                  <-> In k (df_index old_table)
                      \/ In k (map asset_label [eth; btc; xrp])).
Proof.
  apply (merge_keeps_and_adds_labels old_table [eth; btc; xrp]);
    reflexivity.
Defined.

Lemma loc_some_in (df : DataFrame) (k : label) (c : string) (v : cell) :
  loc df k c = Some v -> In k (df_index df).
Proof.
  unfold loc. destruct (index_of k (df_index df)) as [p|] eqn:E;
    [|discriminate].
  intros _. apply index_of_nth in E. eapply nth_error_In; eauto.
Qed.

(** X7. In the frame the merge returns no two identifiers have the same
    position in the [Order] column, so the order in which the sequencer puts
    the fetched rows does not depend on how it breaks ties. *)
Theorem order_cells_are_distinct
    (prior : DataFrame) (assets : list Asset) (merged : DataFrame)
    (k k' : label) (z : Z)
    (Hup : upsert_cryptocurrencies prior assets = Ok merged)
    (Hk : loc merged k "Order" = Some (Int z)
          \/ loc merged k "Order" = Some (Flt z))
    (Hk' : loc merged k' "Order" = Some (Int z)
           \/ loc merged k' "Order" = Some (Flt z)) :
  k = k'.
Proof.
  apply upsert_inv in Hup. destruct Hup as [-> _].
  assert (Hget : dict_get "Order" (crypto_dict_after prior assets)
                 = Some (upd_columns (enumerate assets) "Order" [])).
  { now rewrite crypto_dict_after_get, crypto_dict_before_get_order. }
  assert (Hrank : forall x,
            loc (from_dict (crypto_dict_after prior assets)) x "Order"
            = Some (Int z)
            \/ loc (from_dict (crypto_dict_after prior assets)) x "Order"
               = Some (Flt z) ->
            rank_of assets x = Some z).
  { intros x Hx.
    assert (Hs : exists stored,
              loc (from_dict (crypto_dict_after prior assets)) x "Order"
              = Some stored /\ order_key stored = Some z).
    { destruct Hx as [Hx|Hx]; eexists; split; try exact Hx; reflexivity. }
    destruct Hs as (stored & Hs & Hkey).
    apply loc_with_dtypes_inv in Hs. destruct Hs as (v & Hv & Hst).
    pose proof (loc_some_in _ _ _ _ Hv) as Hin.
    rewrite (loc_frame_of_dict _ x "Order" _ Hin Hget) in Hv.
    injection Hv as Hv. rewrite <- (merged_order_keys prior), Hv.
    destruct Hst as [->| ->]; [exact Hkey|].
    now rewrite order_key_as_float in Hkey. }
  apply (rank_of_injective assets k k' z); auto.
Qed.

Lemma order_cells_are_distinct_witness :
  exists merged,
    upsert_cryptocurrencies old_table [eth; btc; xrp; btc_again] = Ok merged
    /\ loc merged "id-xrp" "Order" = Some (Flt 2)
    /\ LStr "id-xrp" = LStr "id-xrp".
Proof.
  exists (from_dict (crypto_dict_after old_table [eth; btc; xrp; btc_again])).
  split; [reflexivity|]. split; [reflexivity|].
  apply (order_cells_are_distinct old_table [eth; btc; xrp; btc_again]
           (from_dict (crypto_dict_after old_table
                         [eth; btc; xrp; btc_again]))
           "id-xrp" "id-xrp" 2);
    [reflexivity|right; reflexivity|right; reflexivity].
Defined.


(** X15. Merging the same fetched list again into the sorted result of a
    merge, and sorting, raises nothing and returns that result: the same
    rows in the same order with the same cells. *)
Theorem merging_again_changes_nothing
    (prior : DataFrame) (assets : list Asset) (merged final : DataFrame)
    (Hup : upsert_cryptocurrencies prior assets = Ok merged)
    (Hsort : sort_cryptocurrencies merged = Ok final) :
  exists merged2,
    upsert_cryptocurrencies final assets = Ok merged2
    /\ sort_cryptocurrencies merged2 = Ok final.
Proof.
  destruct (pipeline_idempotent prior assets merged final Hup Hsort)
    as [Hup' Hsort'].
  eauto.
Qed.

Lemma merging_again_changes_nothing_witness :
  exists final merged2,
    loc final "id-old" "Rank" = Some (Flt 900)
    /\ upsert_cryptocurrencies final [btc; unranked] = Ok merged2
    /\ sort_cryptocurrencies merged2 = Ok final.
Proof.
  destruct (merging_again_changes_nothing old_table [btc; unranked]
              (from_dict (crypto_dict_after old_table [btc; unranked]))
              (with_dtypes
                 {| df_index := [LStr "id-btc"; LStr "id-new"; LStr "id-old"];
                    df_columns :=
                      [("Symbol", [Str "BTC"; Str "NEW"; Str "OLD"]);
                       ("Name", [Str "bitcoin"; Str "newcoin"; Str "oldcoin"]);
                       ("Slug", [Str "bitcoin"; Str "newcoin"; Str "oldcoin"]);
                       ("Price in USD",
                        [Real "67000.5"; Real "0.01"; Real "1.0"]);
                       ("Rank", [Int 1; Null; Int 900])] |})
              eq_refl eq_refl) as (merged2 & H).
  eexists. exists merged2. split; [|exact H]. reflexivity.
Defined.

(** ** The script and its store *)

(** X9. When a run of the script returns a table and reading the file it
    has written gives that table again, a second run against the same
    remote, with the same completion orders, returns the table again and
    leaves every file of the store as the first run left it. *)
Theorem second_run_changes_nothing
    (argv : list string) (fuel : nat) (session : Session)
    (sched : nat -> list nat) (disk : Disk) (fs : FileSystem)
    (final : DataFrame)
    (Hrun : exit (main argv fuel session sched disk fs) = Some (Ok final))
    (Hreload : reload disk final = final) :
  exit (main argv fuel session sched disk
          (files (main argv fuel session sched disk fs)))
  = Some (Ok final)
  /\ (forall f,
        files (main argv fuel session sched disk
                 (files (main argv fuel session sched disk fs))) f
        = files (main argv fuel session sched disk fs) f).
Proof.
  destruct (main_returns argv fuel session sched disk fs final Hrun)
    as (assets & merged & Hout & Hup & Hsort & Hdisk & Hfiles).
  destruct (pipeline_idempotent _ assets merged final Hup Hsort)
    as (Hup' & Hsort').
  rewrite Hfiles.
  set (fs1 := fun f => if String.eqb f (csv_filename_of argv) then Some final
                       else fs f).
  assert (Hread : read_cryptocurrencies_from_csv disk fs1 (csv_filename_of argv)
                  = final).
  { unfold read_cryptocurrencies_from_csv, fs1.
    now rewrite String.eqb_refl. }
  assert (Hmain : main argv fuel session sched disk fs1
                  = {| exit := Some (Ok final);
                       files := fun f =>
                         if String.eqb f (csv_filename_of argv)
                         then Some final else fs1 f |}).
  { unfold main. rewrite Hout, Hread, Hup', Hsort'.
    unfold save_cryptocurrencies_to_csv. now rewrite Hdisk. }
  rewrite Hmain. cbn [exit files]. split; [reflexivity|].
  intros f. unfold fs1. now destruct (String.eqb f (csv_filename_of argv)).
Qed.

Lemma second_run_changes_nothing_witness :
  exit (main [] 1 (serve [[btc; eth]]) in_order sound_disk no_files)
  = Some (Ok (with_dtypes (table_of [btc; eth])))
  /\ exit (main [] 1 (serve [[btc; eth]]) in_order sound_disk
             (files (main [] 1 (serve [[btc; eth]]) in_order sound_disk
                       no_files)))
     = Some (Ok (with_dtypes (table_of [btc; eth]))).
Proof.
  split; [reflexivity|].
  exact (proj1 (second_run_changes_nothing [] 1 (serve [[btc; eth]]) in_order
                  sound_disk no_files (with_dtypes (table_of [btc; eth]))
                  eq_refl eq_refl)).
Defined.

(** X10. A run of the script changes no file but the one it is given: the
    second entry of the argument list when the list has exactly two entries,
    and the default file otherwise. *)
Theorem main_writes_only_its_file
    (argv : list string) (fuel : nat) (session : Session)
    (sched : nat -> list nat) (disk : Disk) (fs : FileSystem) :
  (forall f, f <> csv_filename_of argv ->
             files (main argv fuel session sched disk fs) f = fs f)
  /\ (forall prog arg, argv = [prog; arg] -> csv_filename_of argv = arg)
  /\ (length argv <> 2 -> csv_filename_of argv = CSV_DEFAULT_FILENAME).
Proof.
  split; [|split].
  - intros f Hf.
    destruct (main_all_or_nothing argv fuel session sched disk fs)
      as [->|(assets & merged & df & _ & _ & _ & -> & _)]; [reflexivity|].
    unfold save_cryptocurrencies_to_csv.
    destruct (fault disk); cbn [snd];
      (destruct (String.eqb_spec f (csv_filename_of argv)); [contradiction|]);
      reflexivity.
  - intros prog arg ->. reflexivity.
  - intros Hlen. destruct argv as [|a [|b [|c argv]]]; simpl in *;
      try reflexivity. congruence.
Qed.

(** ** The order of the rows after a run *)

Section StableSort.
Variable A B : Type.
Variable le : A -> A -> bool.
Variable le' : B -> B -> bool.
Variable f : A -> B.
Hypothesis le_f : forall a b, le' (f a) (f b) = le a b.

Lemma insert_sorted_map (x : A) (l : list A) :
  insert_sorted le' (f x) (map f l) = map f (insert_sorted le x l).
Proof.
  induction l as [|y l IH]; simpl; [reflexivity|].
  rewrite le_f. destruct (le x y); simpl; [reflexivity|]. now rewrite IH.
Qed.

(** Sorting commutes with a map that keeps the order of the keys. *)
Lemma stable_sort_map (l : list A) :
  stable_sort le' (map f l) = map f (stable_sort le l).
Proof.
  induction l as [|x l IH]; simpl; [reflexivity|].
  now rewrite IH, insert_sorted_map.
Qed.
End StableSort.

Lemma combine_seq_nth {A K : Type} (keys : list K) (l : list A) (d : A)
    (s : nat) :
  length l = length keys ->
  combine keys l
  = map (fun p => (fst p, nth (snd p - s) l d))
        (combine keys (seq s (length keys))).
Proof.
  revert l s. induction keys as [|k keys IH]; intros [|x l] s; simpl;
    try discriminate; [reflexivity|].
  intros [= Hlen]. rewrite Nat.sub_diag. f_equal.
  rewrite (IH l (S s) Hlen). apply map_ext_in. intros [k' i] Hin.
  apply in_combine_r, in_seq in Hin. simpl.
  replace (i - s) with (S (i - S s)) by lia. reflexivity.
Qed.

Lemma combine_map_l {A K : Type} (key : A -> K) (l : list A) :
  combine (map key l) l = map (fun x => (key x, x)) l.
Proof. induction l as [|x l IH]; simpl; [reflexivity|]. now rewrite IH. Qed.

(** Taking a list along the indexer of its keys sorts the list by key. *)
Lemma take_nargsort {A : Type} (key : A -> option Z) (l : list A) (d : A) :
  take (nargsort (map key l)) l d
  = stable_sort (fun x y => key_le (key x) (key y)) l.
Proof.
  unfold take, nargsort.
  rewrite (map_map snd (fun i => nth i l d)).
  rewrite (map_ext _ (fun p : option Z * nat =>
                        snd (fst p, nth (snd p - 0) l d)))
    by (intros [k i]; simpl; now rewrite Nat.sub_0_r).
  rewrite <- (map_map (fun p : option Z * nat => (fst p, nth (snd p - 0) l d))
                      snd).
  rewrite <- (stable_sort_map _ _
                (fun p q : option Z * nat => key_le (fst p) (fst q))
                (fun p q : option Z * A => key_le (fst p) (fst q))
                (fun p : option Z * nat => (fst p, nth (snd p - 0) l d)))
    by reflexivity.
  rewrite <- (combine_seq_nth (map key l) l d 0) by now rewrite length_map.
  rewrite combine_map_l.
  rewrite (stable_sort_map _ _
             (fun x y => key_le (key x) (key y))
             (fun p q : option Z * A => key_le (fst p) (fst q))
             (fun x => (key x, x))) by reflexivity.
  rewrite map_map. simpl. apply map_id.
Qed.

Section ByKey.
Variable A : Type.
Variable key : A -> option Z.

Let le (x y : A) : bool := key_le (key x) (key y).
Let R (x y : A) : Prop := le x y = true.
Let no_key (x : A) : bool :=
  match key x with
  | None => true
  | Some _ => false
  end.

Lemma le_no_key (x y : A) : le x y = false -> no_key y = false.
Proof.
  unfold le, no_key. destruct (key x), (key y); simpl; congruence.
Qed.

Lemma filter_no_key_insert (x : A) (l : list A) :
  filter no_key (insert_sorted le x l) = filter no_key (x :: l).
Proof.
  induction l as [|y l IH]; [reflexivity|]. cbn [insert_sorted].
  destruct (le x y) eqn:E; [reflexivity|].
  apply le_no_key in E. cbn [filter]. rewrite E, IH. reflexivity.
Qed.

(** The rows without a key keep their order. *)
Lemma filter_no_key_sort (l : list A) :
  filter no_key (stable_sort le l) = filter no_key l.
Proof.
  induction l as [|x l IH]; [reflexivity|]. cbn [stable_sort fold_right].
  change (fold_right (insert_sorted le) [] l) with (stable_sort le l).
  rewrite filter_no_key_insert. cbn [filter]. now rewrite IH.
Qed.

Lemma sorted_after_no_key (x : A) (l : list A) :
  no_key x = true -> Forall (R x) l -> filter no_key l = l.
Proof.
  intros Hx Hl. apply filter_all. intros y Hy.
  rewrite Forall_forall in Hl. specialize (Hl y Hy).
  unfold R, le, no_key in *. destruct (key x); [discriminate|].
  now destruct (key y).
Qed.

(** A list without duplicates that is sorted by key is determined by its
    elements and the order of those without key, when keys are not shared. *)
Lemma sorted_determined (l1 l2 : list A) :
  NoDup l1 -> NoDup l2 -> (forall x, In x l1 <-> In x l2) ->
  StronglySorted R l1 -> StronglySorted R l2 ->
  (forall x y z, In x l1 -> In y l1 ->
                 key x = Some z -> key y = Some z -> x = y) ->
  filter no_key l1 = filter no_key l2 ->
  l1 = l2.
Proof.
  revert l2. induction l1 as [|x l1 IH]; intros l2 Hnd1 Hnd2 Hin Hs1 Hs2 Hinj Hf.
  - destruct l2 as [|y l2]; [reflexivity|].
    destruct (proj2 (Hin y) (or_introl eq_refl)).
  - destruct l2 as [|y l2]; [destruct (proj1 (Hin x) (or_introl eq_refl))|].
    apply StronglySorted_inv in Hs1, Hs2.
    destruct Hs1 as [Hs1 Hx], Hs2 as [Hs2 Hy].
    destruct (no_key x) eqn:Ex.
    + (* every row is without key *)
      assert (H1 : filter no_key (x :: l1) = x :: l1).
      { cbn [filter]. rewrite Ex. f_equal.
        now apply (sorted_after_no_key x). }
      assert (H2 : filter no_key (y :: l2) = y :: l2).
      { apply filter_all. intros z Hz. apply Hin in Hz.
        destruct Hz as [<-|Hz]; [exact Ex|].
        rewrite <- (sorted_after_no_key x l1 Ex Hx) in Hz.
        now apply filter_In in Hz. }
      congruence.
    + destruct (no_key y) eqn:Ey.
      { exfalso.
        assert (Hxin : In x (y :: l2)) by (apply Hin; now left).
        destruct Hxin as [<-|Hxin]; [congruence|].
        rewrite <- (sorted_after_no_key y l2 Ey Hy) in Hxin.
        apply filter_In in Hxin. destruct Hxin. congruence. }
      assert (Hxy : x = y).
      { assert (Hxin : In x (y :: l2)) by (apply Hin; now left).
        assert (Hyin : In y (x :: l1)) by (apply Hin; now left).
        destruct Hxin as [E|Hxin]; [now symmetry|].
        destruct Hyin as [E|Hyin]; [exact E|].
        rewrite Forall_forall in Hx, Hy.
        pose proof (Hx y Hyin) as Rxy. pose proof (Hy x Hxin) as Ryx.
        unfold R, le, no_key in *.
        destruct (key x) as [a|] eqn:Kx; [|discriminate].
        destruct (key y) as [b|] eqn:Ky; [|discriminate].
        simpl in Rxy, Ryx. apply Z.leb_le in Rxy, Ryx.
        apply (Hinj x y a); simpl; auto. rewrite Ky. f_equal. lia. }
      subst y. f_equal.
      inversion Hnd1 as [|? ? Hx1 Hnd1']; subst.
      inversion Hnd2 as [|? ? Hx2 Hnd2']; subst.
      apply IH; auto.
      * intros z. split; intros Hz.
        -- destruct (proj1 (Hin z) (or_intror Hz)) as [<-|H]; tauto.
        -- destruct (proj2 (Hin z) (or_intror Hz)) as [<-|H]; tauto.
      * intros a b z Ha Hb. apply Hinj; now right.
      * cbn [filter] in Hf. now rewrite Ex in Hf.
Qed.

Lemma strongly_sorted_app (l1 l2 : list A) :
  StronglySorted R l1 -> StronglySorted R l2 ->
  (forall a b, In a l1 -> In b l2 -> R a b) ->
  StronglySorted R (l1 ++ l2).
Proof.
  induction 1 as [|x l1 Hl1 IH Hx]; intros H2 Hcross; simpl; [exact H2|].
  constructor.
  - apply IH; auto. intros a b Ha Hb. apply Hcross; [now right|exact Hb].
  - apply Forall_app. split; [exact Hx|].
    apply Forall_forall. intros b Hb. apply Hcross; [now left|exact Hb].
Qed.

Lemma strongly_sorted_no_key (l : list A) :
  (forall x, In x l -> no_key x = true) -> StronglySorted R l.
Proof.
  induction l as [|x l IH]; intros H; constructor.
  - apply IH. intros y Hy. apply H. now right.
  - apply Forall_forall. intros y Hy.
    specialize (H y (or_intror Hy)). unfold R, le, no_key in *.
    destruct (key y); [discriminate|]. now destruct (key x).
Qed.
End ByKey.

Lemma strongly_sorted_of_nth {A : Type} (R : A -> A -> Prop) (l : list A) :
  (forall i j a b, i < j -> nth_error l i = Some a ->
                   nth_error l j = Some b -> R a b) ->
  StronglySorted R l.
Proof.
  induction l as [|x l IH]; intros H; constructor.
  - apply IH. intros i j a b Hij Hi Hj. apply (H (S i) (S j)); auto. lia.
  - apply Forall_forall. intros y Hy. apply In_nth_error in Hy.
    destruct Hy as [j Hj]. apply (H 0 (S j)); auto. lia.
Qed.

Lemma strongly_sorted_map_inv {A B : Type} (R : B -> B -> Prop) (f : A -> B)
    (l : list A) :
  StronglySorted R (map f l) -> StronglySorted (fun a b => R (f a) (f b)) l.
Proof.
  induction l as [|x l IH]; simpl; intros H; constructor;
    apply StronglySorted_inv in H; destruct H as [Hl Hx].
  - now apply IH.
  - apply Forall_forall. intros y Hy. rewrite Forall_forall in Hx.
    apply Hx. now apply in_map.
Qed.

Lemma unfetched_no_rank (assets : list Asset) (k : label) :
  match rank_of assets k with
  | None => true
  | Some _ => false
  end = unfetched assets k.
Proof.
  unfold unfetched. destruct (rank_of assets k) as [r|] eqn:E.
  - symmetry. apply negb_false_iff, mem_In.
    destruct (in_dec key_dec k (map asset_label assets)) as [H|H]; [exact H|].
    apply rank_of_none in H. congruence.
  - symmetry. apply negb_true_iff. apply rank_of_none in E.
    destruct (mem k (map asset_label assets)) eqn:M; [|reflexivity].
    apply mem_In in M. contradiction.
Qed.

(** In a list without repeated identifiers the rank of an asset is its
    position. *)
Lemma rank_of_nth (assets : list Asset) (i : nat) (a : Asset) :
  NoDup (map asset_label assets) -> nth_error assets i = Some a ->
  rank_of assets (asset_label a) = Some (Z.of_nat i).
Proof.
  intros Hnd Hi. unfold rank_of.
  rewrite (last_occ_enumerate (asset_label a) assets i a Hi eq_refl); [reflexivity|].
  intros o' a' Hlt Ho' E.
  assert (Hlen : i < length (map asset_label assets)).
  { rewrite length_map. apply nth_error_Some. congruence. }
  pose proof (proj1 (NoDup_nth_error (map asset_label assets)) Hnd i o' Hlen) as H.
  rewrite !nth_error_map, Hi, Ho' in H. simpl in H.
  rewrite E in H. specialize (H eq_refl). lia.
Qed.

Lemma filter_comm {A : Type} (p q : A -> bool) (l : list A) :
  filter p (filter q l) = filter q (filter p l).
Proof.
  induction l as [|x l IH]; simpl; [reflexivity|].
  destruct (p x) eqn:P, (q x) eqn:Q; simpl; rewrite ?P, ?Q, IH; reflexivity.
Qed.

Lemma filter_unique (p : label -> bool) (l : list label) :
  filter p (unique l) = unique (filter p l).
Proof.
  induction l as [|x l IH]; simpl; [reflexivity|].
  destruct (p x) eqn:P; simpl.
  - f_equal. now rewrite filter_comm, IH.
  - rewrite filter_comm, IH. apply filter_neq_notin.
    rewrite unique_in, filter_In. intros [_ H]. congruence.
Qed.

Lemma filter_concat {A : Type} (p : A -> bool) (ls : list (list A)) :
  filter p (concat ls) = concat (map (filter p) ls).
Proof.
  induction ls as [|l ls IH]; simpl; [reflexivity|].
  now rewrite filter_app, IH.
Qed.

(** Lists that are all a list [u] or empty, one of them [u], have [u] as
    their distinct elements. *)
Lemma unique_concat_same (u : list label) (ls : list (list label)) :
  NoDup u -> (forall l, In l ls -> l = u \/ l = []) -> In u ls ->
  unique (concat ls) = u.
Proof.
  intros Hnd Hall Hin.
  assert (Hincl : forall ls', (forall l, In l ls' -> l = u \/ l = []) ->
                              incl (concat ls') u).
  { induction ls' as [|l ls' IH]; intros H x Hx; simpl in Hx; [destruct Hx|].
    apply in_app_or in Hx. destruct Hx as [Hx|Hx].
    - destruct (H l (or_introl eq_refl)) as [->| ->]; [exact Hx|destruct Hx].
    - apply IH; auto. intros l' Hl'. apply H. now right. }
  destruct u as [|k u'] eqn:Eu.
  { specialize (Hincl ls Hall).
    destruct (concat ls) as [|x c]; [reflexivity|].
    destruct (Hincl x (or_introl eq_refl)). }
  rewrite <- Eu in *. assert (Hne : u <> []) by (rewrite Eu; discriminate).
  clear Eu. induction ls as [|l ls IH]; [destruct Hin|]. simpl.
  destruct (Hall l (or_introl eq_refl)) as [->| ->].
  - apply unique_app_incl; [exact Hnd|]. apply Hincl.
    intros l' Hl'. apply Hall. now right.
  - simpl. apply IH.
    + intros l' Hl'. apply Hall. now right.
    + destruct Hin as [E|Hin]; [|exact Hin]. now symmetry in E.
Qed.

Lemma filter_unfetched_upd_column (assets : list Asset) (col : string)
    (oa : nat * Asset) (inner : dict label cell) :
  In (asset_label (snd oa)) (map asset_label assets) ->
  filter (unfetched assets) (dict_keys (upd_column col oa inner))
  = filter (unfetched assets) (dict_keys inner).
Proof.
  intros Hin. unfold upd_column. destruct (field_of col oa) as [v|];
    [|reflexivity].
  destruct (in_dec key_dec (asset_label (snd oa)) (dict_keys inner)) as [H|H].
  - now rewrite dict_set_in.
  - rewrite dict_set_notin by assumption. unfold dict_keys.
    rewrite map_app, filter_app. cbn [map fst filter]. unfold unfetched at 2.
    apply mem_In in Hin. rewrite Hin. cbn [negb]. apply app_nil_r.
Qed.

(** The merge adds labels of the fetched list only, after the labels a
    column has. *)
Lemma filter_unfetched_upd_columns (assets : list Asset)
    (items : list (nat * Asset)) (col : string) (inner : dict label cell) :
  incl (map (fun oa => asset_label (snd oa)) items) (map asset_label assets) ->
  filter (unfetched assets) (dict_keys (upd_columns items col inner))
  = filter (unfetched assets) (dict_keys inner).
Proof.
  revert inner. induction items as [|oa items IH]; intros inner Hincl;
    [reflexivity|].
  rewrite upd_columns_cons, IH.
  - apply filter_unfetched_upd_column. apply Hincl. now left.
  - intros x Hx. apply Hincl. now right.
Qed.

(** The labels of the merged frame that the fetched list does not have are
    those of the earlier table, in the order of that table. *)
Lemma merged_unfetched_labels (prior : DataFrame) (assets : list Asset) :
  well_formed prior = true -> has_data_columns prior = true ->
  filter (unfetched assets)
         (df_index (frame_of_dict (crypto_dict_after prior assets)))
  = filter (unfetched assets) (df_index prior).
Proof.
  intros Hwf Hcols. unfold frame_of_dict. cbn [df_index].
  rewrite filter_unique, filter_concat, map_map.
  pose proof (proj1 (well_formed_spec prior) Hwf) as (Hidx & _ & Hlen).
  rewrite Forall_forall in Hlen.
  assert (Hentry : forall c col0,
            In (c, col0) (crypto_dict_before prior) ->
            dict_keys col0 = df_index prior \/ dict_keys col0 = []).
  { intros c col0 Hin. unfold crypto_dict_before in Hin.
    apply in_dict_set_inv in Hin. destruct Hin as [[= _ ->]|Hin]; [now right|].
    rewrite to_dict_well_formed in Hin by assumption.
    apply in_map_iff in Hin. destruct Hin as ([c' vs] & [= _ <-] & Hc).
    left. unfold dict_keys. apply map_fst_combine. symmetry.
    apply (Hlen (c', vs) Hc). }
  apply unique_concat_same.
  - now apply NoDup_filter.
  - intros l Hl. apply in_map_iff in Hl. destruct Hl as (cx & <- & Hcx).
    unfold crypto_dict_after in Hcx. apply in_map_iff in Hcx.
    destruct Hcx as ([c col0] & <- & Hin). cbn [fst snd].
    rewrite filter_unfetched_upd_columns
      by (rewrite enumerate_ids; apply incl_refl).
    destruct (Hentry c col0 Hin) as [-> | ->]; [now left|now right].
  - assert (Hsym : In "Symbol" (dict_keys (crypto_dict_before prior))).
    { apply crypto_dict_before_merge_columns; [exact Hcols|simpl; tauto]. }
    destruct (merged_column prior assets "Symbol" Hsym)
      as (col0 & Hget0 & Hget).
    apply in_map_iff.
    exists ("Symbol", upd_columns (enumerate assets) "Symbol" col0).
    split; [|now apply dict_get_in_pair]. cbn [snd].
    rewrite filter_unfetched_upd_columns
      by (rewrite enumerate_ids; apply incl_refl).
    f_equal.
    rewrite crypto_dict_before_get_other in Hget0 by discriminate.
    rewrite to_dict_well_formed in Hget0 by assumption.
    rewrite (dict_get_map_snd (fun vs : list cell => combine (df_index prior) vs))
      in Hget0.
    destruct (dict_get "Symbol" (df_columns prior)) as [vs|] eqn:E;
      [|discriminate].
    injection Hget0 as <-. unfold dict_keys. apply map_fst_combine.
    symmetry. apply (Hlen ("Symbol", vs)). now apply dict_get_in_pair.
Qed.

(** The rows of the sorted result: the fetched assets in the order of the
    fetched list, then the rows that only the earlier table has, in the order
    of that table. *)
Lemma final_index_order (prior : DataFrame) (assets : list Asset)
    (final : DataFrame) :
  well_formed prior = true -> has_data_columns prior = true ->
  NoDup (map asset_label assets) ->
  sort_cryptocurrencies (frame_of_dict (crypto_dict_after prior assets))
  = Ok final ->
  df_index final
  = map asset_label assets ++ filter (unfetched assets) (df_index prior).
Proof.
  intros Hwf Hcols Hnd Hsort.
  destruct (final_index prior assets final Hsort)
    as (Hperm & Hidx & _ & Hsorted).
  set (merged := frame_of_dict (crypto_dict_after prior assets)) in *.
  assert (Hp : Permutation (df_index final) (df_index merged)).
  { rewrite Hidx. now apply take_permutation. }
  assert (Hstable : df_index final
                    = stable_sort (fun x y => key_le (rank_of assets x)
                                                     (rank_of assets y))
                                  (df_index merged)).
  { rewrite Hidx. apply take_nargsort. }
  pose proof (proj1 (well_formed_spec prior) Hwf) as (Hpidx & _ & _).
  apply (sorted_determined label (rank_of assets)).
  - apply (Permutation_NoDup (Permutation_sym Hp)), frame_of_dict_index_nodup.
  - apply NoDup_app; [exact Hnd|now apply NoDup_filter|].
    intros k Hk Hk'. apply filter_In in Hk'. destruct Hk' as [_ Hk'].
    unfold unfetched in Hk'. apply mem_In in Hk. rewrite Hk in Hk'.
    discriminate.
  - intros k. rewrite in_app_iff, filter_In. split.
    + intros Hk. apply (Permutation_in _ Hp) in Hk.
      apply merged_index_inv in Hk; [|exact Hwf].
      destruct (in_dec key_dec k (map asset_label assets)) as [H|H]; [now left|].
      right. destruct Hk as [Hk|Hk]; [|contradiction]. split; [exact Hk|].
      unfold unfetched. apply negb_true_iff.
      destruct (mem k (map asset_label assets)) eqn:M; [|reflexivity].
      apply mem_In in M. contradiction.
    + intros [Hk|[Hk _]]; apply (Permutation_in _ (Permutation_sym Hp)).
      * now apply merged_index_fetched.
      * now apply merged_index_prior.
  - now apply strongly_sorted_map_inv in Hsorted.
  - apply strongly_sorted_app.
    + apply strongly_sorted_of_nth. intros i j a b Hij Hi Hj.
      rewrite nth_error_map in Hi, Hj.
      destruct (nth_error assets i) as [ai|] eqn:Ei; [|discriminate].
      destruct (nth_error assets j) as [aj|] eqn:Ej; [|discriminate].
      injection Hi as <-. injection Hj as <-.
      rewrite (rank_of_nth assets i ai Hnd Ei), (rank_of_nth assets j aj Hnd Ej).
      simpl. apply Z.leb_le. lia.
    + apply strongly_sorted_no_key. intros k Hk. apply filter_In in Hk.
      rewrite unfetched_no_rank. tauto.
    + intros a b _ Hb. apply filter_In in Hb. destruct Hb as [_ Hb].
      rewrite <- unfetched_no_rank in Hb.
      destruct (rank_of assets b); [discriminate|].
      now destruct (rank_of assets a).
  - intros x y z _ _. apply rank_of_injective.
  - rewrite Hstable, filter_no_key_sort.
    rewrite !(filter_ext _ _ (unfetched_no_rank assets)).
    rewrite filter_app.
    rewrite (filter_none (unfetched assets) (map asset_label assets)).
    + cbn [app]. unfold merged. rewrite merged_unfetched_labels by assumption.
      symmetry. apply filter_all. intros k Hk. now apply filter_In in Hk.
    + intros k Hk. unfold unfetched. apply mem_In in Hk. now rewrite Hk.
Qed.

(** X11. After the merge of a fetched list without repeated identifiers
    into a well-formed table with the data columns, the rows of the sorted
    result are the fetched assets in the order of the fetched list, followed
    by the rows that only the earlier table has, in the order they had
    there. *)
Theorem rows_follow_fetched_order
    (prior : DataFrame) (assets : list Asset)
    (Hwf : well_formed prior = true)
    (Hcols : has_data_columns prior = true)
    (Hnd : NoDup (map asset_label assets)) :
  exists merged final,
    upsert_cryptocurrencies prior assets = Ok merged
    /\ sort_cryptocurrencies merged = Ok final
    /\ df_index final
       = map asset_label assets ++ filter (unfetched assets) (df_index prior).
Proof.
  destruct (merged_with_dtypes prior assets Hcols)
    as (final & Hup & Hsort & Hsort' & _).
  exists (from_dict (crypto_dict_after prior assets)), (with_dtypes final).
  split; [exact Hup|]. split; [exact Hsort'|].
  cbn [with_dtypes df_index]. now apply final_index_order.
Qed.

Lemma rows_follow_fetched_order_witness :
  exists merged final,
    upsert_cryptocurrencies old_table [eth; btc; xrp] = Ok merged
    /\ sort_cryptocurrencies merged = Ok final
    /\ df_index final
       = [LStr "id-eth"; LStr "id-btc"; LStr "id-xrp"; LStr "id-old"].
Proof.
  apply (rows_follow_fetched_order old_table [eth; btc; xrp]).
  - reflexivity.
  - reflexivity.
  - apply distinct_NoDup. reflexivity.
Defined.

(** ** A run that fetches nothing, and a first run *)

Lemma map_get_combine (idx : list label) (vs : list cell) :
  NoDup idx -> length vs = length idx ->
  map (fun k => cell_of (dict_get k (combine idx vs))) idx = vs.
Proof.
  intros Hnd. revert vs. induction Hnd as [|x idx Hout Hnd IH];
    intros [|v vs]; simpl; try discriminate; [reflexivity|].
  intros [= Hlen]. rewrite key_eqb_refl. simpl. f_equal.
  transitivity (map (fun k => cell_of (dict_get k (combine idx vs))) idx);
    [|now apply IH].
  apply map_ext_in. intros k Hk.
  destruct (key_eqb_spec k x) as [->|Hne]; [contradiction|reflexivity].
Qed.

(** X12. Merging an empty fetched list into a well-formed table without an
    [Order] column, and sorting, returns the table, every column under the
    dtype pandas infers for it: the table as it was when its columns have
    their dtypes already, as they have in a table read from a file.  A run
    that fetches nothing does not empty or reorder the table. *)
Theorem empty_fetch_keeps_table
    (prior : DataFrame)
    (Hwf : well_formed prior = true)
    (Hno : ~ In "Order" (map fst (df_columns prior)))
    (Hrows : df_columns prior = [] -> df_index prior = []) :
  exists merged,
    upsert_cryptocurrencies prior [] = Ok merged
    /\ sort_cryptocurrencies merged = Ok (with_dtypes prior)
    /\ (with_dtypes prior = prior -> sort_cryptocurrencies merged = Ok prior).
Proof.
  pose proof (proj1 (well_formed_spec prior) Hwf) as (Hidx & Hnames & Hlen).
  rewrite Forall_forall in Hlen.
  set (cols := map (fun c : string * list cell =>
                      (fst c, combine (df_index prior) (snd c)))
                   (df_columns prior)).
  assert (Hkeys : dict_keys cols = map fst (df_columns prior)).
  { unfold cols, dict_keys. now rewrite map_map. }
  assert (Hshape : prior
            = {| df_index := df_index prior;
                 df_columns :=
                   map (fun cx => (fst cx,
                                   map (fun k => cell_of (dict_get k (snd cx)))
                                       (df_index prior)))
                       cols |}).
  { destruct prior as [idx columns]. cbn [df_index df_columns] in *.
    f_equal. unfold cols. rewrite map_map.
    rewrite <- (map_id columns) at 1. apply map_ext_in.
    intros [c vs] Hc. cbn [fst snd]. f_equal. symmetry.
    apply map_get_combine; [exact Hidx|]. apply (Hlen (c, vs) Hc). }
  destruct (second_run_returns_final [] (df_index prior) cols) as [Hup Hsort].
  - exact Hidx.
  - intros k [].
  - rewrite <- Hkeys in Hnames. exact Hnames.
  - rewrite <- Hkeys in Hno. exact Hno.
  - now left.
  - intros Hnil. apply Hrows. unfold cols in Hnil.
    now apply map_eq_nil in Hnil.
  - intros cx _. exists (snd cx). reflexivity.
  - apply (strongly_sorted_map (fun a b => key_le a b = true)).
    apply strongly_sorted_no_key. reflexivity.
  - rewrite <- Hshape in Hup, Hsort.
    destruct (sorts_with_dtypes prior []) as (raw & Hraw & Htyped & _).
    assert (raw = prior) by congruence. subst raw.
    exists (from_dict (crypto_dict_after prior [])).
    split; [exact Hup|]. split; [exact Htyped|].
    intros E. now rewrite Htyped, E.
Qed.

Lemma empty_fetch_keeps_table_witness :
  exists merged,
    upsert_cryptocurrencies old_table [] = Ok merged
    /\ sort_cryptocurrencies merged = Ok (with_dtypes old_table)
    /\ (with_dtypes old_table = old_table ->
        sort_cryptocurrencies merged = Ok old_table).
Proof.
  apply (empty_fetch_keeps_table old_table).
  - reflexivity.
  - simpl. intros [H|[H|[H|[H|[H|[]]]]]]; discriminate.
  - discriminate.
Defined.

(** The frame that reading a missing file gives. *)
Lemma read_missing_file (disk : Disk) (fs : FileSystem) (filename : string) :
  fs filename = None ->
  read_cryptocurrencies_from_csv disk fs filename
  = {| df_index := [];
       df_columns := map (fun c => (c, [])) DATA_COLUMNS |}.
Proof.
  intros H. unfold read_cryptocurrencies_from_csv. now rewrite H.
Qed.

(** In a list without repeated identifiers the merge leaves, under the
    identifier of an asset, the cell of that asset. *)
Lemma upd_columns_get_nodup (assets : list Asset) (a : Asset) (c : string)
    (inner : dict label cell) :
  NoDup (map asset_label assets) -> In a assets -> In c MERGE_COLUMNS ->
  exists o,
    dict_get (asset_label a) (upd_columns (enumerate assets) c inner)
    = field_of c (o, a).
Proof.
  intros Hnd Hin Hc. apply In_nth_error in Hin. destruct Hin as [o Ho].
  exists o. rewrite upd_columns_get by assumption.
  rewrite (last_occ_enumerate (asset_label a) assets o a Ho eq_refl); [reflexivity|].
  intros o' a' Hlt Ho' E.
  assert (Hlen : o < length (map asset_label assets)).
  { rewrite length_map. apply nth_error_Some. congruence. }
  pose proof (proj1 (NoDup_nth_error (map asset_label assets)) Hnd o o' Hlen) as H.
  rewrite !nth_error_map, Ho, Ho' in H. simpl in H.
  rewrite E in H. specialize (H eq_refl). lia.
Qed.

(** The first merge into an empty table gives the table of the fetched
    list. *)
Lemma first_run_table (assets : list Asset) (final : DataFrame) :
  NoDup (map asset_label assets) ->
  sort_cryptocurrencies
    (frame_of_dict
       (crypto_dict_after
          {| df_index := [];
             df_columns := map (fun c => (c, [])) DATA_COLUMNS |} assets))
  = Ok final ->
  final = table_of assets.
Proof.
  intros Hnd Hsort.
  set (fresh := {| df_index := [];
                   df_columns := map (fun c => (c, [])) DATA_COLUMNS |}) in *.
  assert (Hwf : well_formed fresh = true) by reflexivity.
  assert (Hcols : has_data_columns fresh = true) by reflexivity.
  pose proof (final_index_order fresh assets final Hwf Hcols Hnd Hsort) as Hidx.
  cbn [df_index fresh filter] in Hidx. rewrite app_nil_r in Hidx.
  destruct (first_run_shape fresh assets final (or_intror Hcols) Hsort)
    as (Hshape & _).
  rewrite Hshape, Hidx. unfold table_of. f_equal.
  unfold crypto_dict_after.
  replace (crypto_dict_before fresh)
    with [("Symbol", @nil (label * cell)); ("Name", []); ("Slug", []);
          ("Price in USD", []); ("Rank", []); ("Order", [])]
    by reflexivity.
  remember (upd_columns (enumerate assets)) as u eqn:Eu.
  cbn [map fst snd]. cbn [filter fst]. 
  change (negb ("Symbol" =? "Order")) with true.
  change (negb ("Name" =? "Order")) with true.
  change (negb ("Slug" =? "Order")) with true.
  change (negb ("Price in USD" =? "Order")) with true.
  change (negb ("Rank" =? "Order")) with true.
  change (negb ("Order" =? "Order")) with false.
  cbn [map fst snd]. subst u.
  assert (Hcol : forall c (proj : Asset -> cell),
            In c MERGE_COLUMNS ->
            (forall o a, field_of c (o, a) = Some (proj a)) ->
            map (fun k => cell_of (dict_get k
                                     (upd_columns (enumerate assets) c [])))
                (map asset_label assets)
            = map proj assets).
  { intros c proj Hc Hproj. rewrite map_map. apply map_ext_in. intros a Ha.
    destruct (upd_columns_get_nodup assets a c [] Hnd Ha Hc) as [o ->].
    now rewrite Hproj. }
  rewrite (Hcol "Symbol" symbol) by (simpl; tauto || reflexivity).
  rewrite (Hcol "Name" name) by (simpl; tauto || reflexivity).
  rewrite (Hcol "Slug" slug) by (simpl; tauto || reflexivity).
  rewrite (Hcol "Price in USD"
             (fun a => price_usd (market_data (metrics a))))
    by (simpl; tauto || reflexivity).
  rewrite (Hcol "Rank" (fun a => rank (marketcap (metrics a))))
    by (simpl; tauto || reflexivity).
  reflexivity.
Qed.

(** X13. When the file does not exist yet, the paginator returns a list
    without repeated identifiers and the disk takes every row, the run raises
    nothing and writes one row for each fetched asset, in the fetched order,
    with the asset's symbol, name, slug, price and rank, every column under
    the dtype pandas infers for it. *)
Theorem first_run_saves_fetched_table
    (argv : list string) (fuel : nat) (session : Session)
    (sched : nat -> list nat) (disk : Disk) (fs : FileSystem)
    (assets : list Asset)
    (Hnew : fs (csv_filename_of argv) = None)
    (Hout : outcome (get_assets_from_messari fuel session sched)
            = Some (Ok assets))
    (Hnd : NoDup (map asset_label assets))
    (Hdisk : fault disk = None) :
  exit (main argv fuel session sched disk fs)
  = Some (Ok (with_dtypes (table_of assets)))
  /\ files (main argv fuel session sched disk fs) (csv_filename_of argv)
     = Some (with_dtypes (table_of assets))
  /\ df_index (with_dtypes (table_of assets)) = map asset_label assets
  /\ (forall a, In a assets ->
        stores (with_dtypes (table_of assets)) (asset_label a) "Symbol"
          (symbol a)
        /\ stores (with_dtypes (table_of assets)) (asset_label a) "Name"
             (name a)
        /\ stores (with_dtypes (table_of assets)) (asset_label a) "Slug"
             (slug a)
        /\ stores (with_dtypes (table_of assets)) (asset_label a) "Price in USD"
             (price_usd (market_data (metrics a)))
        /\ stores (with_dtypes (table_of assets)) (asset_label a) "Rank"
             (rank (marketcap (metrics a)))).
Proof.
  split; [|split; [|split]].
  - unfold main. rewrite Hout, (read_missing_file _ _ _ Hnew).
    rewrite upsert_ok by reflexivity.
    destruct (sorts_with_dtypes
                {| df_index := [];
                   df_columns := map (fun c => (c, [])) DATA_COLUMNS |} assets)
      as (final & Hsort & Hsort' & _).
    rewrite Hsort'. rewrite (first_run_table assets final Hnd Hsort).
    unfold save_cryptocurrencies_to_csv. rewrite Hdisk. reflexivity.
  - unfold main. rewrite Hout, (read_missing_file _ _ _ Hnew).
    rewrite upsert_ok by reflexivity.
    destruct (sorts_with_dtypes
                {| df_index := [];
                   df_columns := map (fun c => (c, [])) DATA_COLUMNS |} assets)
      as (final & Hsort & Hsort' & _).
    rewrite Hsort'. rewrite (first_run_table assets final Hnd Hsort).
    unfold save_cryptocurrencies_to_csv. rewrite Hdisk. cbn [files].
    now rewrite String.eqb_refl.
  - reflexivity.
  - intros a Ha.
    assert (Hloc : forall c (proj : Asset -> cell),
              dict_get c (df_columns (table_of assets))
              = Some (map proj assets) ->
              stores (with_dtypes (table_of assets)) (asset_label a) c
                (proj a)).
    { intros c proj Hc. apply stores_with_dtypes. unfold loc. rewrite Hc.
      assert (Hin : In (asset_label a) (df_index (table_of assets))).
      { cbn [table_of df_index]. now apply in_map. }
      destruct (index_of_in _ _ Hin) as [p Hp]. rewrite Hp.
      apply index_of_nth in Hp. cbn [table_of df_index] in Hp.
      rewrite nth_error_map in Hp |- *.
      destruct (nth_error assets p) as [b|] eqn:Eb; [|discriminate].
      injection Hp as Hp. cbn [option_map]. do 2 f_equal.
      apply In_nth_error in Ha. destruct Ha as [q Hq].
      assert (Hlen : p < length (map asset_label assets)).
      { rewrite length_map. apply nth_error_Some. congruence. }
      pose proof (proj1 (NoDup_nth_error (map asset_label assets)) Hnd p q Hlen) as H.
      rewrite !nth_error_map, Eb, Hq in H. cbn [option_map] in H.
      unfold asset_label in H. rewrite Hp in H. specialize (H eq_refl).
      subst q. congruence. }
    repeat split.
    + apply (Hloc "Symbol" symbol). reflexivity.
    + apply (Hloc "Name" name). reflexivity.
    + apply (Hloc "Slug" slug). reflexivity.
    + apply (Hloc "Price in USD"
               (fun a => price_usd (market_data (metrics a)))). reflexivity.
    + apply (Hloc "Rank" (fun a => rank (marketcap (metrics a)))).
      reflexivity.
Qed.

Lemma first_run_saves_fetched_table_witness :
  exit (main [] 1 (serve [[btc; eth]]) reversed sound_disk no_files)
  = Some (Ok (with_dtypes (table_of [btc; eth])))
  /\ files (main [] 1 (serve [[btc; eth]]) reversed sound_disk no_files)
       CSV_DEFAULT_FILENAME
     = Some (with_dtypes (table_of [btc; eth])).
Proof.
  destruct (first_run_saves_fetched_table [] 1 (serve [[btc; eth]]) reversed
              sound_disk no_files [btc; eth]) as (H1 & H2 & _).
  - reflexivity.
  - reflexivity.
  - apply distinct_NoDup. reflexivity.
  - reflexivity.
  - split; assumption.
Defined.

(** X14. Once the paginator has returned its list, the run merges it into
    the table it reads, sorts the merge and writes the sorted merge under
    its file name, when the list is empty or the table read has the data
    columns: all of its rows when the disk takes them, and then the run
    returns the sorted merge, or the first of them when the disk fails, and
    then the run ends with the failure of the disk.  When the list is not
    empty and the table lacks a data column the run ends with the
    [KeyError] of the first column it lacks and the store is left as it
    was. *)
Theorem main_after_pagination
    (argv : list string) (fuel : nat) (session : Session)
    (sched : nat -> list nat) (disk : Disk) (fs : FileSystem)
    (assets : list Asset)
    (Hout : outcome (get_assets_from_messari fuel session sched)
            = Some (Ok assets)) :
  let prior :=
    read_cryptocurrencies_from_csv disk fs (csv_filename_of argv) in
  let run := main argv fuel session sched disk fs in
  (assets = [] \/ has_data_columns prior = true ->
   exists merged final,
     upsert_cryptocurrencies prior assets = Ok merged
     /\ sort_cryptocurrencies merged = Ok final
     /\ (fault disk = None ->
         exit run = Some (Ok final)
         /\ files run (csv_filename_of argv) = Some final)
     /\ (forall n, fault disk = Some n ->
           exit run = Some (Raise (OSError "No space left on device"))
           /\ files run (csv_filename_of argv) = Some (first_rows n final)))
  /\ (forall c,
        assets <> [] -> first_missing_column prior = Some c ->
        exit run = Some (Raise (KeyError c)) /\ files run = fs).
Proof.
  intros prior run. split.
  - intros Hcols.
    destruct (sorts_with_dtypes prior assets) as (raw & _ & Hsort & _).
    exists (from_dict (crypto_dict_after prior assets)), (with_dtypes raw).
    split; [now apply upsert_ok_gen|]. split; [exact Hsort|].
    unfold run, main. rewrite Hout. fold prior.
    rewrite (upsert_ok_gen prior assets Hcols), Hsort.
    unfold save_cryptocurrencies_to_csv.
    split.
    + intros ->. cbn [exit files]. now rewrite String.eqb_refl.
    + intros n ->. cbn [exit files]. now rewrite String.eqb_refl.
  - intros c Hne Hfind. unfold run, main. rewrite Hout. fold prior.
    rewrite (upsert_first_missing prior assets c Hne Hfind).
    split; reflexivity.
Qed.

Lemma main_after_pagination_witness :
  exists merged final,
    upsert_cryptocurrencies old_table [btc; eth] = Ok merged
    /\ sort_cryptocurrencies merged = Ok final
    /\ exit (main [] 1 (serve [[btc; eth]]) in_order sound_disk one_file)
       = Some (Ok final)
    /\ files (main [] 1 (serve [[btc; eth]]) in_order sound_disk one_file)
         CSV_DEFAULT_FILENAME
       = Some final.
Proof.
  destruct (proj1 (main_after_pagination [] 1 (serve [[btc; eth]]) in_order
                     sound_disk one_file [btc; eth] eq_refl))
    as (merged & final & Hup & Hsort & Hok & _).
  - right. reflexivity.
  - exists merged, final. split; [exact Hup|]. split; [exact Hsort|].
    apply Hok. reflexivity.
Defined.
